(** * Prompt metadata parser: constraint extraction from prompt text

    A shallow embedding of [src/prompt_parser.py]: the amount normaliser
    [parse_amount] and the constraint extractor [parse_constraints], with
    the parts of the Python runtime they rest on (text as sequences of code
    points, the backtracking search of [re], [int()], [float()], binary64
    arithmetic and [round]). *)

From Stdlib Require Import ZArith NArith List String Ascii Bool Lia Reals Lra.
From stdpp Require Import gmap strings.

Set Default Proof Using "Type".
Local Open Scope N_scope.

(** ** Text

    A Python [str] is a sequence of Unicode code points. *)

Abbreviation char := N (only parsing).
Abbreviation str := (list N) (only parsing).

(** Source literals are ASCII; [u "abc"] is the [str] of such a literal. *)
Fixpoint u (s : string) : str :=
  match s with
  | EmptyString => []
  | String a s' => N_of_ascii a :: u s'
  end.

(** Zero digits of the Unicode decimal-digit blocks (general category Nd,
    Unicode 14.0): every decimal digit is [z + d] for one of these [z] and
    its value [d < 10]. *)
Definition decimal_zeros : list N :=
  [0x30; 0x660; 0x6f0; 0x7c0; 0x966; 0x9e6; 0xa66; 0xae6; 0xb66; 0xbe6;
   0xc66; 0xce6; 0xd66; 0xde6; 0xe50; 0xed0; 0xf20; 0x1040; 0x1090; 0x17e0;
   0x1810; 0x1946; 0x19d0; 0x1a80; 0x1a90; 0x1b50; 0x1bb0; 0x1c40; 0x1c50;
   0xa620; 0xa8d0; 0xa900; 0xa9d0; 0xa9f0; 0xaa50; 0xabf0; 0xff10; 0x104a0;
   0x10d30; 0x11066; 0x110f0; 0x11136; 0x111d0; 0x112f0; 0x11450; 0x114d0;
   0x11650; 0x116c0; 0x11730; 0x118e0; 0x11950; 0x11c50; 0x11d50; 0x11da0;
   0x16a60; 0x16ac0; 0x16b50; 0x1d7ce; 0x1d7d8; 0x1d7e2; 0x1d7ec; 0x1d7f6;
   0x1e140; 0x1e2f0; 0x1e950; 0x1fbf0].

Fixpoint decimal_in (zs : list N) (c : char) : option N :=
  match zs with
  | [] => None
  | z :: zs' => if (z <=? c) && (c <? z + 10) then Some (c - z)
                else decimal_in zs' c
  end.

(** [Py_UNICODE_TODECIMAL]: the value of a decimal digit. *)
Definition to_decimal (c : char) : option N := decimal_in decimal_zeros c.

(** [\d] of a [str] pattern, and [str.isdecimal] on one character. *)
Definition is_decimal (c : char) : bool :=
  match to_decimal c with Some _ => true | None => false end.

(** [Py_UNICODE_ISSPACE]: [\s] of a [str] pattern and what [str.strip]
    removes. *)
Definition is_space (c : char) : bool :=
  ((0x9 <=? c) && (c <=? 0xd)) || ((0x1c <=? c) && (c <=? 0x20))
  || (c =? 0x85) || (c =? 0xa0) || (c =? 0x1680)
  || ((0x2000 <=? c) && (c <=? 0x200a))
  || (c =? 0x2028) || (c =? 0x2029) || (c =? 0x202f) || (c =? 0x205f)
  || (c =? 0x3000).

(** [Py_ISSPACE]: the ASCII white space that [int()] and [float()] strip. *)
Definition is_ascii_space (c : char) : bool :=
  ((0x9 <=? c) && (c <=? 0xd)) || (c =? 0x20).

Definition is_ascii_upper (c : char) : bool := (0x41 <=? c) && (c <=? 0x5a).
Definition is_ascii_lower (c : char) : bool := (0x61 <=? c) && (c <=? 0x7a).

(** The simple lower-case mapping of [re] ([_PyUnicode_ToLowercase]), on the
    code points it sends to an ASCII letter: A-Z, U+0130 (capital I with dot)
    and U+212A (Kelvin sign).  No other code point is sent to an ASCII
    letter, to U+0131 or to U+017F, which is all the patterns below ask of
    it; such code points are left as they are. *)
Definition sre_lower (c : char) : char :=
  if is_ascii_upper c then c + 32
  else if c =? 0x130 then 0x69
  else if c =? 0x212a then 0x6b
  else c.

(** The case-fix table of [sre_compile] ([_equivalences]) at the ASCII
    letters: i also stands for dotless i, s for long s. *)
Definition sre_fixes (lo : char) : list char :=
  if lo =? 0x69 then [0x131] else if lo =? 0x73 then [0x17f] else [].

(** A pattern literal [p] against an input character [c] under
    [re.IGNORECASE]: the lowered input must be the lowered literal or one of
    its case fixes.  For an uncased literal this is equality. *)
Definition lit_ic (p c : char) : bool :=
  let lo := sre_lower p in
  let x := sre_lower c in
  if is_ascii_lower lo then (x =? lo) || existsb (N.eqb x) (sre_fixes lo)
  else c =? p.

(** [str.lower] of one character.  It is the full mapping on ASCII and on
    the two other code points whose lower-case form has an ASCII letter
    (U+0130 gives i followed by U+0307, U+212A gives k).  The other cased
    code points lower to letters outside ASCII; [parse_amount] neither looks
    for them nor removes them and [float()] refuses them in either case, so
    they are kept as written. *)
Definition lower_char (c : char) : str :=
  if is_ascii_upper c then [c + 32]
  else if c =? 0x130 then [0x69; 0x307]
  else if c =? 0x212a then [0x6b]
  else [c].

Definition py_lower (s : str) : str := flat_map lower_char s.

(** [str.strip()] *)
Fixpoint lstrip (s : str) : str :=
  match s with
  | c :: s' => if is_space c then lstrip s' else s
  | [] => []
  end.

Definition rstrip (s : str) : str := rev (lstrip (rev s)).
Definition py_strip (s : str) : str := rstrip (lstrip s).

(** [s.replace(c, '')] for a one-character [c] *)
Definition remove_char (c : char) (s : str) : str :=
  filter (fun x => negb (x =? c)) s.

Fixpoint starts_with (p s : str) : bool :=
  match p, s with
  | [], _ => true
  | a :: p', b :: s' => (a =? b) && starts_with p' s'
  | _ :: _, [] => false
  end.

(** [p in s] *)
Fixpoint contains (p s : str) : bool :=
  starts_with p s || match s with [] => false | _ :: s' => contains p s' end.

(** ** Regular expressions

    The fragment of [re] syntax the four patterns use, matched the way [re]
    does: by backtracking, alternatives left to right, repetitions greedy. *)

Inductive cls : Type :=
| CLit (p : char)   (* a literal, under re.IGNORECASE *)
| CDigit            (* \d *)
| CSpace.           (* \s *)

Definition cls_ok (c : cls) (x : char) : bool :=
  match c with
  | CLit p => lit_ic p x
  | CDigit => is_decimal x
  | CSpace => is_space x
  end.

Inductive re : Type :=
| Eps
| Chr (c : cls)
| Cat (r1 r2 : re)
| Alt (r1 r2 : re)
| Rep (lo : nat) (hi : option nat) (r : re)   (* r{lo,hi}, greedy *)
| Grp (i : nat) (r : re).                     (* capturing group number i *)

(** Captured groups; a group that took no part in the match has no entry
    ([m.group(i)] is [None]). *)
Abbreviation groups := (gmap nat (list N)) (only parsing).

(** The rounds of a greedy repetition: [body] is the matcher of the repeated
    sub-pattern, [fuel] the number of rounds still allowed, [need] the
    number still required.  One more round is tried first; when that fails
    the repetition stops here, if it may. *)
Fixpoint rep_loop {A : Type}
    (body : str -> groups -> (str -> groups -> option A) -> option A)
    (k : str -> groups -> option A)
    (fuel need : nat) (s : str) (g : groups) {struct fuel} : option A :=
  let stop := match need with O => k s g | S _ => None end in
  match fuel with
  | O => stop
  | S fuel' =>
      match body s g (fun s' g' => rep_loop body k fuel' (pred need) s' g') with
      | Some a => Some a
      | None => stop
      end
  end.

(** [rmatch r s g k]: match [r] at the head of [s], then hand what is left
    of [s] and the groups to the continuation [k]; [None] makes the matcher
    backtrack.  An unbounded repetition is cut at [length s] rounds: every
    repeated sub-pattern below takes at least one character per round. *)
Fixpoint rmatch {A : Type} (r : re) (s : str) (g : groups)
    (k : str -> groups -> option A) {struct r} : option A :=
  match r with
  | Eps => k s g
  | Chr c =>
      match s with
      | x :: s' => if cls_ok c x then k s' g else None
      | [] => None
      end
  | Cat r1 r2 => rmatch r1 s g (fun s' g' => rmatch r2 s' g' k)
  | Alt r1 r2 =>
      match rmatch r1 s g k with
      | Some a => Some a
      | None => rmatch r2 s g k
      end
  | Rep lo hi r1 =>
      rep_loop (rmatch r1) k
        (match hi with Some h => h | None => length s end) lo s g
  | Grp i r1 =>
      rmatch r1 s g
        (fun s' g' => k s' (<[i := take (length s - length s') s]> g'))
  end.

(** [pattern.match] at the head of [s]: the rest of [s] and the groups. *)
Definition match_at (r : re) (s : str) : option (str * groups) :=
  rmatch r s ∅ (fun s' g => Some (s', g)).

(** [re.search]: the first position, from the left, where [r] matches. *)
Fixpoint search (r : re) (s : str) : option groups :=
  match match_at r s with
  | Some (_, g) => Some g
  | None => match s with [] => None | _ :: s' => search r s' end
  end.

(** [re.sub(r, '', s)]: every match of [r], found from left to right, is
    dropped.  [skip] counts the characters of the current match still to be
    dropped.  None of the patterns used with it matches the empty string. *)
Fixpoint sub_empty (r : re) (skip : nat) (s : str) : str :=
  match s with
  | [] => []
  | x :: s' =>
      match skip with
      | S n => sub_empty r n s'
      | O =>
          match match_at r s with
          | Some (rest, _) =>
              match (length s - length rest)%nat with
              | S n => sub_empty r n s'
              | O => x :: sub_empty r 0 s'
              end
          | None => x :: sub_empty r 0 s'
          end
      end
  end.

(** Pattern syntax *)
Definition lit (s : string) : re :=
  fold_right (fun c r => Cat (Chr (CLit c)) r) Eps (u s).
Definition digit : re := Chr CDigit.
Definition spaces : re := Rep 0 None (Chr CSpace).          (* \s* *)
Definition opt (r : re) : re := Rep 0 (Some 1%nat) r.       (* r? *)
Definition star (r : re) : re := Rep 0 None r.               (* r* *)
Definition plus (r : re) : re := Rep 1 None r.               (* r+ *)
Fixpoint seq (rs : list re) : re :=
  match rs with
  | [] => Eps
  | [r] => r
  | r :: rs' => Cat r (seq rs')
  end.
Fixpoint alts (rs : list re) : re :=
  match rs with
  | [] => Eps
  | [r] => r
  | r :: rs' => Alt r (alts rs')
  end.

(** ** The four patterns of [parse_constraints] *)

Definition between_from : re := alts [lit "between"; lit "from"].
Definition range_sep : re := alts [lit "-"; lit "to"; lit "and"].

(** (?:(?:between|from)\s*(?P<w_low>\d{2,4})\s*(?:-|to|and)\s*(?P<w_high>\d{2,4})|(?P<w_target>\d{2,4}))\s*(?:words?|word)
    with w_low, w_high, w_target the groups 1, 2, 3 *)
Definition w_pattern : re :=
  seq [alts [seq [between_from; spaces; Grp 1 (Rep 2 (Some 4%nat) digit);
                  spaces; range_sep; spaces; Grp 2 (Rep 2 (Some 4%nat) digit)];
             Grp 3 (Rep 2 (Some 4%nat) digit)];
       spaces;
       alts [seq [lit "word"; opt (lit "s")]; lit "word"]].

(** \d{1,3}(?:,\d{3})*(?:\.\d+)?\s*(?:million|billion) *)
Definition magnitude : re :=
  seq [Rep 1 (Some 3%nat) digit;
       star (seq [lit ","; Rep 3 (Some 3%nat) digit]);
       opt (seq [lit "."; plus digit]);
       spaces;
       alts [lit "million"; lit "billion"]].

Definition max_cue : re :=
  alts [lit "under"; lit "below"; lit "maximum of"; lit "up to";
        lit "not exceeding"; Chr (CLit 0x2264); lit "less than"].
Definition min_cue : re :=
  alts [lit "at least"; lit "minimum of"; lit "no less than"; lit "exceeding";
        lit "more than"; lit "over"; Chr (CLit 0x2265)].

(** (?:(?:under|...|less than)\s*\$?\s*(M)|(?:at least|...)\s*\$?\s*(M)|\$?\s*(M)\s*(?:budget|cost|spend|capex|investment)?)
    with M the magnitude *)
Definition pattern_budget : re :=
  alts [seq [max_cue; spaces; opt (lit "$"); spaces; Grp 1 magnitude];
        seq [min_cue; spaces; opt (lit "$"); spaces; Grp 2 magnitude];
        seq [opt (lit "$"); spaces; Grp 3 magnitude; spaces;
             opt (alts [lit "budget"; lit "cost"; lit "spend"; lit "capex";
                        lit "investment"])]].

(** \d{1,3}(?:\.\d+)? *)
Definition pct_number : re :=
  seq [Rep 1 (Some 3%nat) digit; opt (seq [lit "."; plus digit])].

(** (?:(?:between|from)\s*(N)\s*(?:%|percent)?\s*(?:-|to|and)\s*(N)\s*(?:%|percent)?|(N)\s*(?:percent|%))
    with N the number *)
Definition pattern_percent : re :=
  alts [seq [between_from; spaces; Grp 1 pct_number; spaces;
             opt (alts [lit "%"; lit "percent"]); spaces; range_sep; spaces;
             Grp 2 pct_number; spaces; opt (alts [lit "%"; lit "percent"])];
        seq [Grp 3 pct_number; spaces; alts [lit "percent"; lit "%"]]].

(** days?|weeks?|months?|years? *)
Definition time_unit : re :=
  alts [seq [lit "day"; opt (lit "s")]; seq [lit "week"; opt (lit "s")];
        seq [lit "month"; opt (lit "s")]; seq [lit "year"; opt (lit "s")]].

(** (?:(?:between|from)\s*(\d{1,4})\s*(U)\s*(?:-|to|and)\s*(\d{1,4})\s*(U)|(\d{1,4})\s*(U))
    with U the unit *)
Definition pattern_time : re :=
  alts [seq [between_from; spaces; Grp 1 (Rep 1 (Some 4%nat) digit); spaces;
             Grp 2 time_unit; spaces; range_sep; spaces;
             Grp 3 (Rep 1 (Some 4%nat) digit); spaces; Grp 4 time_unit];
        seq [Grp 5 (Rep 1 (Some 4%nat) digit); spaces; Grp 6 time_unit]].

(** \s*million and \s*billion, the patterns of [parse_amount] *)
Definition sp_million : re := seq [spaces; lit "million"].
Definition sp_billion : re := seq [spaces; lit "billion"].

(** ** Binary64 floating point

    Python's [float] is IEEE 754 binary64; every operation returns the
    exact result rounded to the nearest representable value, ties to even.
    A finite float is [(-1)^neg * m * 2^e] with [m < 2^53] and
    [-1074 <= e <= 971], and [2^52 <= m] unless [e = -1074]. *)

Local Open Scope Z_scope.

Inductive float : Type :=
| FNan
| FInf (neg : bool)
| FFin (neg : bool) (m : Z) (e : Z).

(** [x * 2^k] for [k >= 0], [x] otherwise *)
Definition shl (x k : Z) : Z := x * 2 ^ Z.max 0 k.

(** The integer nearest to [n / d], ties to the even one ([0 <= n], [0 < d]). *)
Definition round_half_even (n d : Z) : Z :=
  let q := n / d in
  let r := n mod d in
  if 2 * r <? d then q
  else if d <? 2 * r then q + 1
  else if Z.even q then q else q + 1.

(** [floor (log2 (n / d))] for [0 < n], [0 < d] *)
Definition ilog2 (n d : Z) : Z :=
  let k := Z.log2 n - Z.log2 d in
  if shl n (- k) <? shl d k then k - 1 else k.

(** The float nearest to [(-1)^neg * n / d] ([0 <= n], [0 < d]). *)
Definition rnd (neg : bool) (n d : Z) : float :=
  if n =? 0 then FFin neg 0 (-1074)
  else
    let e := Z.max (ilog2 n d - 52) (-1074) in
    let m := round_half_even (shl n (- e)) (shl d e) in
    let '(m, e) := if m =? 2 ^ 53 then (2 ^ 52, e + 1) else (m, e) in
    if 971 <? e then FInf neg else FFin neg m e.

(** Below, the exact value [m * 2^e] of a finite float is handed to [rnd]
    as the fraction [shl m e / shl 1 (- e)]. *)
Definition fneg (x : float) : float :=
  match x with
  | FNan => FNan
  | FInf s => FInf (negb s)
  | FFin s m e => FFin (negb s) m e
  end.

Definition fmul (x y : float) : float :=
  match x, y with
  | FNan, _ | _, FNan => FNan
  | FInf s, FInf t => FInf (xorb s t)
  | FInf s, FFin t m _ | FFin t m _, FInf s =>
      if m =? 0 then FNan else FInf (xorb s t)
  | FFin s m1 e1, FFin t m2 e2 =>
      rnd (xorb s t) (shl (m1 * m2) (e1 + e2)) (shl 1 (- (e1 + e2)))
  end.

Definition fdiv (x y : float) : float :=
  match x, y with
  | FNan, _ | _, FNan => FNan
  | FInf _, FInf _ => FNan
  | FInf s, FFin t _ _ => FInf (xorb s t)
  | FFin s _ _, FInf t => FFin (xorb s t) 0 (-1074)
  | FFin s m1 e1, FFin t m2 e2 =>
      if m2 =? 0 then (if m1 =? 0 then FNan else FInf (xorb s t))
      else rnd (xorb s t) (shl m1 (e1 - e2)) (shl m2 (e2 - e1))
  end.

Definition signed (neg : bool) (m : Z) : Z := if neg then - m else m.

Definition fadd (x y : float) : float :=
  match x, y with
  | FNan, _ | _, FNan => FNan
  | FInf s, FInf t => if eqb s t then FInf s else FNan
  | FInf s, FFin _ _ _ | FFin _ _ _, FInf s => FInf s
  | FFin s m1 e1, FFin t m2 e2 =>
      let e := Z.min e1 e2 in
      let v := signed s (shl m1 (e1 - e)) + signed t (shl m2 (e2 - e)) in
      if v =? 0 then FFin (s && t) 0 (-1074)
      else rnd (v <? 0) (shl (Z.abs v) e) (shl 1 (- e))
  end.

Definition fsub (x y : float) : float := fadd x (fneg y).

(** [x < y] *)
Definition flt (x y : float) : bool :=
  match x, y with
  | FNan, _ | _, FNan => false
  | FInf s, FInf t => s && negb t
  | FInf s, FFin _ _ _ => s
  | FFin _ _ _, FInf t => negb t
  | FFin s m1 e1, FFin t m2 e2 =>
      let e := Z.min e1 e2 in
      signed s (shl m1 (e1 - e)) <? signed t (shl m2 (e2 - e))
  end.

(** [x <= y] *)
Definition fle (x y : float) : bool :=
  match x, y with
  | FNan, _ | _, FNan => false
  | FInf s, FInf t => s || negb t
  | FInf s, FFin _ _ _ => s
  | FFin _ _ _, FInf t => negb t
  | FFin s m1 e1, FFin t m2 e2 =>
      let e := Z.min e1 e2 in
      signed s (shl m1 (e1 - e)) <=? signed t (shl m2 (e2 - e))
  end.

(** The nearest float to an integer (the conversion of a small [int]). *)
Definition float_of_Z (z : Z) : float := rnd (z <? 0) (Z.abs z) 1.

(** The float literals of the source *)
Definition f0_1 : float := rnd false 1 10.      (* 0.1 *)
Definition f1_0 : float := float_of_Z 1.        (* 1.0 *)
Definition f2_0 : float := float_of_Z 2.        (* 2.0 *)
Definition f1e6 : float := float_of_Z (10 ^ 6). (* 1e6 *)
Definition f1e9 : float := float_of_Z (10 ^ 9). (* 1e9 *)

(** ** Conversions of the Python runtime *)

Inductive exn : Type :=
| ValueError | TypeError | OverflowError | AttributeError.

Inductive result (A : Type) : Type :=
| Ok (a : A)
| Raise (e : exn).
Arguments Ok {A} a.
Arguments Raise {A} e.

#[global] Instance result_ret : MRet result := fun A a => Ok a.
#[global] Instance result_bind : MBind result := fun A B f m =>
  match m with Ok a => f a | Raise e => Raise e end.

Definition or_raise {A : Type} (e : exn) (o : option A) : result A :=
  match o with Some a => Ok a | None => Raise e end.

Definition is_ascii_digit (c : Z) : bool := (0x30 <=? c) && (c <=? 0x39).

(** [_PyUnicode_TransformDecimalAndSpaceToASCII], the first step of [int()]
    and [float()] on a [str]: ASCII stays, other white space becomes a
    blank, other decimal digits become ASCII digits, anything else becomes
    a question mark (which no number contains). *)
Definition to_ascii (c : N) : Z :=
  if (c <? 128)%N then Z.of_N c
  else if is_space c then 0x20
  else match to_decimal c with
       | Some d => 0x30 + Z.of_N d
       | None => 0x3f
       end.

Definition is_py_space (c : Z) : bool :=
  ((0x9 <=? c) && (c <=? 0xd)) || (c =? 0x20).

Fixpoint lstrip_ascii (s : list Z) : list Z :=
  match s with
  | c :: s' => if is_py_space c then lstrip_ascii s' else s
  | [] => []
  end.
Definition strip_ascii (s : list Z) : list Z :=
  rev (lstrip_ascii (rev (lstrip_ascii s))).

(** The longest prefix of ASCII digits, as digit values, and the rest. *)
Fixpoint take_digits (s : list Z) : list Z * list Z :=
  match s with
  | c :: s' =>
      if is_ascii_digit c
      then let '(ds, r) := take_digits s' in (c - 0x30 :: ds, r)
      else ([], s)
  | [] => ([], [])
  end.

Definition digits_val (ds : list Z) : Z :=
  fold_left (fun a d => 10 * a + d) ds 0.

(** [_Py_string_to_number_with_underscores]: an underscore may stand only
    between two digits and is dropped; [prev] is the character before. *)
Fixpoint drop_underscores (prev : Z) (s : list Z) : option (list Z) :=
  match s with
  | [] => if prev =? 0x5f then None else Some []
  | c :: s' =>
      if c =? 0x5f then
        if is_ascii_digit prev then drop_underscores c s' else None
      else if (prev =? 0x5f) && negb (is_ascii_digit c) then None
      else option_map (cons c) (drop_underscores c s')
  end.

Definition take_sign (s : list Z) : bool * list Z :=
  match s with
  | 0x2d :: t => (true, t)
  | 0x2b :: t => (false, t)
  | _ => (false, s)
  end.

Definition ascii_lower (c : Z) : Z :=
  if (0x41 <=? c) && (c <=? 0x5a) then c + 32 else c.

Definition zs (s : string) : list Z := map Z.of_N (u s).

Fixpoint list_Z_eqb (a b : list Z) : bool :=
  match a, b with
  | [], [] => true
  | x :: a', y :: b' => (x =? y) && list_Z_eqb a' b'
  | _, _ => false
  end.

(** The exponent part: empty, or e/E, an optional sign and digits. *)
Definition parse_exponent (s : list Z) : option Z :=
  match s with
  | [] => Some 0
  | c :: t =>
      if ascii_lower c =? 0x65 then
        let '(neg, t1) := take_sign t in
        match take_digits t1 with
        | ((_ :: _) as ds, []) => Some (signed neg (digits_val ds))
        | _ => None
        end
      else None
  end.

(** [PyOS_string_to_double] on the whole of a stripped ASCII string: a
    signed decimal literal (digits, an optional point and fraction, an
    optional exponent, at least one digit before the exponent), or
    inf, infinity or nan in any case.  The value is the nearest float. *)
Definition parse_float_ascii (s : list Z) : option float :=
  let '(neg, s1) := take_sign s in
  let low := map ascii_lower s1 in
  if list_Z_eqb low (zs "inf") || list_Z_eqb low (zs "infinity")
  then Some (FInf neg)
  else if list_Z_eqb low (zs "nan") then Some FNan
  else
    let '(ip, s2) := take_digits s1 in
    let '(fp, s3) := match s2 with
                     | 0x2e :: t => take_digits t
                     | _ => ([], s2)
                     end in
    match ip ++ fp with
    | [] => None
    | ds =>
        match parse_exponent s3 with
        | None => None
        | Some x =>
            let x := x - Z.of_nat (length fp) in
            Some (if 0 <=? x then rnd neg (digits_val ds * 10 ^ x) 1
                  else rnd neg (digits_val ds) (10 ^ (- x)))
        end
    end.

(** [float(s)] for a [str]; [None] stands for the ValueError. *)
Definition py_float (s : str) : option float :=
  match drop_underscores 0 (map to_ascii s) with
  | None => None
  | Some a =>
      match strip_ascii a with
      | [] => None
      | b => parse_float_ascii b
      end
  end.

(** Digits with single underscores between them ([PyLong_FromString] in
    base 10): the digit values and the rest. *)
Fixpoint take_int_digits (prev : Z) (s : list Z) : option (list Z * list Z) :=
  match s with
  | c :: s' =>
      if is_ascii_digit c then
        match take_int_digits c s' with
        | Some (ds, r) => Some (c - 0x30 :: ds, r)
        | None => None
        end
      else if c =? 0x5f then
        if is_ascii_digit prev then take_int_digits c s' else None
      else if prev =? 0x5f then None else Some ([], s)
  | [] => if prev =? 0x5f then None else Some ([], [])
  end.

(** [int(s)] for a [str] (base 10); [None] stands for the ValueError.  More
    than 4300 digits are refused (the default [sys.int_max_str_digits]). *)
Definition py_int (s : str) : option Z :=
  let '(neg, s1) := take_sign (lstrip_ascii (map to_ascii s)) in
  match take_int_digits 0 s1 with
  | Some ((_ :: _) as ds, r) =>
      match lstrip_ascii r with
      | [] => if (4300 <? length ds)%nat then None
              else Some (signed neg (digits_val ds))
      | _ => None
      end
  | _ => None
  end.

(** The conversion of an [int] to [float] raises when it overflows. *)
Definition float_of_int (z : Z) : result float :=
  match float_of_Z z with
  | FInf _ => Raise OverflowError
  | f => Ok f
  end.

(** [round(x)] of a float: the nearest integer, ties to even. *)
Definition py_round (x : float) : result Z :=
  match x with
  | FNan => Raise ValueError
  | FInf _ => Raise OverflowError
  | FFin s m e => Ok (signed s (round_half_even (shl m e) (shl 1 (- e))))
  end.

(** [round(x, 2)]: the decimal with two places nearest to the exact value
    of [x], ties to even, read back as a float. *)
Definition py_round2 (x : float) : float :=
  match x with
  | FFin s m e => rnd s (round_half_even (shl (100 * m) e) (shl 1 (- e))) 100
  | _ => x
  end.

(** [max(a, b)] on floats: [b] when [a < b], otherwise [a]. *)
Definition fmax (a b : float) : float := if flt a b then b else a.

(** ** The program *)

(** Python objects as [parse_amount] may receive them *)
Inductive pyobj : Type :=
| PInt (z : Z)
| PBool (b : bool)
| PFloat (f : float)
| PStr (s : str)
| POther.          (* any object that is neither a number nor a str *)

(** Values stored in a constraint record *)
Inductive value : Type :=
| VNone
| VStr (s : str)
| VInt (z : Z)
| VFloat (f : float).

Module prompt_parser.

(** The text part of [parse_amount]: the multiplier, and the text that is
    handed to [float()]. *)
Definition amount_parts (s : str) : float * str :=
  let value1 := remove_char 0x24 (py_lower (py_strip s)) in
  let '(multiplier, value2) :=
    if contains (u "million") value1
    then (f1e6, sub_empty sp_million 0 value1)
    else if contains (u "billion") value1
    then (f1e9, sub_empty sp_billion 0 value1)
    else (f1_0, value1) in
  (multiplier, py_strip (remove_char 0x2c value2)).

(** [parse_amount(value)]: numbers are converted, objects that are not text
    give [None], text is normalised and read by [float()], whose failure is
    not caught. *)
Definition parse_amount (value0 : pyobj) : result value :=
  match value0 with
  | PInt z => f ← float_of_int z; mret (VFloat f)
  | PBool b => mret (VFloat (float_of_Z (if b then 1 else 0)))
  | PFloat f => mret (VFloat f)
  | POther => mret VNone
  | PStr s =>
      let '(multiplier, text) := amount_parts s in
      f ← or_raise ValueError (py_float text);
      mret (VFloat (fmul f multiplier))
  end.

(** Truth of [m.group(i)]: a group that matched a non-empty text. *)
Definition truthy (g : option (list N)) : bool :=
  match g with Some (_ :: _) => true | _ => false end.

(** [int(g.replace(",", ""))] for a group [g] *)
Definition int_of_group_nocomma (g : option (list N)) : result Z :=
  match g with
  | None => Raise AttributeError
  | Some s => or_raise ValueError (py_int (remove_char 0x2c s))
  end.

(** [int(g)] and [float(g)] for a group [g] *)
Definition int_of_group (g : option (list N)) : result Z :=
  match g with
  | None => Raise TypeError
  | Some s => or_raise ValueError (py_int s)
  end.
Definition float_of_group (g : option (list N)) : result float :=
  match g with
  | None => Raise TypeError
  | Some s => or_raise ValueError (py_float s)
  end.

Definition value_of_group (g : option (list N)) : value :=
  match g with Some s => VStr s | None => VNone end.

(** [a or b] on groups *)
Definition group_or (a b : option (list N)) : option (list N) :=
  if truthy a then a else b.

Definition word_count (prompt : str) : result (option (gmap string value)) :=
  match search w_pattern prompt with
  | None => mret None
  | Some m =>
      if truthy (m !! 1%nat) && truthy (m !! 2%nat) then
        lower ← int_of_group_nocomma (m !! 1%nat);
        upper ← int_of_group_nocomma (m !! 2%nat);
        mret (Some (<["type" := VStr (u "range")]>
                   (<["lower_bound" := VInt lower]>
                   (<["upper_bound" := VInt upper]>
                   (<["target" := VInt ((lower + upper) / 2)]>
                   (<["tolerance" := VInt ((upper - lower) / 2)]> ∅))))))
      else
        value0 ← int_of_group_nocomma (m !! 3%nat);
        fv ← float_of_int value0;
        r ← py_round (fmul f0_1 fv);
        let tolerance := Z.max 10 r in
        mret (Some (<["type" := VStr (u "fixed")]>
                   (<["lower_bound" := VInt (value0 - tolerance)]>
                   (<["upper_bound" := VInt (value0 + tolerance)]>
                   (<["target" := VInt value0]>
                   (<["tolerance" := VInt tolerance]> ∅))))))
  end.

Definition budget (prompt : str) : result (option (gmap string value)) :=
  match search pattern_budget prompt with
  | None => mret None
  | Some m =>
      let raw_value :=
        group_or (group_or (m !! 1%nat) (m !! 2%nat)) (m !! 3%nat) in
      amount ← parse_amount
                 (match raw_value with Some s => PStr s | None => POther end);
      let constraint_type :=
        if truthy (m !! 1%nat) then "max"
        else if truthy (m !! 2%nat) then "min" else "fixed" in
      mret (Some (<["type" := VStr (u constraint_type)]>
                 (<["target" := amount]>
                 (<["upper_bound" :=
                      if String.eqb constraint_type "max" then amount else VNone]>
                 (<["lower_bound" :=
                      if String.eqb constraint_type "min" then amount else VNone]>
                 (<["raw_value" := value_of_group raw_value]> ∅))))))
  end.

Definition percentage (prompt : str) : result (option (gmap string value)) :=
  match search pattern_percent prompt with
  | None => mret None
  | Some m =>
      if truthy (m !! 1%nat) && truthy (m !! 2%nat) then
        lower ← float_of_group (m !! 1%nat);
        upper ← float_of_group (m !! 2%nat);
        mret (Some (<["type" := VStr (u "range")]>
                   (<["lower_bound" := VFloat lower]>
                   (<["upper_bound" := VFloat upper]>
                   (<["target" := VFloat (fdiv (fadd lower upper) f2_0)]>
                   (<["tolerance" := VFloat (fdiv (fsub upper lower) f2_0)]>
                      ∅))))))
      else
        raw_value ← float_of_group (m !! 3%nat);
        let tolerance := fmax f1_0 (py_round2 (fmul f0_1 raw_value)) in
        mret (Some (<["type" := VStr (u "fixed")]>
                   (<["target" := VFloat raw_value]>
                   (<["lower_bound" := VFloat (fsub raw_value tolerance)]>
                   (<["upper_bound" := VFloat (fadd raw_value tolerance)]>
                   (<["tolerance" := VFloat tolerance]> ∅))))))
  end.

Definition timeframe (prompt : str) : result (option (gmap string value)) :=
  match search pattern_time prompt with
  | None => mret None
  | Some m =>
      if truthy (m !! 1%nat) && truthy (m !! 3%nat) then
        lower ← int_of_group (m !! 1%nat);
        upper ← int_of_group (m !! 3%nat);
        let unit := value_of_group (m !! 2%nat) in
        mret (Some (<["type" := VStr (u "range")]>
                   (<["unit" := unit]>
                   (<["lower_bound" := VInt lower]>
                   (<["upper_bound" := VInt upper]>
                   (<["target" := VInt ((lower + upper) / 2)]> ∅))))))
      else
        value0 ← (if truthy (m !! 5%nat) then int_of_group (m !! 5%nat)
                  else mret 0);
        let unit := value_of_group (m !! 6%nat) in
        mret (Some (<["type" := VStr (u "fixed")]>
                   (<["unit" := unit]>
                   (<["target" := VInt value0]> ∅))))
  end.

(** [constraints[key] = rec] when the pattern was found *)
Definition store (key : string) (rec : option (gmap string value))
    (constraints : gmap string (gmap string value))
  : gmap string (gmap string value) :=
  match rec with
  | Some r => <[key := r]> constraints
  | None => constraints
  end.

(** [parse_constraints(prompt)]: the four searches in the order of the
    source; a fault of one of them leaves the function at once. *)
Definition parse_constraints (prompt : str)
  : result (gmap string (gmap string value)) :=
  let constraints := ∅ in
  w ← word_count prompt;
  let constraints := store "word_count" w constraints in
  b ← budget prompt;
  let constraints := store "budget" b constraints in
  p ← percentage prompt;
  let constraints := store "percentage" p constraints in
  t ← timeframe prompt;
  let constraints := store "timeframe" t constraints in
  mret constraints.

End prompt_parser.

(** ** What a pattern can match

    [lang r w]: the text [w] is matched by [r] as a whole.  The matcher
    above only ever finds such texts (soundness, proved below); which of
    them it finds is decided by its backtracking order. *)
Fixpoint lang (r : re) (w : list N) : Prop :=
  match r with
  | Eps => w = []
  | Chr c => exists x, w = [x] /\ cls_ok c x = true
  | Cat r1 r2 => exists w1 w2, w = w1 ++ w2 /\ lang r1 w1 /\ lang r2 w2
  | Alt r1 r2 => lang r1 w \/ lang r2 w
  | Rep lo hi r1 =>
      exists ws, w = concat ws /\ Forall (lang r1) ws /\
                 (lo <= length ws)%nat /\
                 match hi with Some h => (length ws <= h)%nat | None => True end
  | Grp _ r1 => lang r1 w
  end.

(** [groups_ok P r]: whatever a capturing group of [r] can match satisfies
    the property [P] attached to its number. *)
Fixpoint groups_ok (P : nat -> list N -> Prop) (r : re) : Prop :=
  match r with
  | Eps | Chr _ => True
  | Cat r1 r2 | Alt r1 r2 => groups_ok P r1 /\ groups_ok P r2
  | Rep _ _ r1 => groups_ok P r1
  | Grp i r1 => (forall w, lang r1 w -> P i w) /\ groups_ok P r1
  end.

(** [needs_digit r]: every way through [r] passes a [\d]. *)
Fixpoint needs_digit (r : re) : bool :=
  match r with
  | Eps => false
  | Chr CDigit => true
  | Chr _ => false
  | Cat r1 r2 => needs_digit r1 || needs_digit r2
  | Alt r1 r2 => needs_digit r1 && needs_digit r2
  | Rep lo _ r1 => negb (Nat.eqb lo 0) && needs_digit r1
  | Grp _ r1 => needs_digit r1
  end.

(** Every decimal digit, listed. *)
Definition all_decimals : list N :=
  flat_map (fun z => map (N.add z) [0; 1; 2; 3; 4; 5; 6; 7; 8; 9]%N)
    decimal_zeros.

(** The value of a text of decimal digits, read in base 10. *)
Definition decimal_value (w : list N) : Z :=
  digits_val (map (fun c => to_ascii c - 0x30) w).

Definition all_decimal (w : list N) : Prop :=
  Forall (fun c => is_decimal c = true) w.

(** ** The claims as the specification states them

    Each of these is the reading of a sentence of the specification that the
    program does not fulfil; it is refuted below at a concrete prompt, next
    to the statement that does hold. *)

(** Timeframe range records: midpoint target, and no bound or tolerance
    field. *)
Definition timeframe_range_as_stated (prompt : list N) : Prop :=
  forall m,
    search pattern_time prompt = Some m ->
    prompt_parser.truthy (m !! 1%nat) = true ->
    prompt_parser.truthy (m !! 3%nat) = true ->
    exists r low high,
      prompt_parser.timeframe prompt = Ok (Some r) /\
      prompt_parser.int_of_group (m !! 1%nat) = Ok low /\
      prompt_parser.int_of_group (m !! 3%nat) = Ok high /\
      r !! "target" = Some (VInt ((low + high) / 2)) /\
      r !! "lower_bound" = None /\ r !! "upper_bound" = None /\
      r !! "tolerance" = None.

(** What the groups of the timeframe pattern hold: the numbers are one to
    four decimal digits. *)
Definition time_groups (i : nat) (w : list N) : Prop :=
  match i with
  | 1 | 3 | 5 => all_decimal w /\ (1 <= length w <= 4)%nat
  | _ => True
  end%nat.


(** The record of a timeframe given as a range *)
Definition timeframe_range_record (unit : value) (low high : Z)
  : gmap string value :=
  <["type" := VStr (u "range")]>
    (<["unit" := unit]>
    (<["lower_bound" := VInt low]>
    (<["upper_bound" := VInt high]>
    (<["target" := VInt ((low + high) / 2)]> ∅)))).

(** The float 3.0e10 *)
Definition f3e10 : float := float_of_Z (3 * 10 ^ 10).

(** Scenario 1 of the specification: "Write exactly 150 words." *)
Definition scenario1_as_stated : Prop :=
  exists cs r,
    prompt_parser.parse_constraints (u "Write exactly 150 words.") = Ok cs /\
    cs !! "word_count" = Some r /\
    r !! "type" = Some (VStr (u "fixed")) /\
    r !! "target" = Some (VInt 150) /\
    r !! "lower_bound" = Some (VInt 140) /\
    r !! "upper_bound" = Some (VInt 160) /\
    r !! "tolerance" = Some (VInt 10).

(** Scenario 2 of the specification:
    "Capex must not exceed $30 billion over 5 years." *)
Definition scenario2_as_stated : Prop :=
  exists cs b t,
    prompt_parser.parse_constraints
      (u "Capex must not exceed $30 billion over 5 years.") = Ok cs /\
    cs !! "budget" = Some b /\
    b !! "type" = Some (VStr (u "max")) /\
    b !! "target" = Some (VFloat f3e10) /\
    b !! "upper_bound" = Some (VFloat f3e10) /\
    b !! "lower_bound" = Some VNone /\
    b !! "raw_value" = Some (VStr (u "30 billion")) /\
    cs !! "timeframe" = Some t /\
    t !! "type" = Some (VStr (u "fixed")) /\
    t !! "unit" = Some (VStr (u "years")) /\
    t !! "target" = Some (VInt 5).

(** A prompt whose magnitude word is written with the capital dotted I of a
    Turkish keyboard (U+0130): "Capex is $30 MİLLİON." *)
Definition prompt_dotted_I : list N :=
  u "Capex is $30 M" ++ [0x130%N] ++ u "LL" ++ [0x130%N] ++ u "ON.".

(** The range shape of the percentage pattern matched in [prompt] *)
Definition pct_range_shape (prompt : list N) : Prop :=
  exists m,
    search pattern_percent prompt = Some m /\
    prompt_parser.truthy (m !! 1%nat) = true /\
    prompt_parser.truthy (m !! 2%nat) = true.

(** Percentage ranges as stated: the range shape matches only where a
    percent marker is written. *)
Definition pct_range_needs_marker (prompt : list N) : Prop :=
  pct_range_shape prompt ->
  exists pre w post,
    prompt = pre ++ w ++ post /\ lang (alts [lit "%"; lit "percent"]) w.

(** ** What a match captures

    [mlang r w g g']: the text [w] is matched by [r] as a whole, and
    matching it turns the groups [g] into [g'].  It refines [lang] by the
    groups; the matcher only finds such matches (proved below). *)
Fixpoint rep_rel (R : list N -> gmap nat (list N) -> gmap nat (list N) -> Prop)
    (n : nat) (w : list N) (g g' : gmap nat (list N)) : Prop :=
  match n with
  | O => w = [] /\ g' = g
  | S n' => exists w1 w2 g1, w = w1 ++ w2 /\ R w1 g g1 /\ rep_rel R n' w2 g1 g'
  end.

Fixpoint mlang (r : re) (w : list N) (g g' : gmap nat (list N)) : Prop :=
  match r with
  | Eps => w = [] /\ g' = g
  | Chr c => (exists x, w = [x] /\ cls_ok c x = true) /\ g' = g
  | Cat r1 r2 =>
      exists w1 w2 g1, w = w1 ++ w2 /\ mlang r1 w1 g g1 /\ mlang r2 w2 g1 g'
  | Alt r1 r2 => mlang r1 w g g' \/ mlang r2 w g g'
  | Rep lo hi r1 =>
      exists n, (lo <= n)%nat /\
                match hi with Some h => (n <= h)%nat | None => True end /\
                rep_rel (mlang r1) n w g g'
  | Grp i r1 => exists g1, mlang r1 w g g1 /\ g' = <[i := w]> g1
  end.

(** [no_groups r]: [r] has no capturing group. *)
Fixpoint no_groups (r : re) : bool :=
  match r with
  | Eps | Chr _ => true
  | Cat r1 r2 | Alt r1 r2 => no_groups r1 && no_groups r2
  | Rep _ _ r1 => no_groups r1
  | Grp _ _ => false
  end.

(** ** Records, as the blocks of [parse_constraints] build them *)

Definition word_range_record (low high : Z) : gmap string value :=
  <["type" := VStr (u "range")]>
    (<["lower_bound" := VInt low]>
    (<["upper_bound" := VInt high]>
    (<["target" := VInt ((low + high) / 2)]>
    (<["tolerance" := VInt ((high - low) / 2)]> ∅)))).

Definition word_fixed_record (v tolerance : Z) : gmap string value :=
  <["type" := VStr (u "fixed")]>
    (<["lower_bound" := VInt (v - tolerance)]>
    (<["upper_bound" := VInt (v + tolerance)]>
    (<["target" := VInt v]>
    (<["tolerance" := VInt tolerance]> ∅)))).

Definition timeframe_fixed_record (unit : value) (v : Z) : gmap string value :=
  <["type" := VStr (u "fixed")]>
    (<["unit" := unit]>
    (<["target" := VInt v]> ∅)).

(** A number of [lo] to [hi] decimal digits *)
Definition digits_between (lo hi : nat) (w : list N) : Prop :=
  all_decimal w /\ (lo <= length w <= hi)%nat.

(** The check behind [tenth_exact]: on [v], the float computation
    [round(0.1 * v)] gives [v / 10] rounded half to even. *)
Definition tenth_ok (v : Z) : bool :=
  match float_of_int v with
  | Ok f =>
      match py_round (fmul f0_1 f) with
      | Ok r => r =? round_half_even v 10
      | Raise _ => false
      end
  | Raise _ => false
  end.

Definition pct_range_record (low high : float) : gmap string value :=
  <["type" := VStr (u "range")]>
    (<["lower_bound" := VFloat low]>
    (<["upper_bound" := VFloat high]>
    (<["target" := VFloat (fdiv (fadd low high) f2_0)]>
    (<["tolerance" := VFloat (fdiv (fsub high low) f2_0)]> ∅)))).

Definition pct_fixed_record (v : float) : gmap string value :=
  let tolerance := fmax f1_0 (py_round2 (fmul f0_1 v)) in
  <["type" := VStr (u "fixed")]>
    (<["target" := VFloat v]>
    (<["lower_bound" := VFloat (fsub v tolerance)]>
    (<["upper_bound" := VFloat (fadd v tolerance)]>
    (<["tolerance" := VFloat tolerance]> ∅)))).

(** The budget record for the alternative [i] of the pattern (1: an upper
    cue, 2: a lower cue, 3: no cue), the amount and the matched text. *)
Definition budget_record (i : nat) (amount : value) (raw : list N)
  : gmap string value :=
  <["type" := VStr (u (match i with 1 => "max" | 2 => "min" | _ => "fixed" end%nat))]>
    (<["target" := amount]>
    (<["upper_bound" := match i with 1%nat => amount | _ => VNone end]>
    (<["lower_bound" := match i with 2%nat => amount | _ => VNone end]>
    (<["raw_value" := VStr raw]> ∅)))).

(** A text without the two code points outside ASCII that the letter i of
    a pattern matches under re.IGNORECASE: U+0130 and U+0131. *)
Definition no_dotted_i (s : list N) : Prop :=
  Forall (fun c => c <> 0x130%N /\ c <> 0x131%N) s.

(** [x] occurs in [w] as a contiguous part. *)
Definition part_of (x w : list N) : Prop := exists a b, w = a ++ x ++ b.

(** The characters of a number: decimal digits, the comma and the point. *)
Definition number_char (c : N) : bool :=
  is_decimal c || (c =? 0x2c)%N || (c =? 0x2e)%N.

(** What [parse_amount] needs of a character that is part of the number or
    of the white space before the magnitude word: [str.lower] keeps it, it
    is not the currency sign, and it is not the letter m or b in any
    case. *)
Definition inert_char (c : N) : bool :=
  negb (is_ascii_upper c) && negb (c =? 0x130)%N && negb (c =? 0x212a)%N &&
  negb (c =? 0x24)%N && negb (lit_ic 0x6d c) && negb (lit_ic 0x62 c).

(** The fraction of a number: nothing, or a point and digits. *)
Definition fraction_text (fr : list N) : Prop :=
  fr = [] \/ exists fp, all_decimal fp /\ fp <> [] /\ fr = 0x2e%N :: fp.

(** The text of a magnitude: an optional currency sign, digits, groups of
    digits each after a comma, a fraction, white space and the magnitude
    word. *)
Definition magnitude_text (dollar : bool) (d1 : list N) (gs : list (list N))
    (fr ws wd : list N) : list N :=
  (if dollar then [0x24%N] else []) ++
  d1 ++ concat (map (cons 0x2c%N) gs) ++ fr ++ ws ++ wd.

(** ** Binary64 values over the reals *)

(** The real value of the mantissa [m] at the exponent [e] *)
Definition F2R (m e : Z) : R := (IZR m * powerRZ 2 e)%R.

(** The real value of a finite float (0 for the others) *)
Definition fval (x : float) : R :=
  match x with
  | FFin s m e => F2R (signed s m) e
  | _ => 0%R
  end.

(** A finite float on the binary64 grid *)
Definition representable (x : float) : Prop :=
  match x with
  | FFin _ m e => 0 <= m < 2 ^ 53 /\ -1074 <= e
  | _ => False
  end.

(** The fraction [(-1)^s * n / d] *)
Definition fraction (s : bool) (n d : Z) : R := (IZR (signed s n) / IZR d)%R.

(** [2 * x], on the grid *)
Definition twice (x : float) : float :=
  match x with
  | FFin s m e => FFin s m (e + 1)
  | _ => x
  end.


(** An infinity, or a finite float in normal form: the mantissa below
    [2^53], and at least [2^52] unless the exponent is the least one *)
Definition normal (x : float) : Prop :=
  match x with
  | FNan => False
  | FInf _ => True
  | FFin _ m e =>
      0 <= m < 2 ^ 53 /\ -1074 <= e <= 971 /\ (2 ^ 52 <= m \/ e = -1074)
  end.

(** The text of a plain amount: an optional currency sign, digits, groups
    of digits each after a comma, and a fraction, with white space around
    it. *)
Definition amount_text (ws1 : list N) (dollar : bool) (d1 : list N)
    (gs : list (list N)) (fr ws2 : list N) : list N :=
  ws1 ++ (if dollar then [0x24%N] else []) ++
  d1 ++ concat (map (cons 0x2c%N) gs) ++ fr ++ ws2.


(** A character [float()] cannot read: it is turned into a question
    mark. *)
Definition refused (c : N) : Prop := to_ascii c = 0x3f.

(** What makes a lowered magnitude word stay in the text that [float()]
    is given: it is neither million nor billion, holds no currency sign,
    and holds a character that [float()] cannot read. *)
Definition unreadable (w : list N) : bool :=
  negb (contains (u "million") w) && negb (contains (u "billion") w) &&
  forallb (fun c => negb (c =? 0x24)%N) w &&
  existsb (fun c => to_ascii c =? 0x3f) w.

(** * Properties *)

(** ** Soundness of the matcher *)

Section Soundness.
Context {A : Type} (P : nat -> list N -> Prop).

Definition sound_for (r : re)
    (body : list N -> gmap nat (list N) ->
            (list N -> gmap nat (list N) -> option A) -> option A) : Prop :=
  forall s g k a,
    map_Forall P g -> body s g k = Some a ->
    exists w s' g', s = w ++ s' /\ lang r w /\ map_Forall P g' /\
                    k s' g' = Some a.

Lemma rep_loop_sound r body :
  sound_for r body ->
  forall k fuel need s g a,
    map_Forall P g -> rep_loop body k fuel need s g = Some a ->
    exists ws s' g',
      s = concat ws ++ s' /\ Forall (lang r) ws /\
      (need <= length ws <= fuel)%nat /\ map_Forall P g' /\
      k s' g' = Some a.
Proof.
  intros Hbody k fuel.
  assert (Hstop : forall need s g a,
             map_Forall P g ->
             match need with O => k s g | S _ => None end = Some a ->
             forall n, exists ws s' g',
               s = concat ws ++ s' /\ Forall (lang r) ws /\
               (need <= length ws <= n)%nat /\ map_Forall P g' /\
               k s' g' = Some a).
  { intros [|need] s g a Hg Hk n; [|discriminate].
    exists [], s, g. simpl. repeat split; auto; lia. }
  induction fuel as [|fuel IH]; intros need s g a Hg H; simpl in H.
  - eapply Hstop; eauto.
  - destruct (body s g _) as [a'|] eqn:E.
    + injection H as ->.
      apply Hbody in E as (w & s1 & g1 & -> & Hw & Hg1 & E); [|exact Hg].
      apply IH in E as (ws & s2 & g2 & -> & Hws & Hlen & Hg2 & E);
        [|exact Hg1].
      exists (w :: ws), s2, g2. simpl. rewrite <- app_assoc.
      repeat split; auto; lia.
    + eapply Hstop; eauto.
Qed.

Lemma rmatch_sound r : groups_ok P r -> sound_for r (rmatch r).
Proof.
  induction r as [|c|r1 IH1 r2 IH2|r1 IH1 r2 IH2|lo hi r1 IH1|i r1 IH1];
    intros Hok s g k a Hg H; simpl in H.
  - exists [], s, g. repeat split; auto.
  - destruct s as [|x s]; [discriminate|].
    destruct (cls_ok c x) eqn:Ec; [|discriminate].
    exists [x], s, g. repeat split; auto. simpl. eauto.
  - destruct Hok as [Hok1 Hok2].
    apply IH1 in H as (w1 & s1 & g1 & -> & Hw1 & Hg1 & H); auto.
    apply IH2 in H as (w2 & s2 & g2 & -> & Hw2 & Hg2 & H); auto.
    exists (w1 ++ w2), s2, g2. rewrite <- app_assoc.
    repeat split; auto. simpl. eauto.
  - destruct Hok as [Hok1 Hok2].
    destruct (rmatch r1 s g k) as [a'|] eqn:E.
    + injection H as ->.
      apply IH1 in E as (w & s' & g' & -> & Hw & Hg' & E); auto.
      exists w, s', g'. repeat split; simpl; auto.
    + apply IH2 in H as (w & s' & g' & -> & Hw & Hg' & E'); auto.
      exists w, s', g'. repeat split; simpl; auto.
  - simpl in Hok.
    apply (rep_loop_sound r1) in H as (ws & s' & g' & -> & Hws & Hlen & Hg' & H);
      auto.
    exists (concat ws), s', g'. repeat split; auto.
    simpl. exists ws. repeat split; auto; try lia.
    destruct hi; [lia|exact I].
  - destruct Hok as [HP Hok].
    apply IH1 in H as (w & s' & g' & -> & Hw & Hg' & H); auto.
    rewrite length_app, Nat.add_sub, take_app_length in H.
    exists w, s', (<[i := w]> g'). repeat split; auto.
    apply map_Forall_insert_2; auto.
Qed.
End Soundness.

Lemma match_at_sound P r s s' g :
  groups_ok P r -> match_at r s = Some (s', g) ->
  exists w, s = w ++ s' /\ lang r w /\ map_Forall P g.
Proof.
  intros Hok H. unfold match_at in H.
  apply (rmatch_sound P r Hok) in H as (w & s1 & g1 & -> & Hw & Hg & H).
  - injection H as <- <-. exists w. repeat split; auto.
  - apply map_Forall_empty.
Qed.

Lemma search_sound P r s g :
  groups_ok P r -> search r s = Some g ->
  exists pre w post, s = pre ++ w ++ post /\ lang r w /\ map_Forall P g.
Proof.
  intros Hok. induction s as [|x s IH]; simpl; intros H.
  - destruct (match_at r []) as [[s' g']|] eqn:E; [|discriminate].
    injection H as ->.
    apply (match_at_sound P) in E as (w & -> & Hw & Hg); auto.
    exists [], w, s'. repeat split; auto.
  - destruct (match_at r (x :: s)) as [[s' g']|] eqn:E.
    + injection H as ->.
      apply (match_at_sound P) in E as (w & -> & Hw & Hg); auto.
      exists [], w, s'. repeat split; auto.
    + apply IH in H as (pre & w & post & -> & Hw & Hg).
      exists (x :: pre), w, post. repeat split; auto.
Qed.

(** ** Decimal digits *)

Lemma decimal_in_spec zs c d :
  decimal_in zs c = Some d -> In c (flat_map (fun z => map (N.add z) [0; 1; 2; 3; 4; 5; 6; 7; 8; 9]%N) zs).
Proof.
  induction zs as [|z zs IH]; cbn [decimal_in flat_map]; [discriminate|].
  intros H. apply in_or_app.
  destruct ((z <=? c)%N && (c <? z + 10)%N) eqn:E.
  - left. apply andb_prop in E as [E1 E2].
    apply N.leb_le in E1. apply N.ltb_lt in E2.
    apply in_map_iff. exists (c - z)%N. split; [lia|].
    assert (Hd : (c - z < 10)%N) by lia.
    destruct (c - z)%N as [|p]; [simpl; tauto|].
    do 4 (destruct p as [p|p|]; try lia; try (simpl; tauto)).
  - right. auto.
Qed.

Lemma is_decimal_enum c : is_decimal c = true -> In c all_decimals.
Proof.
  unfold is_decimal, to_decimal, all_decimals.
  destruct (decimal_in decimal_zeros c) eqn:E; [|discriminate].
  intros _. eapply decimal_in_spec; eauto.
Qed.

(** A property of all decimal digits is checked on the list of them. *)
Lemma decimal_forall (Q : N -> bool) :
  forallb Q all_decimals = true -> forall c, is_decimal c = true -> Q c = true.
Proof.
  intros H c Hc. rewrite forallb_forall in H. apply H, is_decimal_enum, Hc.
Qed.

Lemma decimal_to_ascii c :
  is_decimal c = true -> is_ascii_digit (to_ascii c) = true.
Proof. apply (decimal_forall (fun c => is_ascii_digit (to_ascii c))). vm_compute. reflexivity. Qed.

Lemma decimal_not_comma c : is_decimal c = true -> negb (c =? 0x2c)%N = true.
Proof. apply (decimal_forall (fun c => negb (c =? 0x2c)%N)). vm_compute. reflexivity. Qed.

Lemma remove_comma_decimal w : all_decimal w -> remove_char 0x2c w = w.
Proof.
  unfold remove_char. induction 1 as [|c w Hc _ IH]; [reflexivity|].
  cbn [filter list_filter]. rewrite decide_True.
  - f_equal. exact IH.
  - rewrite (decimal_not_comma c Hc). exact I.
Qed.

(** Texts matched by a repetition of [\d] *)
Lemma lang_digits lo hi w :
  lang (Rep lo hi digit) w ->
  all_decimal w /\ (lo <= length w)%nat /\
  match hi with Some h => (length w <= h)%nat | None => True end.
Proof.
  intros (ws & -> & Hws & Hlo & Hhi).
  assert (H : all_decimal (concat ws) /\ length (concat ws) = length ws).
  { clear Hlo Hhi. induction Hws as [|x ws Hx _ [IH1 IH2]].
    - split; [constructor|reflexivity].
    - destruct Hx as (c & -> & Hc). simpl in *. split.
      + constructor; assumption.
      + f_equal. exact IH2. }
  destruct H as [H1 H2]. rewrite H2. auto.
Qed.

(** ** [int()] on decimal digits *)

Definition ascii_digits (a : list Z) : Prop :=
  Forall (fun c => is_ascii_digit c = true) a.

Lemma to_ascii_digits w : all_decimal w -> ascii_digits (map to_ascii w).
Proof.
  induction 1; constructor; auto using decimal_to_ascii.
Qed.

Lemma ascii_digit_cases c :
  is_ascii_digit c = true ->
  c = 48 \/ c = 49 \/ c = 50 \/ c = 51 \/ c = 52 \/
  c = 53 \/ c = 54 \/ c = 55 \/ c = 56 \/ c = 57.
Proof. unfold is_ascii_digit. lia. Qed.

Ltac digit_cases H :=
  apply ascii_digit_cases in H;
  repeat (destruct H as [H|H]); subst.

Lemma take_sign_digit c t :
  is_ascii_digit c = true -> take_sign (c :: t) = (false, c :: t).
Proof. intros H. digit_cases H; reflexivity. Qed.

Lemma digit_not_space c : is_ascii_digit c = true -> is_py_space c = false.
Proof. unfold is_ascii_digit, is_py_space. lia. Qed.

Lemma take_int_digits_all prev a :
  ascii_digits a -> prev <> 0x5f ->
  take_int_digits prev a = Some (map (fun c => c - 0x30) a, []).
Proof.
  intros Ha. revert prev. induction Ha as [|c a Hc _ IH]; intros prev Hp; simpl.
  - destruct (Z.eqb_spec prev 95); [contradiction|reflexivity].
  - rewrite Hc, IH; [reflexivity|].
    unfold is_ascii_digit in Hc. lia.
Qed.

Lemma py_int_decimal w :
  all_decimal w -> w <> [] -> (length w <= 4300)%nat ->
  py_int w = Some (decimal_value w).
Proof.
  intros Hw Hne Hlen. unfold py_int, decimal_value.
  pose proof (to_ascii_digits w Hw) as Ha.
  rewrite <- (map_map to_ascii (fun c => c - 0x30)).
  destruct w as [|c w]; [contradiction|]. simpl map in *.
  inversion Ha as [|? ? Hc Ha']; subst.
  cbn [lstrip_ascii]. rewrite (digit_not_space _ Hc).
  rewrite (take_sign_digit _ _ Hc).
  rewrite (take_int_digits_all 0 _ Ha) by discriminate.
  cbn [map lstrip_ascii length]. simpl length in Hlen.
  rewrite !length_map.
  destruct (Nat.ltb_spec 4300 (S (length w))); [lia|reflexivity].
Qed.

(** ** Prompts without digits *)

Lemma groups_ok_trivial r : groups_ok (fun _ _ => True) r.
Proof. induction r; simpl; auto. Qed.

Lemma needs_digit_lang r w :
  needs_digit r = true -> lang r w -> Exists (fun c => is_decimal c = true) w.
Proof.
  revert w. induction r as [|c|r1 IH1 r2 IH2|r1 IH1 r2 IH2|lo hi r1 IH1|i r1 IH1];
    intros w Hn Hw; simpl in *.
  - discriminate.
  - destruct c; try discriminate.
    destruct Hw as (x & -> & Hx). constructor. exact Hx.
  - destruct Hw as (w1 & w2 & -> & H1 & H2). apply Exists_app.
    apply orb_prop in Hn as [Hn|Hn]; [left|right]; auto.
  - apply andb_prop in Hn as [Hn1 Hn2]. destruct Hw; auto.
  - apply andb_prop in Hn as [Hlo Hn].
    destruct Hw as (ws & -> & Hws & Hlen & _).
    destruct ws as [|w0 ws].
    + destruct lo; [discriminate|simpl in Hlen; lia].
    + inversion Hws; subst. simpl. apply Exists_app. left. auto.
  - auto.
Qed.

Lemma search_no_digit r prompt :
  needs_digit r = true ->
  Forall (fun c => is_decimal c = false) prompt ->
  search r prompt = None.
Proof.
  intros Hn Hp. destruct (search r prompt) as [g|] eqn:E; [|reflexivity].
  apply (search_sound (fun _ _ => True)) in E as (pre & w & post & -> & Hw & _);
    [|apply groups_ok_trivial].
  apply (needs_digit_lang r w Hn) in Hw.
  apply Forall_app in Hp as [_ Hp]. apply Forall_app in Hp as [Hp _].
  apply Exists_exists in Hw as (c & Hin & Hc).
  rewrite Forall_forall in Hp. rewrite (Hp c Hin) in Hc. discriminate.
Qed.

(** C9: a prompt that holds no digit character (no character of the
    class [\d]) gives the empty mapping: none of the keys word_count,
    budget, percentage and timeframe is present. *)
Theorem C9_no_digits_empty (prompt : list N) :
  Forall (fun c => is_decimal c = false) prompt ->
  prompt_parser.parse_constraints prompt = Ok ∅.
Proof.
  intros Hp. unfold prompt_parser.parse_constraints.
  unfold prompt_parser.word_count, prompt_parser.budget,
    prompt_parser.percentage, prompt_parser.timeframe.
  rewrite !search_no_digit by (reflexivity || exact Hp).
  reflexivity.
Qed.

Lemma C9_witness :
  Forall (fun c => is_decimal c = false) (u "Summarise the attached report.") /\
  prompt_parser.parse_constraints (u "Summarise the attached report.") = Ok ∅.
Proof.
  assert (H : Forall (fun c => is_decimal c = false)
                (u "Summarise the attached report."))
    by (repeat constructor).
  split; [exact H | exact (C9_no_digits_empty _ H)].
Defined.

(** ** The result mapping

    Each block of [parse_constraints] stores its record, if any, under its
    own key. *)

Import prompt_parser.

Lemma parse_constraints_blocks prompt cs :
  parse_constraints prompt = Ok cs ->
  exists w b p t,
    word_count prompt = Ok w /\ budget prompt = Ok b /\
    percentage prompt = Ok p /\ timeframe prompt = Ok t /\
    cs !! "word_count" = w /\ cs !! "budget" = b /\
    cs !! "percentage" = p /\ cs !! "timeframe" = t.
Proof.
  unfold parse_constraints. intros Hcs.
  destruct (word_count prompt) as [w|]; [|discriminate].
  destruct (budget prompt) as [b|]; [|discriminate].
  destruct (percentage prompt) as [p|]; [|discriminate].
  destruct (timeframe prompt) as [t|]; [|discriminate].
  cbn in Hcs. injection Hcs as <-.
  exists w, b, p, t. repeat split;
    destruct t as [t|], p as [p|], b as [b|], w as [w|]; reflexivity.
Qed.

(** ** Timeframes *)

Lemma time_groups_ok : groups_ok time_groups pattern_time.
Proof.
  cbv [pattern_time seq alts groups_ok]; repeat split; trivial;
    intros;
    match goal with
    | H : lang _ _ |- _ => apply (lang_digits 1 (Some 4%nat)) in H; tauto
    end.
Qed.

Lemma int_of_group_decimal w :
  all_decimal w -> (1 <= length w <= 4)%nat ->
  int_of_group (Some w) = Ok (decimal_value w).
Proof.
  intros Hw Hlen. unfold int_of_group.
  rewrite py_int_decimal; [reflexivity|assumption| |lia].
  intros ->. simpl in Hlen. lia.
Qed.

Lemma truthy_Some g : truthy g = true -> exists w, g = Some w.
Proof. destruct g as [[|c w]|]; try discriminate. eauto. Qed.

Lemma timeframe_range prompt m :
  search pattern_time prompt = Some m ->
  truthy (m !! 1%nat) = true -> truthy (m !! 3%nat) = true ->
  exists wl wh,
    m !! 1%nat = Some wl /\ m !! 3%nat = Some wh /\
    all_decimal wl /\ all_decimal wh /\
    timeframe prompt =
      Ok (Some (timeframe_range_record (value_of_group (m !! 2%nat))
                  (decimal_value wl) (decimal_value wh))).
Proof.
  intros Hs H1 H3.
  pose proof (search_sound _ _ _ _ time_groups_ok Hs) as (_ & _ & _ & _ & _ & Hg).
  destruct (truthy_Some _ H1) as [wl Hl], (truthy_Some _ H3) as [wh Hh].
  pose proof (Hg _ _ Hl) as [Dl Ll]. pose proof (Hg _ _ Hh) as [Dh Lh].
  exists wl, wh. repeat split; auto.
  unfold timeframe. rewrite Hs, H1, H3. cbn [andb].
  rewrite Hl, Hh, !int_of_group_decimal by assumption.
  reflexivity.
Qed.

(** C3 (as amended): for every prompt whose timeframe pattern matches the
    range shape, a timeframe record is produced; its target is
    [(low + high) // 2], it holds lower_bound = low and upper_bound = high,
    and it has no tolerance field.  It is the record stored under the key
    timeframe whenever [parse_constraints] returns. *)
Theorem C3_timeframe_range (prompt : list N) (m : gmap nat (list N)) :
  search pattern_time prompt = Some m ->
  truthy (m !! 1%nat) = true -> truthy (m !! 3%nat) = true ->
  exists r low high,
    timeframe prompt = Ok (Some r) /\
    int_of_group (m !! 1%nat) = Ok low /\
    int_of_group (m !! 3%nat) = Ok high /\
    r !! "type" = Some (VStr (u "range")) /\
    r !! "target" = Some (VInt ((low + high) / 2)) /\
    r !! "lower_bound" = Some (VInt low) /\
    r !! "upper_bound" = Some (VInt high) /\
    r !! "tolerance" = None /\
    forall cs, parse_constraints prompt = Ok cs -> cs !! "timeframe" = Some r.
Proof.
  intros Hs H1 H3.
  pose proof (search_sound _ _ _ _ time_groups_ok Hs) as (_ & _ & _ & _ & _ & Hg).
  destruct (timeframe_range _ _ Hs H1 H3) as (wl & wh & Hl & Hh & Dl & Dh & Ht).
  pose proof (Hg _ _ Hl) as [_ Ll]. pose proof (Hg _ _ Hh) as [_ Lh].
  eexists _, (decimal_value wl), (decimal_value wh).
  split; [exact Ht|].
  rewrite Hl, Hh, !int_of_group_decimal by assumption.
  repeat split.
  intros cs Hcs.
  apply parse_constraints_blocks in Hcs as (? & ? & ? & t & _ & _ & _ & Ht' & _ & _ & _ & <-).
  congruence.
Qed.

Lemma C3_witness :
  let prompt := u "Pilot runs from 3 weeks to 2 months." in
  exists m,
    search pattern_time prompt = Some m /\
    truthy (m !! 1%nat) = true /\ truthy (m !! 3%nat) = true /\
    exists r low high,
      timeframe prompt = Ok (Some r) /\
      int_of_group (m !! 1%nat) = Ok low /\
      int_of_group (m !! 3%nat) = Ok high /\
      r !! "type" = Some (VStr (u "range")) /\
      r !! "target" = Some (VInt ((low + high) / 2)) /\
      r !! "lower_bound" = Some (VInt low) /\
      r !! "upper_bound" = Some (VInt high) /\
      r !! "tolerance" = None /\
      forall cs, parse_constraints prompt = Ok cs -> cs !! "timeframe" = Some r.
Proof.
  intros prompt.
  exists (<[1%nat := u "3"]> (<[2%nat := u "weeks"]>
         (<[3%nat := u "2"]> (<[4%nat := u "months"]> ∅)))).
  assert (Hs : search pattern_time prompt =
               Some (<[1%nat := u "3"]> (<[2%nat := u "weeks"]>
                    (<[3%nat := u "2"]> (<[4%nat := u "months"]> ∅)))))
    by (vm_compute; reflexivity).
  split; [exact Hs|]. split; [reflexivity|]. split; [reflexivity|].
  exact (C3_timeframe_range prompt _ Hs eq_refl eq_refl).
Defined.

(** C3 as stated fails: the record of a range does hold both bounds. *)
Lemma C3_counterexample :
  ~ timeframe_range_as_stated (u "Pilot runs from 3 weeks to 2 months.").
Proof.
  intros H.
  assert (Hs : search pattern_time (u "Pilot runs from 3 weeks to 2 months.") =
               Some (<[1%nat := u "3"]> (<[2%nat := u "weeks"]>
                    (<[3%nat := u "2"]> (<[4%nat := u "months"]> ∅)))))
    by (vm_compute; reflexivity).
  destruct (H _ Hs eq_refl eq_refl) as (r & low & high & Hr & _ & _ & _ & Hlb & _).
  destruct (timeframe_range _ _ Hs eq_refl eq_refl)
    as (wl & wh & _ & _ & _ & _ & Ht).
  rewrite Ht in Hr. injection Hr as <-.
  change (Some (VInt (decimal_value wl)) = None) in Hlb.
  discriminate Hlb.
Qed.

(** ** The scenarios of the specification *)

Lemma f3e10_exact : f3e10 = FFin false (3 * 10 ^ 10 * 2 ^ 18) (-18).
Proof. vm_compute. reflexivity. Qed.

(** C2 (as amended): for the prompt "Write exactly 150 words." the result
    holds exactly one record, word_count, with type "fixed", target 150,
    tolerance 15 (ten per cent of the target, which exceeds the floor of
    10), lower_bound 135 and upper_bound 165. *)
Theorem C2_scenario1 :
  parse_constraints (u "Write exactly 150 words.") =
  Ok {[ "word_count" :=
          <["type" := VStr (u "fixed")]>
            (<["lower_bound" := VInt 135]>
            (<["upper_bound" := VInt 165]>
            (<["target" := VInt 150]>
            (<["tolerance" := VInt 15]> ∅)))) ]}.
Proof. vm_compute. reflexivity. Qed.

(** C2 as stated fails: the tolerance is not 10 and the bounds are not
    140 and 160. *)
Lemma C2_counterexample : ~ scenario1_as_stated.
Proof.
  intros (cs & r & Hcs & Hr & _ & _ & _ & _ & Htol).
  apply parse_constraints_blocks in Hcs as (w & _ & _ & _ & Hw & _ & _ & _ & Hl & _).
  rewrite Hr in Hl. subst w.
  assert (Hv : word_count (u "Write exactly 150 words.") =
               Ok (Some (<["type" := VStr (u "fixed")]>
                        (<["lower_bound" := VInt 135]>
                        (<["upper_bound" := VInt 165]>
                        (<["target" := VInt 150]>
                        (<["tolerance" := VInt 15]> ∅)))))))
    by (vm_compute; reflexivity).
  rewrite Hv in Hw. injection Hw as <-.
  vm_compute in Htol. discriminate Htol.
Qed.

(** C1 (as amended): for the prompt "Capex must not exceed $30 billion
    over 5 years." the result holds a budget record with type "fixed"
    (no cue of the pattern stands before the amount: "not exceed" is not
    "not exceeding"), target 3.0e10, upper_bound None, lower_bound None and
    raw_value "30 billion", and a timeframe record with type "fixed", unit
    "years" and target 5; it holds nothing else. *)
Theorem C1_scenario2 :
  parse_constraints (u "Capex must not exceed $30 billion over 5 years.") =
  Ok (<["budget" :=
          <["type" := VStr (u "fixed")]>
            (<["target" := VFloat f3e10]>
            (<["upper_bound" := VNone]>
            (<["lower_bound" := VNone]>
            (<["raw_value" := VStr (u "30 billion")]> ∅))))]>
     (<["timeframe" :=
          <["type" := VStr (u "fixed")]>
            (<["unit" := VStr (u "years")]>
            (<["target" := VInt 5]> ∅))]> ∅)).
Proof. vm_compute. reflexivity. Qed.

(** C1 as stated fails: the budget record is not of type "max". *)
Lemma C1_counterexample : ~ scenario2_as_stated.
Proof.
  intros (cs & b & t & Hcs & Hb & Hty & _).
  apply parse_constraints_blocks in Hcs as (_ & b' & _ & _ & _ & Hb' & _ & _ & _ & Hl & _).
  rewrite Hb in Hl. subst b'.
  assert (Hv : budget (u "Capex must not exceed $30 billion over 5 years.") =
               Ok (Some (<["type" := VStr (u "fixed")]>
                        (<["target" := VFloat f3e10]>
                        (<["upper_bound" := VNone]>
                        (<["lower_bound" := VNone]>
                        (<["raw_value" := VStr (u "30 billion")]> ∅)))))))
    by (vm_compute; reflexivity).
  rewrite Hv in Hb'. injection Hb' as <-.
  vm_compute in Hty. discriminate Hty.
Qed.

(** ** Word counts written with a comma *)

(** No group of the word-count pattern ever holds a comma: the groups are
    two to four decimal digits. *)
Lemma word_groups_ok :
  groups_ok (fun _ w => all_decimal w /\ (2 <= length w <= 4)%nat) w_pattern.
Proof.
  cbv [w_pattern seq alts groups_ok]; repeat split; trivial;
    intros;
    match goal with
    | H : lang _ _ |- _ => apply (lang_digits 2 (Some 4%nat)) in H; tauto
    end.
Qed.

Lemma word_groups_no_comma prompt m i w :
  search w_pattern prompt = Some m -> m !! i = Some w -> ~ In 0x2c%N w.
Proof.
  intros Hs Hi Hin.
  pose proof (search_sound _ _ _ _ word_groups_ok Hs) as (_ & _ & _ & _ & _ & Hg).
  destruct (Hg _ _ Hi) as [Hd _].
  unfold all_decimal in Hd. rewrite Forall_forall in Hd.
  apply list_elem_of_In in Hin. specialize (Hd _ Hin).
  vm_compute in Hd. discriminate.
Qed.

(** C6: the word count "2,000" of the prompt "Write 2,000 words." is not
    matched as a whole: the pattern takes the three digits after the comma,
    and the record has target 0 instead of 2000. *)
Theorem C6_comma_word_count :
  search w_pattern (u "Write 2,000 words.") = Some {[ 3%nat := u "000" ]} /\
  parse_constraints (u "Write 2,000 words.") =
  Ok {[ "word_count" :=
          <["type" := VStr (u "fixed")]>
            (<["lower_bound" := VInt (-10)]>
            (<["upper_bound" := VInt 10]>
            (<["target" := VInt 0]>
            (<["tolerance" := VInt 10]> ∅)))) ]}.
Proof. split; vm_compute; reflexivity. Qed.

(** ** A magnitude word outside ASCII *)

(** C10: the budget pattern, matched without regard to case, accepts the
    magnitude "30 MİLLİON" written with U+0130; [parse_amount] lowers it to
    a text that does not hold the word million, hands "30 mi̇lli̇on" to
    [float()], and the ValueError leaves [parse_constraints]. *)
Theorem C10_budget_raises :
  search pattern_budget prompt_dotted_I =
    Some {[ 3%nat := u "30 M" ++ [0x130%N] ++ u "LL" ++ [0x130%N] ++ u "ON" ]} /\
  parse_amount (PStr (u "30 M" ++ [0x130%N] ++ u "LL" ++ [0x130%N] ++ u "ON"))
    = Raise ValueError /\
  parse_constraints prompt_dotted_I = Raise ValueError.
Proof. repeat split; vm_compute; reflexivity. Qed.

(** The same happens with the dotless i (U+0131): "30 mıllıon". *)
Lemma budget_raises_dotless_i :
  parse_constraints (u "30 m" ++ [0x131%N] ++ u "ll" ++ [0x131%N] ++ u "on")
  = Raise ValueError.
Proof. vm_compute. reflexivity. Qed.

(** ** Faults of the amount normaliser *)

Lemma parse_amount_text s :
  parse_amount (PStr s) =
  match py_float (snd (amount_parts s)) with
  | Some f => Ok (VFloat (fmul f (fst (amount_parts s))))
  | None => Raise ValueError
  end.
Proof.
  unfold parse_amount. destruct (amount_parts s) as [mult text]. simpl.
  destruct (py_float text); reflexivity.
Qed.

Lemma budget_raises prompt m s e :
  search pattern_budget prompt = Some m ->
  group_or (group_or (m !! 1%nat) (m !! 2%nat)) (m !! 3%nat) = Some s ->
  parse_amount (PStr s) = Raise e ->
  budget prompt = Raise e /\ forall cs, parse_constraints prompt <> Ok cs.
Proof.
  intros Hs Hg He.
  assert (Hb : budget prompt = Raise e).
  { unfold budget. rewrite Hs, Hg, He. reflexivity. }
  split; [exact Hb|].
  intros cs. unfold parse_constraints. rewrite Hb.
  destruct (word_count prompt); discriminate.
Qed.

(** C8: [parse_amount] returns [None] for an input that is neither a number
    nor a string; for a string whose remainder (after the currency sign,
    the magnitude word, the commas and the surrounding white space are
    taken away) is not a floating-point literal it raises ValueError; and
    when that string is the magnitude found by the budget pattern the fault
    leaves the budget block and [parse_constraints] returns no mapping. *)
Theorem C8_unparseable_amount (s : list N) :
  parse_amount POther = Ok VNone /\
  (py_float (snd (amount_parts s)) = None ->
   parse_amount (PStr s) = Raise ValueError /\
   forall prompt m,
     search pattern_budget prompt = Some m ->
     group_or (group_or (m !! 1%nat) (m !! 2%nat)) (m !! 3%nat) = Some s ->
     budget prompt = Raise ValueError /\
     forall cs, parse_constraints prompt <> Ok cs).
Proof.
  split; [reflexivity|]. intros Hf.
  assert (Hs : parse_amount (PStr s) = Raise ValueError)
    by (rewrite parse_amount_text, Hf; reflexivity).
  split; [exact Hs|]. intros prompt m Hm Hg.
  exact (budget_raises prompt m s ValueError Hm Hg Hs).
Qed.

Lemma C8_witness :
  py_float (snd (amount_parts (u "about twelve"))) = None /\
  parse_amount POther = Ok VNone /\
  parse_amount (PStr (u "about twelve")) = Raise ValueError.
Proof.
  assert (H : py_float (snd (amount_parts (u "about twelve"))) = None)
    by (vm_compute; reflexivity).
  split; [exact H|].
  destruct (C8_unparseable_amount (u "about twelve")) as [H1 H2].
  split; [exact H1|]. exact (proj1 (H2 H)).
Defined.

(** ** [float()] on decimal numbers *)

Lemma drop_underscores_id prev a :
  Forall (fun c => c <> 0x5f) a -> prev <> 0x5f ->
  drop_underscores prev a = Some a.
Proof.
  intros Ha. revert prev. induction Ha as [|c a Hc _ IH]; intros prev Hp; simpl.
  - destruct (Z.eqb_spec prev 95); [contradiction|reflexivity].
  - destruct (Z.eqb_spec c 95); [contradiction|].
    destruct (Z.eqb_spec prev 95); [contradiction|].
    simpl. rewrite IH by assumption. reflexivity.
Qed.

Lemma lstrip_ascii_id a :
  Forall (fun c => is_py_space c = false) a -> lstrip_ascii a = a.
Proof. destruct 1 as [|c a Hc _]; simpl; [|rewrite Hc]; reflexivity. Qed.

Lemma strip_ascii_id a :
  Forall (fun c => is_py_space c = false) a -> strip_ascii a = a.
Proof.
  intros Ha. unfold strip_ascii. rewrite (lstrip_ascii_id a Ha).
  rewrite lstrip_ascii_id; [apply rev_involutive|].
  apply Forall_rev. exact Ha.
Qed.

Lemma take_digits_app a rest :
  ascii_digits a ->
  match rest with c :: _ => is_ascii_digit c = false | [] => True end ->
  take_digits (a ++ rest) = (map (fun c => c - 0x30) a, rest).
Proof.
  intros Ha Hr. induction Ha as [|c a Hc _ IH]; cbn [app take_digits map].
  - destruct rest as [|c t]; [reflexivity|].
    cbn [take_digits]. rewrite Hr. reflexivity.
  - rewrite Hc, IH. reflexivity.
Qed.

Lemma take_digits_all a :
  ascii_digits a -> take_digits a = (map (fun c => c - 0x30) a, []).
Proof.
  intros Ha. rewrite <- (app_nil_r a) at 1. apply take_digits_app; auto.
Qed.

(** A text that starts with a digit is not inf, infinity or nan, and has no
    sign. *)
Lemma parse_float_ascii_digit c t :
  is_ascii_digit c = true ->
  parse_float_ascii (c :: t) =
  let '(ip, s2) := take_digits (c :: t) in
  let '(fp, s3) := match s2 with
                   | 0x2e :: t => take_digits t
                   | _ => ([], s2)
                   end in
  match ip ++ fp with
  | [] => None
  | ds =>
      match parse_exponent s3 with
      | None => None
      | Some x =>
          let x := x - Z.of_nat (length fp) in
          Some (if 0 <=? x then rnd false (digits_val ds * 10 ^ x) 1
                else rnd false (digits_val ds) (10 ^ (- x)))
      end
  end.
Proof. intros H. digit_cases H; reflexivity. Qed.

Lemma ascii_digits_not_underscore a :
  ascii_digits a -> Forall (fun c => c <> 0x5f) a.
Proof.
  intros H. eapply Forall_impl; [exact H|].
  intros c Hc. unfold is_ascii_digit in Hc. lia.
Qed.

Lemma ascii_digits_not_space a :
  ascii_digits a -> Forall (fun c => is_py_space c = false) a.
Proof. intros H. eapply Forall_impl; [exact H|exact digit_not_space]. Qed.

Lemma digits_vals_length a : length (map (fun c : Z => c - 0x30) a) = length a.
Proof. apply length_map. Qed.

(** [float()] of digits, a point and digits *)
Lemma py_float_frac ip fp :
  all_decimal ip -> all_decimal fp -> ip <> [] -> fp <> [] ->
  py_float (ip ++ 0x2e%N :: fp) =
  Some (rnd false (decimal_value (ip ++ fp)) (10 ^ Z.of_nat (length fp))).
Proof.
  intros Hip Hfp Hne1 Hne2.
  pose proof (to_ascii_digits _ Hip) as H1.
  pose proof (to_ascii_digits _ Hfp) as H2.
  unfold py_float, decimal_value.
  rewrite !map_app, <- (map_map to_ascii (fun c => c - 0x30) ip),
    <- (map_map to_ascii (fun c => c - 0x30) fp).
  cbn [map]. change (to_ascii 46%N) with 46.
  rewrite <- (length_map to_ascii fp).
  set (a1 := map to_ascii ip) in *. set (a2 := map to_ascii fp) in *.
  assert (Ha1 : a1 <> []) by (subst a1; destruct ip; [contradiction|discriminate]).
  assert (Ha2 : a2 <> []) by (subst a2; destruct fp; [contradiction|discriminate]).
  clearbody a1 a2. clear Hip Hfp Hne1 Hne2.
  rewrite drop_underscores_id; [|
    apply Forall_app; split; [|constructor; [discriminate|]];
      apply ascii_digits_not_underscore; assumption | discriminate].
  rewrite strip_ascii_id; [|
    apply Forall_app; split; [|constructor; [reflexivity|]];
      apply ascii_digits_not_space; assumption].
  destruct a1 as [|c a1]; [contradiction|].
  cbn [app]. inversion H1 as [|? ? Hc H1']; subst.
  rewrite (parse_float_ascii_digit _ _ Hc).
  change (c :: a1 ++ 46 :: a2) with ((c :: a1) ++ 46 :: a2).
  rewrite (take_digits_app _ _ H1) by reflexivity.
  rewrite (take_digits_all _ H2).
  destruct a2 as [|d a2]; [contradiction|].
  cbn [map app parse_exponent length].
  rewrite digits_vals_length.
  destruct (Z.leb_spec 0 (0 - Z.of_nat (S (length a2)))); [lia|].
  replace (- (0 - Z.of_nat (S (length a2)))) with (Z.of_nat (S (length a2))) by lia.
  reflexivity.
Qed.

(** [float()] of digits *)
Lemma py_float_int ip :
  all_decimal ip -> ip <> [] ->
  py_float ip = Some (rnd false (decimal_value ip) 1).
Proof.
  intros Hip Hne.
  pose proof (to_ascii_digits _ Hip) as H1.
  unfold py_float, decimal_value.
  rewrite <- (map_map to_ascii (fun c => c - 0x30) ip).
  set (a1 := map to_ascii ip) in *.
  assert (Ha1 : a1 <> []) by (subst a1; destruct ip; [contradiction|discriminate]).
  clearbody a1. clear Hip Hne.
  rewrite drop_underscores_id;
    [|apply ascii_digits_not_underscore; assumption | discriminate].
  rewrite strip_ascii_id by (apply ascii_digits_not_space; assumption).
  destruct a1 as [|c a1]; [contradiction|].
  inversion H1 as [|? ? Hc H1']; subst.
  rewrite (parse_float_ascii_digit _ _ Hc).
  rewrite (take_digits_all _ H1).
  cbn [map app parse_exponent length]. rewrite app_nil_r.
  change (0 - Z.of_nat 0) with 0. change (0 <=? 0) with true.
  cbn iota. rewrite Z.pow_0_r, Z.mul_1_r. reflexivity.
Qed.

Lemma fold_digits_bound l acc :
  Forall (fun d => 0 <= d <= 9) l -> 0 <= acc ->
  acc * 10 ^ Z.of_nat (length l)
  <= fold_left (fun a d => 10 * a + d) l acc
  < (acc + 1) * 10 ^ Z.of_nat (length l).
Proof.
  intros Hl. revert acc. induction Hl as [|d l Hd _ IH]; intros acc Hacc.
  - simpl. lia.
  - cbn [fold_left length]. rewrite Nat2Z.inj_succ, Z.pow_succ_r by lia.
    specialize (IH (10 * acc + d) ltac:(lia)).
    assert (0 < 10 ^ Z.of_nat (length l)) by (apply Z.pow_pos_nonneg; lia).
    nia.
Qed.

Lemma decimal_value_bound w :
  all_decimal w -> 0 <= decimal_value w < 10 ^ Z.of_nat (length w).
Proof.
  intros Hw. unfold decimal_value, digits_val.
  pose proof (fold_digits_bound (map (fun c => to_ascii c - 0x30) w) 0) as H.
  rewrite length_map in H. simpl in H.
  assert (Hd : Forall (fun d => 0 <= d <= 9) (map (fun c => to_ascii c - 0x30) w)).
  { apply Forall_map. eapply Forall_impl; [exact Hw|].
    intros c Hc. apply decimal_to_ascii in Hc. cbn beta.
    unfold is_ascii_digit in Hc. lia. }
  specialize (H Hd ltac:(lia)). lia.
Qed.

Lemma lang_lit_dot x : lang (lit ".") x -> x = [0x2e%N].
Proof.
  change (lit ".") with (Cat (Chr (CLit 46%N)) Eps).
  intros (d & e & -> & (c & -> & Hc) & ->).
  change (cls_ok (CLit 46) c) with (c =? 46)%N in Hc.
  apply N.eqb_eq in Hc. subst. reflexivity.
Qed.

(** Texts matched by the number of the percentage pattern *)
Lemma lang_pct_number w :
  lang pct_number w ->
  exists ip,
    all_decimal ip /\ (1 <= length ip <= 3)%nat /\
    (w = ip \/
     exists fp, all_decimal fp /\ fp <> [] /\ w = ip ++ 0x2e%N :: fp).
Proof.
  intros (ip & w2 & -> & H1 & ws & -> & Hws & _ & Hlen).
  apply lang_digits in H1 as (Hip & Hlo & Hhi).
  exists ip. split; [exact Hip|]. split; [lia|].
  destruct ws as [|x [|y ws]]; [left; simpl; apply app_nil_r| |simpl in Hlen; lia].
  right. inversion Hws as [|? ? Hx _]; subst.
  destruct Hx as (x1 & fp & -> & Hdot & Hfp).
  apply lang_lit_dot in Hdot as ->.
  apply (lang_digits 1 None) in Hfp as (Hfp & Hlo' & _).
  exists fp. split; [exact Hfp|]. split.
  - intros ->. simpl in Hlo'. lia.
  - simpl. rewrite app_nil_r. reflexivity.
Qed.

(** [float()] succeeds on such a text, with a value below 1000. *)
Lemma py_float_pct w :
  lang pct_number w ->
  exists n d, 0 <= n /\ 0 < d /\ n < 1000 * d /\
              py_float w = Some (rnd false n d).
Proof.
  intros H. apply lang_pct_number in H as (ip & Hip & Hlen & [->|H]).
  - exists (decimal_value ip), 1.
    pose proof (decimal_value_bound ip Hip) as Hb.
    assert (10 ^ Z.of_nat (length ip) <= 10 ^ 3)
      by (apply Z.pow_le_mono_r; lia).
    repeat split; try lia.
    apply py_float_int; [exact Hip|]. intros ->. simpl in Hlen. lia.
  - destruct H as (fp & Hfp & Hne & ->).
    exists (decimal_value (ip ++ fp)), (10 ^ Z.of_nat (length fp)).
    pose proof (decimal_value_bound (ip ++ fp)) as Hb.
    rewrite length_app, Nat2Z.inj_add, Z.pow_add_r in Hb by lia.
    specialize (Hb ltac:(apply Forall_app; split; assumption)).
    assert (10 ^ Z.of_nat (length ip) <= 10 ^ 3)
      by (apply Z.pow_le_mono_r; lia).
    assert (0 < 10 ^ Z.of_nat (length fp)) by (apply Z.pow_pos_nonneg; lia).
    repeat split; try lia; try nia.
    apply py_float_frac; auto. intros ->. simpl in Hlen. lia.
Qed.

(** ** Percentage ranges *)

Lemma percent_groups_ok :
  groups_ok (fun _ w => lang pct_number w) pattern_percent.
Proof.
  cbv [pattern_percent seq alts groups_ok]; repeat split; trivial.
Qed.

Lemma lookup_percentage prompt cs p :
  percentage prompt = Ok p -> parse_constraints prompt = Ok cs ->
  cs !! "percentage" = p.
Proof.
  intros Hp Hcs.
  apply parse_constraints_blocks in Hcs as (? & ? & ? & ? & _ & _ & Hp' & _ & _ & _ & <- & _).
  congruence.
Qed.

(** C5 (as amended): the range shape of the percentage pattern matches
    whether or not the low or the high value is followed by a percent
    marker (both markers are optional); on a range match a record is
    produced whose target is (low + high) / 2.0 and whose tolerance is
    (high - low) / 2.0, in float arithmetic, with low and high as its
    bounds. *)
Theorem C5_percentage_range :
  (pct_range_shape (u "between 10 and 20") /\
   pct_range_shape (u "between 10% and 20") /\
   pct_range_shape (u "between 10 and 20 percent") /\
   pct_range_shape (u "from 10% to 20%")) /\
  forall prompt m,
    search pattern_percent prompt = Some m ->
    truthy (m !! 1%nat) = true -> truthy (m !! 2%nat) = true ->
    exists r low high,
      percentage prompt = Ok (Some r) /\
      float_of_group (m !! 1%nat) = Ok low /\
      float_of_group (m !! 2%nat) = Ok high /\
      r !! "type" = Some (VStr (u "range")) /\
      r !! "lower_bound" = Some (VFloat low) /\
      r !! "upper_bound" = Some (VFloat high) /\
      r !! "target" = Some (VFloat (fdiv (fadd low high) f2_0)) /\
      r !! "tolerance" = Some (VFloat (fdiv (fsub high low) f2_0)) /\
      forall cs, parse_constraints prompt = Ok cs ->
                 cs !! "percentage" = Some r.
Proof.
  split.
  - repeat split; eexists; (split; [vm_compute; reflexivity|]);
      split; reflexivity.
  - intros prompt m Hs H1 H2.
    pose proof (search_sound _ _ _ _ percent_groups_ok Hs)
      as (_ & _ & _ & _ & _ & Hg).
    destruct (truthy_Some _ H1) as [wl Hl], (truthy_Some _ H2) as [wh Hh].
    destruct (py_float_pct _ (Hg _ _ Hl)) as (n1 & d1 & _ & _ & _ & F1).
    destruct (py_float_pct _ (Hg _ _ Hh)) as (n2 & d2 & _ & _ & _ & F2).
    assert (Hp : percentage prompt =
                 Ok (Some (<["type" := VStr (u "range")]>
                   (<["lower_bound" := VFloat (rnd false n1 d1)]>
                   (<["upper_bound" := VFloat (rnd false n2 d2)]>
                   (<["target" := VFloat (fdiv (fadd (rnd false n1 d1)
                                                  (rnd false n2 d2)) f2_0)]>
                   (<["tolerance" := VFloat (fdiv (fsub (rnd false n2 d2)
                                                     (rnd false n1 d1)) f2_0)]>
                      ∅))))))).
    { unfold percentage. rewrite Hs, H1, H2. cbn [andb].
      rewrite Hl, Hh. unfold float_of_group. rewrite F1, F2. reflexivity. }
    eexists _, (rnd false n1 d1), (rnd false n2 d2).
    split; [exact Hp|].
    rewrite Hl, Hh. unfold float_of_group. rewrite F1, F2.
    repeat split.
    intros cs Hcs. exact (lookup_percentage _ _ _ Hp Hcs).
Qed.

Lemma C5_witness :
  let prompt := u "between 10 and 20" in
  let m := <[1%nat := u "10"]> (<[2%nat := u "20"]> ∅) in
  search pattern_percent prompt = Some m /\
  truthy (m !! 1%nat) = true /\ truthy (m !! 2%nat) = true /\
  exists r low high,
    percentage prompt = Ok (Some r) /\
    float_of_group (m !! 1%nat) = Ok low /\
    float_of_group (m !! 2%nat) = Ok high /\
    r !! "type" = Some (VStr (u "range")) /\
    r !! "lower_bound" = Some (VFloat low) /\
    r !! "upper_bound" = Some (VFloat high) /\
    r !! "target" = Some (VFloat (fdiv (fadd low high) f2_0)) /\
    r !! "tolerance" = Some (VFloat (fdiv (fsub high low) f2_0)) /\
    forall cs, parse_constraints prompt = Ok cs -> cs !! "percentage" = Some r.
Proof.
  intros prompt m.
  assert (Hs : search pattern_percent prompt = Some m)
    by (vm_compute; reflexivity).
  split; [exact Hs|]. split; [reflexivity|]. split; [reflexivity|].
  exact (proj2 C5_percentage_range prompt m Hs eq_refl eq_refl).
Defined.

(** C5 as stated fails: "between 10 and 20" holds no percent marker and
    is matched as a percentage range. *)
Lemma C5_counterexample : ~ pct_range_needs_marker (u "between 10 and 20").
Proof.
  intros H. destruct H as (pre & w & post & Hp & Hw).
  { eexists. split; [vm_compute; reflexivity|]. split; reflexivity. }
  assert (Hc : exists c t, w = c :: t /\
                 (lit_ic 0x25 c || lit_ic 0x70 c)%N = true).
  { destruct Hw as [Hw|Hw].
    - destruct Hw as (w1 & w2 & -> & (c & -> & Hc) & _).
      exists c, w2. split; [reflexivity|].
      change (cls_ok (CLit (N_of_ascii "%")) c) with (lit_ic 0x25 c) in Hc.
      rewrite Hc. reflexivity.
    - destruct Hw as (w1 & w2 & -> & (c & -> & Hc) & _).
      exists c, w2. split; [reflexivity|].
      change (cls_ok (CLit (N_of_ascii "p")) c) with (lit_ic 0x70 c) in Hc.
      rewrite Hc. apply orb_true_r. }
  destruct Hc as (c & t & -> & Hc).
  assert (Hall : Forall (fun c => (lit_ic 0x25 c || lit_ic 0x70 c)%N = false)
                   (u "between 10 and 20")) by (repeat constructor).
  rewrite Hp in Hall.
  apply Forall_app in Hall as [_ Hall]. apply Forall_app in Hall as [Hall _].
  inversion Hall as [|? ? Hc' _]; subst. rewrite Hc in Hc'. discriminate.
Qed.

(** ** Soundness of the matcher, with the groups *)

Section CaptureSoundness.
Context {A : Type}.

Definition msound_for
    (R : list N -> gmap nat (list N) -> gmap nat (list N) -> Prop)
    (body : list N -> gmap nat (list N) ->
            (list N -> gmap nat (list N) -> option A) -> option A) : Prop :=
  forall s g k a,
    body s g k = Some a ->
    exists w s' g', s = w ++ s' /\ R w g g' /\ k s' g' = Some a.

Lemma rep_loop_msound R body :
  msound_for R body ->
  forall k fuel need s g a,
    rep_loop body k fuel need s g = Some a ->
    exists n w s' g',
      (need <= n <= fuel)%nat /\ s = w ++ s' /\ rep_rel R n w g g' /\
      k s' g' = Some a.
Proof.
  intros Hbody k fuel.
  assert (Hstop : forall need s g a,
             match need with O => k s g | S _ => None end = Some a ->
             forall f, exists n w s' g',
               (need <= n <= f)%nat /\ s = w ++ s' /\ rep_rel R n w g g' /\
               k s' g' = Some a).
  { intros [|need] s g a Hk f; [|discriminate].
    exists 0%nat, [], s, g. repeat split; auto; lia. }
  induction fuel as [|fuel IH]; intros need s g a H; simpl in H.
  - eapply Hstop; eauto.
  - destruct (body s g _) as [a'|] eqn:E.
    + injection H as ->.
      apply Hbody in E as (w & s1 & g1 & -> & Hw & E).
      apply IH in E as (n & w2 & s2 & g2 & Hn & -> & Hr & E).
      exists (S n), (w ++ w2), s2, g2. rewrite <- app_assoc.
      repeat split; auto; try lia.
      simpl. exists w, w2, g1. auto.
    + eapply Hstop; eauto.
Qed.

Lemma rmatch_msound r : msound_for (mlang r) (rmatch r).
Proof.
  induction r as [|c|r1 IH1 r2 IH2|r1 IH1 r2 IH2|lo hi r1 IH1|i r1 IH1];
    intros s g k a H; simpl in H.
  - exists [], s, g. repeat split; auto.
  - destruct s as [|x s]; [discriminate|].
    destruct (cls_ok c x) eqn:Ec; [|discriminate].
    exists [x], s, g. repeat split; auto. simpl. eauto.
  - apply IH1 in H as (w1 & s1 & g1 & -> & Hw1 & H).
    apply IH2 in H as (w2 & s2 & g2 & -> & Hw2 & H).
    exists (w1 ++ w2), s2, g2. rewrite <- app_assoc.
    repeat split; auto. simpl. exists w1, w2, g1. auto.
  - destruct (rmatch r1 s g k) as [a'|] eqn:E.
    + injection H as ->.
      apply IH1 in E as (w & s' & g' & -> & Hw & E).
      exists w, s', g'. repeat split; simpl; auto.
    + apply IH2 in H as (w & s' & g' & -> & Hw & E').
      exists w, s', g'. repeat split; simpl; auto.
  - apply (rep_loop_msound (mlang r1)) in H
      as (n & w & s' & g' & Hn & -> & Hr & H); auto.
    exists w, s', g'. repeat split; auto.
    simpl. exists n. repeat split; auto; try lia.
    destruct hi; [lia|exact I].
  - apply IH1 in H as (w & s' & g' & -> & Hw & H).
    rewrite length_app, Nat.add_sub, take_app_length in H.
    exists w, s', (<[i := w]> g'). repeat split; auto.
    simpl. exists g'. auto.
Qed.
End CaptureSoundness.

Lemma search_msound r s g :
  search r s = Some g ->
  exists pre w post, s = pre ++ w ++ post /\ mlang r w ∅ g.
Proof.
  assert (Hat : forall s s' g, match_at r s = Some (s', g) ->
                               exists w, s = w ++ s' /\ mlang r w ∅ g).
  { intros s0 s' g0 H. unfold match_at in H.
    apply rmatch_msound in H as (w & s1 & g1 & -> & Hw & H).
    injection H as <- <-. eauto. }
  induction s as [|x s IH]; simpl; intros H.
  - destruct (match_at r []) as [[s' g']|] eqn:E; [|discriminate].
    injection H as ->. apply Hat in E as (w & -> & Hw).
    exists [], w, s'. auto.
  - destruct (match_at r (x :: s)) as [[s' g']|] eqn:E.
    + injection H as ->. apply Hat in E as (w & -> & Hw).
      exists [], w, s'. auto.
    + apply IH in H as (pre & w & post & -> & Hw).
      exists (x :: pre), w, post. auto.
Qed.

Lemma rep_rel_lang (R : list N -> gmap nat (list N) -> gmap nat (list N) -> Prop)
    (L : list N -> Prop) :
  (forall w g g', R w g g' -> L w) ->
  forall n w g g', rep_rel R n w g g' ->
  exists ws, w = concat ws /\ Forall L ws /\ length ws = n.
Proof.
  intros HR. induction n as [|n IH]; simpl; intros w g g' H.
  - destruct H as [-> _]. exists []. auto.
  - destruct H as (w1 & w2 & g1 & -> & H1 & H2).
    apply IH in H2 as (ws & -> & Hws & <-).
    exists (w1 :: ws). repeat split; eauto.
Qed.

Lemma mlang_lang r : forall w g g', mlang r w g g' -> lang r w.
Proof.
  induction r as [|c|r1 IH1 r2 IH2|r1 IH1 r2 IH2|lo hi r1 IH1|i r1 IH1];
    simpl; intros w g g' H.
  - tauto.
  - tauto.
  - destruct H as (w1 & w2 & g1 & -> & H1 & H2). eauto 10.
  - destruct H; eauto.
  - destruct H as (n & Hlo & Hhi & H).
    apply (rep_rel_lang _ (lang r1) IH1) in H as (ws & -> & Hws & <-).
    exists ws. auto.
  - destruct H as (g1 & H & _). eauto.
Qed.

Lemma mlang_no_groups r :
  no_groups r = true -> forall w g g', mlang r w g g' -> g' = g.
Proof.
  induction r as [|c|r1 IH1 r2 IH2|r1 IH1 r2 IH2|lo hi r1 IH1|i r1 IH1];
    simpl; intros Hn w g g' H; try discriminate.
  - tauto.
  - tauto.
  - apply andb_prop in Hn as [Hn1 Hn2].
    destruct H as (w1 & w2 & g1 & -> & H1 & H2).
    apply IH1 in H1; auto. apply IH2 in H2; auto. congruence.
  - apply andb_prop in Hn as [Hn1 Hn2]. destruct H; eauto.
  - destruct H as (n & _ & _ & H). revert w g H.
    induction n as [|n IHn]; simpl; intros w g H.
    + tauto.
    + destruct H as (w1 & w2 & g1 & -> & H1 & H2).
      apply IH1 in H1; auto. apply IHn in H2. congruence.
Qed.

(** A sub-pattern without groups: its text, and the groups untouched. *)
Lemma mlang_plain r w g g' :
  no_groups r = true -> mlang r w g g' -> lang r w /\ g' = g.
Proof.
  intros Hn H. split; [eapply mlang_lang|eapply mlang_no_groups]; eauto.
Qed.

(** ** The shape of a match of each pattern *)

Lemma mlang_cat r1 r2 w g g' :
  mlang (Cat r1 r2) w g g' ->
  exists w1 w2 g1, w = w1 ++ w2 /\ mlang r1 w1 g g1 /\ mlang r2 w2 g1 g'.
Proof. exact (fun H => H). Qed.

Lemma mlang_alt r1 r2 w g g' :
  mlang (Alt r1 r2) w g g' -> mlang r1 w g g' \/ mlang r2 w g g'.
Proof. exact (fun H => H). Qed.

Lemma mlang_grp i r1 w g g' :
  mlang (Grp i r1) w g g' -> exists g1, mlang r1 w g g1 /\ g' = <[i := w]> g1.
Proof. exact (fun H => H). Qed.

Ltac minv H :=
  first
    [ apply mlang_plain in H; [|reflexivity];
      let E := fresh "E" in destruct H as [H E]; subst
    | let w1 := fresh "w" in
      let w2 := fresh "w" in
      let g1 := fresh "g" in
      let H1 := fresh H in
      let H2 := fresh H in
      apply mlang_cat in H; destruct H as (w1 & w2 & g1 & -> & H1 & H2);
      minv H1; minv H2
    | apply mlang_alt in H; destruct H as [H|H]; minv H
    | let g1 := fresh "g" in
      let E := fresh "E" in
      apply mlang_grp in H; destruct H as (g1 & H & E); minv H; subst ].

Lemma w_pattern_shape w g :
  mlang w_pattern w ∅ g ->
  (exists w1 w2, g = <[2%nat := w2]> (<[1%nat := w1]> ∅) /\
                 lang (Rep 2 (Some 4%nat) digit) w1 /\
                 lang (Rep 2 (Some 4%nat) digit) w2) \/
  (exists w3, g = <[3%nat := w3]> ∅ /\ lang (Rep 2 (Some 4%nat) digit) w3).
Proof.
  intros H. cbv [w_pattern seq alts] in H. minv H; eauto 10.
Qed.

Lemma pattern_budget_shape w g :
  mlang pattern_budget w ∅ g ->
  exists i wm, (i = 1 \/ i = 2 \/ i = 3)%nat /\
               g = <[i := wm]> ∅ /\ lang magnitude wm.
Proof.
  intros H. cbv [pattern_budget seq alts] in H. minv H; eauto 10.
Qed.

Lemma pattern_percent_shape w g :
  mlang pattern_percent w ∅ g ->
  (exists w1 w2, g = <[2%nat := w2]> (<[1%nat := w1]> ∅) /\
                 lang pct_number w1 /\ lang pct_number w2) \/
  (exists w3, g = <[3%nat := w3]> ∅ /\ lang pct_number w3).
Proof.
  intros H. cbv [pattern_percent seq alts] in H. minv H; eauto 10.
Qed.

Lemma pattern_time_shape w g :
  mlang pattern_time w ∅ g ->
  (exists w1 u1 w2 u2,
      g = <[4%nat := u2]> (<[3%nat := w2]> (<[2%nat := u1]> (<[1%nat := w1]> ∅))) /\
      lang (Rep 1 (Some 4%nat) digit) w1 /\ lang time_unit u1 /\
      lang (Rep 1 (Some 4%nat) digit) w2 /\ lang time_unit u2) \/
  (exists w5 u6,
      g = <[6%nat := u6]> (<[5%nat := w5]> ∅) /\
      lang (Rep 1 (Some 4%nat) digit) w5 /\ lang time_unit u6).
Proof.
  intros H. cbv [pattern_time seq alts] in H. minv H; eauto 15.
Qed.

(** ** Word counts *)

Lemma digits_between_lang lo hi w :
  lang (Rep lo (Some hi) digit) w -> digits_between lo hi w.
Proof. intros H. apply lang_digits in H. unfold digits_between. tauto. Qed.

Lemma digits_between_bound lo hi w :
  digits_between lo hi w ->
  0 <= decimal_value w < 10 ^ Z.of_nat hi.
Proof.
  intros [Hd Hl]. pose proof (decimal_value_bound w Hd) as Hb.
  assert (10 ^ Z.of_nat (length w) <= 10 ^ Z.of_nat hi)
    by (apply Z.pow_le_mono_r; lia).
  lia.
Qed.

Lemma digits_between_truthy lo hi w :
  digits_between lo hi w -> (1 <= lo)%nat -> truthy (Some w) = true.
Proof. intros [_ Hl] Hlo. destruct w; [simpl in Hl; lia|reflexivity]. Qed.

Lemma int_of_group_nocomma_digits lo hi w :
  digits_between lo hi w -> (1 <= lo)%nat -> (hi <= 4300)%nat ->
  int_of_group_nocomma (Some w) = Ok (decimal_value w).
Proof.
  intros [Hd Hl] Hlo Hhi. unfold int_of_group_nocomma.
  rewrite remove_comma_decimal, py_int_decimal; auto; [|lia].
  intros ->. simpl in Hl. lia.
Qed.

(** For a number of at most four digits the float computation
    [round(0.1 * v)] is exact: it gives [v / 10] rounded half to even. *)
Lemma tenth_exact v :
  0 <= v < 10000 ->
  float_of_int v = Ok (float_of_Z v) /\
  py_round (fmul f0_1 (float_of_Z v)) = Ok (round_half_even v 10).
Proof.
  intros Hv.
  assert (Hall : forallb tenth_ok (map Z.of_nat (List.seq 0 (Z.to_nat 10000))) = true)
    by (vm_compute; reflexivity).
  rewrite forallb_forall in Hall.
  assert (Hin : In v (map Z.of_nat (List.seq 0 (Z.to_nat 10000)))).
  { apply in_map_iff. exists (Z.to_nat v). split; [lia|].
    apply in_seq. lia. }
  apply Hall in Hin. unfold tenth_ok in Hin.
  unfold float_of_int in *.
  destruct (float_of_Z v) as [|s|s m e]; try discriminate.
  split; [reflexivity|].
  destruct (py_round (fmul f0_1 (FFin s m e))) as [r|]; [|discriminate].
  apply Z.eqb_eq in Hin. congruence.
Qed.

(** What the word-count block does, for every prompt. *)
Lemma word_count_cases prompt :
  (search w_pattern prompt = None /\ word_count prompt = Ok None) \/
  (exists w1 w2,
      search w_pattern prompt = Some (<[2%nat := w2]> (<[1%nat := w1]> ∅)) /\
      digits_between 2 4 w1 /\ digits_between 2 4 w2 /\
      word_count prompt =
        Ok (Some (word_range_record (decimal_value w1) (decimal_value w2)))) \/
  (exists w3,
      search w_pattern prompt = Some (<[3%nat := w3]> ∅) /\
      digits_between 2 4 w3 /\
      word_count prompt =
        Ok (Some (word_fixed_record (decimal_value w3)
                    (Z.max 10 (round_half_even (decimal_value w3) 10))))).
Proof.
  destruct (search w_pattern prompt) as [m|] eqn:Hs.
  - right. pose proof (search_msound _ _ _ Hs) as (_ & w & _ & _ & Hm).
    apply w_pattern_shape in Hm as [(w1 & w2 & -> & H1 & H2)|(w3 & -> & H3)].
    + left. apply digits_between_lang in H1, H2.
      exists w1, w2. split; [reflexivity|].
      split; [exact H1|]. split; [exact H2|].
      unfold word_count. rewrite Hs.
      rewrite lookup_insert_eq, lookup_insert_ne, lookup_insert_eq by discriminate.
      rewrite (digits_between_truthy _ _ _ H1), (digits_between_truthy _ _ _ H2)
        by lia.
      cbn [andb].
      rewrite (int_of_group_nocomma_digits _ _ _ H1),
        (int_of_group_nocomma_digits _ _ _ H2) by lia.
      reflexivity.
    + right. apply digits_between_lang in H3.
      exists w3. split; [reflexivity|]. split; [exact H3|].
      unfold word_count. rewrite Hs.
      rewrite lookup_insert_eq, !lookup_insert_ne, lookup_empty by discriminate.
      cbn [truthy andb].
      rewrite (int_of_group_nocomma_digits _ _ _ H3) by lia.
      pose proof (digits_between_bound _ _ _ H3) as Hb.
      destruct (tenth_exact (decimal_value w3)) as [E1 E2];
        [change (10 ^ Z.of_nat 4) with 10000 in Hb; lia|].
      cbn [mbind result_bind]. rewrite E1. cbn [mbind result_bind].
      rewrite E2. reflexivity.
  - left. split; [reflexivity|]. unfold word_count. rewrite Hs. reflexivity.
Qed.

(** ** Timeframes, percentages and budgets, for every prompt *)

Lemma int_of_group_digits lo hi w :
  digits_between lo hi w -> (1 <= lo)%nat -> (hi <= 4)%nat ->
  int_of_group (Some w) = Ok (decimal_value w).
Proof.
  intros [Hd Hl] Hlo Hhi. apply int_of_group_decimal; [exact Hd|lia].
Qed.

Lemma timeframe_cases prompt :
  (search pattern_time prompt = None /\ timeframe prompt = Ok None) \/
  (exists w1 u1 w2 u2,
      search pattern_time prompt =
        Some (<[4%nat := u2]> (<[3%nat := w2]> (<[2%nat := u1]>
             (<[1%nat := w1]> ∅)))) /\
      digits_between 1 4 w1 /\ digits_between 1 4 w2 /\
      lang time_unit u1 /\ lang time_unit u2 /\
      timeframe prompt =
        Ok (Some (timeframe_range_record (VStr u1)
                    (decimal_value w1) (decimal_value w2)))) \/
  (exists w5 u6,
      search pattern_time prompt = Some (<[6%nat := u6]> (<[5%nat := w5]> ∅)) /\
      digits_between 1 4 w5 /\ lang time_unit u6 /\
      timeframe prompt =
        Ok (Some (timeframe_fixed_record (VStr u6) (decimal_value w5)))).
Proof.
  destruct (search pattern_time prompt) as [m|] eqn:Hs.
  - right. pose proof (search_msound _ _ _ Hs) as (_ & w & _ & _ & Hm).
    apply pattern_time_shape in Hm
      as [(w1 & u1 & w2 & u2 & -> & H1 & U1 & H2 & U2)|(w5 & u6 & -> & H5 & U6)].
    + left. apply digits_between_lang in H1, H2.
      exists w1, u1, w2, u2. split; [reflexivity|].
      split; [exact H1|]. split; [exact H2|]. split; [exact U1|].
      split; [exact U2|].
      unfold timeframe. rewrite Hs.
      replace ((<[4%nat := u2]> (<[3%nat := w2]> (<[2%nat := u1]>
                 (<[1%nat := w1]> ∅)))) !! 1%nat) with (Some w1)
        by (rewrite !lookup_insert_ne, lookup_insert_eq by discriminate;
            reflexivity).
      replace ((<[4%nat := u2]> (<[3%nat := w2]> (<[2%nat := u1]>
                 (<[1%nat := w1]> ∅)))) !! 3%nat) with (Some w2)
        by (rewrite lookup_insert_ne, lookup_insert_eq by discriminate;
            reflexivity).
      replace ((<[4%nat := u2]> (<[3%nat := w2]> (<[2%nat := u1]>
                 (<[1%nat := w1]> ∅)))) !! 2%nat) with (Some u1)
        by (rewrite !lookup_insert_ne, lookup_insert_eq by discriminate;
            reflexivity).
      rewrite (digits_between_truthy _ _ _ H1), (digits_between_truthy _ _ _ H2)
        by lia.
      cbn [andb].
      rewrite (int_of_group_digits _ _ _ H1), (int_of_group_digits _ _ _ H2)
        by lia.
      reflexivity.
    + right. apply digits_between_lang in H5.
      exists w5, u6. split; [reflexivity|]. split; [exact H5|].
      split; [exact U6|].
      unfold timeframe. rewrite Hs.
      replace ((<[6%nat := u6]> (<[5%nat := w5]> ∅)) !! 1%nat)
        with (@None (list N))
        by (rewrite !lookup_insert_ne, lookup_empty by discriminate;
            reflexivity).
      replace ((<[6%nat := u6]> (<[5%nat := w5]> ∅)) !! 5%nat) with (Some w5)
        by (rewrite lookup_insert_ne, lookup_insert_eq by discriminate;
            reflexivity).
      rewrite lookup_insert_eq.
      rewrite (digits_between_truthy _ _ _ H5) by lia.
      rewrite (int_of_group_digits _ _ _ H5) by lia.
      reflexivity.
  - left. split; [reflexivity|]. unfold timeframe. rewrite Hs. reflexivity.
Qed.

Lemma pct_number_truthy w : lang pct_number w -> truthy (Some w) = true.
Proof.
  intros H. apply lang_pct_number in H as (ip & _ & Hl & [->|(fp & _ & _ & ->)]);
    destruct ip; simpl in Hl; try lia; reflexivity.
Qed.

Lemma percentage_cases prompt :
  (search pattern_percent prompt = None /\ percentage prompt = Ok None) \/
  (exists w1 w2 low high,
      search pattern_percent prompt =
        Some (<[2%nat := w2]> (<[1%nat := w1]> ∅)) /\
      lang pct_number w1 /\ lang pct_number w2 /\
      py_float w1 = Some low /\ py_float w2 = Some high /\
      percentage prompt = Ok (Some (pct_range_record low high))) \/
  (exists w3 v,
      search pattern_percent prompt = Some (<[3%nat := w3]> ∅) /\
      lang pct_number w3 /\ py_float w3 = Some v /\
      percentage prompt = Ok (Some (pct_fixed_record v))).
Proof.
  destruct (search pattern_percent prompt) as [m|] eqn:Hs.
  - right. pose proof (search_msound _ _ _ Hs) as (_ & w & _ & _ & Hm).
    apply pattern_percent_shape in Hm as [(w1 & w2 & -> & H1 & H2)|(w3 & -> & H3)].
    + left.
      destruct (py_float_pct _ H1) as (n1 & d1 & _ & _ & _ & F1).
      destruct (py_float_pct _ H2) as (n2 & d2 & _ & _ & _ & F2).
      exists w1, w2, (rnd false n1 d1), (rnd false n2 d2).
      split; [reflexivity|]. split; [exact H1|]. split; [exact H2|].
      split; [exact F1|]. split; [exact F2|].
      unfold percentage. rewrite Hs.
      rewrite lookup_insert_eq, lookup_insert_ne, lookup_insert_eq by discriminate.
      rewrite (pct_number_truthy _ H1), (pct_number_truthy _ H2).
      cbn [andb]. unfold float_of_group. rewrite F1, F2. reflexivity.
    + right. destruct (py_float_pct _ H3) as (n & d & _ & _ & _ & F3).
      exists w3, (rnd false n d).
      split; [reflexivity|]. split; [exact H3|]. split; [exact F3|].
      unfold percentage. rewrite Hs.
      rewrite lookup_insert_eq, !lookup_insert_ne, lookup_empty by discriminate.
      cbn [truthy andb]. unfold float_of_group. rewrite F3. reflexivity.
  - left. split; [reflexivity|]. unfold percentage. rewrite Hs. reflexivity.
Qed.

Lemma magnitude_truthy w : lang magnitude w -> truthy (Some w) = true.
Proof.
  cbv [magnitude seq]. intros (w1 & w2 & -> & H1 & _).
  apply lang_digits in H1 as (_ & Hl & _).
  destruct w1; [simpl in Hl; lia|reflexivity].
Qed.

Lemma budget_cases prompt :
  (search pattern_budget prompt = None /\ budget prompt = Ok None) \/
  (exists i wm,
      (i = 1 \/ i = 2 \/ i = 3)%nat /\
      search pattern_budget prompt = Some (<[i := wm]> ∅) /\
      lang magnitude wm /\
      budget prompt =
        match parse_amount (PStr wm) with
        | Ok amount => Ok (Some (budget_record i amount wm))
        | Raise e => Raise e
        end).
Proof.
  destruct (search pattern_budget prompt) as [m|] eqn:Hs.
  - right. pose proof (search_msound _ _ _ Hs) as (_ & w & _ & _ & Hm).
    apply pattern_budget_shape in Hm as (i & wm & Hi & -> & Hw).
    exists i, wm. split; [exact Hi|]. split; [reflexivity|].
    split; [exact Hw|].
    pose proof (magnitude_truthy _ Hw) as Ht.
    unfold budget. rewrite Hs.
    destruct wm as [|c t]; [discriminate Ht|].
    destruct Hi as [-> | [-> | ->]];
      rewrite ?lookup_insert_eq, ?lookup_insert_ne, ?lookup_empty by discriminate;
      unfold group_or; cbn [truthy];
      destruct (parse_amount (PStr (c :: t))); reflexivity.
  - left. split; [reflexivity|]. unfold budget. rewrite Hs. reflexivity.
Qed.

(** ** The keys of a result *)

Lemma parse_constraints_store prompt cs :
  parse_constraints prompt = Ok cs ->
  exists w b p t,
    word_count prompt = Ok w /\ budget prompt = Ok b /\
    percentage prompt = Ok p /\ timeframe prompt = Ok t /\
    cs = store "timeframe" t (store "percentage" p
           (store "budget" b (store "word_count" w ∅))).
Proof.
  unfold parse_constraints. intros Hcs.
  destruct (word_count prompt) as [w|]; [|discriminate Hcs].
  destruct (budget prompt) as [b|]; [|discriminate Hcs].
  destruct (percentage prompt) as [p|]; [|discriminate Hcs].
  destruct (timeframe prompt) as [t|]; [|discriminate Hcs].
  cbn in Hcs. injection Hcs as <-.
  exists w, b, p, t. repeat split; reflexivity.
Qed.

Lemma store_other key k rec (m : gmap string (gmap string value)) :
  k <> key -> store key rec m !! k = m !! k.
Proof.
  intros Hk. destruct rec; simpl; [|reflexivity].
  apply lookup_insert_ne. congruence.
Qed.

(** A result holds a record under a key exactly when the pattern of that
    key is found in the prompt, and holds nothing under any other key. *)
Theorem result_keys (prompt : list N) (cs : gmap string (gmap string value)) :
  parse_constraints prompt = Ok cs ->
  (cs !! "word_count" = None <-> search w_pattern prompt = None) /\
  (cs !! "budget" = None <-> search pattern_budget prompt = None) /\
  (cs !! "percentage" = None <-> search pattern_percent prompt = None) /\
  (cs !! "timeframe" = None <-> search pattern_time prompt = None) /\
  forall k, k <> "word_count" -> k <> "budget" -> k <> "percentage" ->
            k <> "timeframe" -> cs !! k = None.
Proof.
  intros Hcs.
  pose proof (parse_constraints_blocks _ _ Hcs)
    as (w & b & p & t & Hw & Hb & Hp & Ht & Lw & Lb & Lp & Lt).
  rewrite Lw, Lb, Lp, Lt.
  split; [|split; [|split; [|split]]].
  - destruct (word_count_cases prompt)
      as [[Hs E]|[(w1 & w2 & Hs & _ & _ & E)|(w3 & Hs & _ & E)]];
      rewrite Hs; rewrite E in Hw; injection Hw as <-;
      split; intros H; (reflexivity || discriminate H).
  - destruct (budget_cases prompt) as [[Hs E]|(i & wm & _ & Hs & _ & E)];
      rewrite Hs; rewrite E in Hb.
    + injection Hb as <-. tauto.
    + destruct (parse_amount (PStr wm)); [|discriminate Hb].
      injection Hb as <-. split; intros H; discriminate H.
  - destruct (percentage_cases prompt)
      as [[Hs E]|[(w1 & w2 & lo & hi & Hs & _ & _ & _ & _ & E)
                 |(w3 & v & Hs & _ & _ & E)]];
      rewrite Hs; rewrite E in Hp; injection Hp as <-;
      split; intros H; (reflexivity || discriminate H).
  - destruct (timeframe_cases prompt)
      as [[Hs E]|[(w1 & u1 & w2 & u2 & Hs & _ & _ & _ & _ & E)
                 |(w5 & u6 & Hs & _ & _ & E)]];
      rewrite Hs; rewrite E in Ht; injection Ht as <-;
      split; intros H; (reflexivity || discriminate H).
  - intros k K1 K2 K3 K4. clear Lw Lb Lp Lt.
    apply parse_constraints_store in Hcs
      as (w' & b' & p' & t' & _ & _ & _ & _ & ->).
    rewrite !store_other by assumption. apply lookup_empty.
Qed.

Lemma result_keys_witness :
  let prompt := u "Pilot runs for 90 days." in
  let cs := {[ "timeframe" :=
                 timeframe_fixed_record (VStr (u "days")) 90 ]} in
  parse_constraints prompt = Ok cs /\
  (cs !! "word_count" = None <-> search w_pattern prompt = None) /\
  (cs !! "budget" = None <-> search pattern_budget prompt = None) /\
  (cs !! "percentage" = None <-> search pattern_percent prompt = None) /\
  (cs !! "timeframe" = None <-> search pattern_time prompt = None) /\
  forall k, k <> "word_count" -> k <> "budget" -> k <> "percentage" ->
            k <> "timeframe" -> cs !! k = None.
Proof.
  intros prompt cs.
  assert (H : parse_constraints prompt = Ok cs) by (vm_compute; reflexivity).
  split; [exact H|]. exact (result_keys prompt cs H).
Defined.

(** ** The only fault *)

(** [parse_constraints] can fail in one way only: with the ValueError of
    [float()] on the remainder of the magnitude that the budget pattern
    found.  The word-count, percentage and timeframe blocks never fail. *)
Theorem only_fault (prompt : list N) (e : exn) :
  parse_constraints prompt = Raise e ->
  e = ValueError /\
  exists i wm,
    search pattern_budget prompt = Some (<[i := wm]> ∅) /\
    lang magnitude wm /\
    py_float (snd (amount_parts wm)) = None.
Proof.
  unfold parse_constraints. intros H.
  assert (Hw : exists w, word_count prompt = Ok w).
  { destruct (word_count_cases prompt)
      as [[_ E]|[(? & ? & _ & _ & _ & E)|(? & _ & _ & E)]]; eauto. }
  assert (Hp : exists p, percentage prompt = Ok p).
  { destruct (percentage_cases prompt)
      as [[_ E]|[(? & ? & ? & ? & _ & _ & _ & _ & _ & E)|(? & ? & _ & _ & _ & E)]];
      eauto. }
  assert (Ht : exists t, timeframe prompt = Ok t).
  { destruct (timeframe_cases prompt)
      as [[_ E]|[(? & ? & ? & ? & _ & _ & _ & _ & _ & E)|(? & ? & _ & _ & _ & E)]];
      eauto. }
  destruct Hw as [w Hw], Hp as [p Hp], Ht as [t Ht].
  rewrite Hw, Hp, Ht in H. cbn [mbind result_bind] in H.
  destruct (budget_cases prompt) as [[_ E]|(i & wm & _ & Hs & Hm & E)];
    rewrite E in H; [discriminate H|].
  rewrite parse_amount_text in H.
  destruct (py_float (snd (amount_parts wm))) eqn:F; [discriminate H|].
  cbn in H. injection H as <-. split; [reflexivity|].
  exists i, wm. auto.
Qed.

Lemma only_fault_witness :
  parse_constraints prompt_dotted_I = Raise ValueError /\
  ValueError = ValueError /\
  exists i wm,
    search pattern_budget prompt_dotted_I = Some (<[i := wm]> ∅) /\
    lang magnitude wm /\
    py_float (snd (amount_parts wm)) = None.
Proof.
  assert (H : parse_constraints prompt_dotted_I = Raise ValueError)
    by (vm_compute; reflexivity).
  split; [exact H|]. exact (only_fault prompt_dotted_I ValueError H).
Defined.

(** ** The records of a result *)






(** ** Characters *)

Lemma is_space_spec c :
  is_space c = true ->
  (9 <= c <= 13 \/ 28 <= c <= 32 \/ c = 0x85 \/ c = 0xa0 \/ c = 0x1680 \/
   0x2000 <= c <= 0x200a \/ c = 0x2028 \/ c = 0x2029 \/ c = 0x202f \/
   c = 0x205f \/ c = 0x3000)%N.
Proof.
  unfold is_space.
  rewrite !orb_true_iff, !andb_true_iff, !N.leb_le, !N.eqb_eq. tauto.
Qed.

Lemma decimal_not_space c : is_decimal c = true -> is_space c = false.
Proof.
  intros H. apply negb_true_iff.
  revert c H. apply (decimal_forall (fun c => negb (is_space c))).
  vm_compute. reflexivity.
Qed.

Lemma decimal_inert c : is_decimal c = true -> inert_char c = true.
Proof. apply (decimal_forall inert_char). vm_compute. reflexivity. Qed.

Lemma number_char_inert c : number_char c = true -> inert_char c = true.
Proof.
  unfold number_char. rewrite !orb_true_iff, !N.eqb_eq.
  intros [[H| ->]| ->]; [apply decimal_inert, H|reflexivity|reflexivity].
Qed.

Lemma number_char_not_space c : number_char c = true -> is_space c = false.
Proof.
  unfold number_char. rewrite !orb_true_iff, !N.eqb_eq.
  intros [[H| ->]| ->]; [apply decimal_not_space, H|reflexivity|reflexivity].
Qed.

Lemma sre_lower_space c : is_space c = true -> sre_lower c = c.
Proof.
  intros H. apply is_space_spec in H.
  unfold sre_lower, is_ascii_upper.
  destruct (N.leb_spec 0x41 c), (N.leb_spec c 0x5a); cbn [andb]; try lia;
    destruct (N.eqb_spec c 0x130); try lia;
    destruct (N.eqb_spec c 0x212a); try lia; reflexivity.
Qed.

Lemma space_inert c : is_space c = true -> inert_char c = true.
Proof.
  intros H. pose proof (sre_lower_space c H) as Hl.
  apply is_space_spec in H.
  unfold inert_char, lit_ic. rewrite Hl.
  change (sre_lower 0x6d) with 0x6d%N. change (sre_lower 0x62) with 0x62%N.
  change (is_ascii_lower 0x6d) with true. change (is_ascii_lower 0x62) with true.
  cbn [sre_fixes existsb N.eqb Pos.eqb orb].
  unfold is_ascii_upper.
  destruct (N.leb_spec 0x41 c), (N.leb_spec c 0x5a); cbn [andb negb]; try lia;
    destruct (N.eqb_spec c 0x130); try lia;
    destruct (N.eqb_spec c 0x212a); try lia;
    destruct (N.eqb_spec c 0x24); try lia;
    destruct (N.eqb_spec c 0x6d); try lia;
    destruct (N.eqb_spec c 0x62); try lia; reflexivity.
Qed.

Lemma inert_lower c : inert_char c = true -> lower_char c = [c].
Proof.
  unfold inert_char, lower_char.
  rewrite !andb_true_iff, !negb_true_iff.
  intros [[[[[-> ->] ->] _] _] _]. reflexivity.
Qed.

Lemma inert_not_dollar c : inert_char c = true -> (c =? 0x24)%N = false.
Proof.
  unfold inert_char. rewrite !andb_true_iff, !negb_true_iff. tauto.
Qed.

Lemma inert_not_m c : inert_char c = true -> lit_ic 0x6d c = false.
Proof.
  unfold inert_char. rewrite !andb_true_iff, !negb_true_iff. tauto.
Qed.

Lemma inert_not_b c : inert_char c = true -> lit_ic 0x62 c = false.
Proof.
  unfold inert_char. rewrite !andb_true_iff, !negb_true_iff. tauto.
Qed.

Lemma lit_ic_refl_m c : c = 0x6d%N -> lit_ic 0x6d c = true.
Proof. intros ->. reflexivity. Qed.

Lemma py_lower_inert s :
  Forall (fun c => inert_char c = true) s -> py_lower s = s.
Proof.
  unfold py_lower. induction 1 as [|c s Hc _ IH]; [reflexivity|].
  cbn [flat_map]. rewrite (inert_lower c Hc), IH. reflexivity.
Qed.

Lemma remove_dollar_inert s :
  Forall (fun c => inert_char c = true) s -> remove_char 0x24 s = s.
Proof.
  unfold remove_char. induction 1 as [|c s Hc _ IH]; [reflexivity|].
  cbn [filter list_filter]. rewrite decide_True.
  - f_equal. exact IH.
  - rewrite (inert_not_dollar c Hc). exact I.
Qed.

(** ** Text operations of [parse_amount] *)

Lemma lstrip_keep c t : is_space c = false -> lstrip (c :: t) = c :: t.
Proof. intros H. simpl. rewrite H. reflexivity. Qed.

(** [strip()] leaves a text that neither starts nor ends with white
    space. *)
Lemma py_strip_ends s c t b l :
  s = c :: t -> s = b ++ [l] ->
  is_space c = false -> is_space l = false -> py_strip s = s.
Proof.
  intros H1 H2 Hc Hl. unfold py_strip, rstrip.
  rewrite H1, (lstrip_keep c t Hc), <- H1, H2.
  rewrite rev_app_distr. cbn [rev app].
  rewrite (lstrip_keep l _ Hl). cbn [rev].
  rewrite rev_involutive. reflexivity.
Qed.

Lemma contains_unfold p s :
  contains p s =
  starts_with p s || match s with [] => false | _ :: s' => contains p s' end.
Proof. destruct s; reflexivity. Qed.

Lemma starts_with_app p s : starts_with p (p ++ s) = true.
Proof.
  induction p as [|a p IH]; [reflexivity|].
  cbn [app starts_with]. rewrite N.eqb_refl, IH. reflexivity.
Qed.

Lemma contains_suffix a p s : contains p (a ++ p ++ s) = true.
Proof.
  induction a as [|c a IH].
  - cbn [app]. rewrite contains_unfold, starts_with_app. reflexivity.
  - cbn [app]. rewrite contains_unfold, IH. apply orb_true_r.
Qed.

Lemma contains_none p0 p s :
  Forall (fun c => (p0 =? c)%N = false) s -> contains (p0 :: p) s = false.
Proof.
  induction 1 as [|c s Hc _ IH]; [reflexivity|].
  rewrite contains_unfold. cbn [starts_with]. rewrite Hc, IH. reflexivity.
Qed.

Lemma sub_empty_skip r n s : (length s <= n)%nat -> sub_empty r n s = [].
Proof.
  revert n. induction s as [|x s IH]; intros n Hn; [reflexivity|].
  destruct n as [|n]; [simpl in Hn; lia|].
  cbn [sub_empty]. apply IH. simpl in Hn. lia.
Qed.

Lemma sub_empty_prefix r body tail :
  Forall (fun c => forall rest, match_at r (c :: rest) = None) body ->
  sub_empty r 0 (body ++ tail) = body ++ sub_empty r 0 tail.
Proof.
  induction 1 as [|c body Hc _ IH]; [reflexivity|].
  cbn [app sub_empty]. rewrite Hc, IH. reflexivity.
Qed.

(** A whole match at the head of [s] makes [re.sub] drop all of [s]. *)
Lemma sub_empty_whole r s g :
  match_at r s = Some ([], g) -> sub_empty r 0 s = [].
Proof.
  intros H. destruct s as [|x s]; [reflexivity|].
  cbn [sub_empty]. rewrite H. cbn [length Nat.sub].
  apply sub_empty_skip. lia.
Qed.

(** [\s*] takes all the white space in front of a text that does not
    start with white space. *)
Lemma rep_spaces_greedy {A : Type} (k : list N -> gmap nat (list N) -> option A)
    ws rest g a fuel :
  Forall (fun c => is_space c = true) ws ->
  (length ws <= fuel)%nat ->
  match rest with c :: _ => is_space c = false | [] => True end ->
  k rest g = Some a ->
  rep_loop (rmatch (Chr CSpace)) k fuel 0 (ws ++ rest) g = Some a.
Proof.
  intros Hws. revert fuel. induction Hws as [|c ws Hc _ IH]; intros fuel Hf Hr Hk.
  - cbn [app]. destruct fuel as [|fuel]; [exact Hk|].
    cbn [rep_loop]. destruct rest as [|c rest]; cbn [rmatch]; [exact Hk|].
    cbn [cls_ok]. rewrite Hr. exact Hk.
  - destruct fuel as [|fuel]; [simpl in Hf; lia|].
    cbn [app rep_loop rmatch cls_ok]. rewrite Hc.
    cbn [pred]. rewrite IH; auto. simpl in Hf. lia.
Qed.

Lemma match_at_sp_million ws :
  Forall (fun c => is_space c = true) ws ->
  match_at sp_million (ws ++ u "million") = Some ([], ∅).
Proof.
  intros Hws. unfold match_at, sp_million, seq, spaces. cbn [rmatch].
  apply rep_spaces_greedy;
    [exact Hws|rewrite length_app; lia|reflexivity|reflexivity].
Qed.

Lemma match_at_sp_billion ws :
  Forall (fun c => is_space c = true) ws ->
  match_at sp_billion (ws ++ u "billion") = Some ([], ∅).
Proof.
  intros Hws. unfold match_at, sp_billion, seq, spaces. cbn [rmatch].
  apply rep_spaces_greedy;
    [exact Hws|rewrite length_app; lia|reflexivity|reflexivity].
Qed.

Lemma match_at_sp_million_none c rest :
  is_space c = false -> lit_ic 0x6d c = false ->
  match_at sp_million (c :: rest) = None.
Proof.
  intros Hs Hm. unfold match_at, sp_million, seq, spaces.
  change (lit "million") with (Cat (Chr (CLit 0x6d)) (lit "illion")).
  cbn [rmatch length rep_loop cls_ok]. rewrite Hs, Hm. reflexivity.
Qed.

Lemma match_at_sp_billion_none c rest :
  is_space c = false -> lit_ic 0x62 c = false ->
  match_at sp_billion (c :: rest) = None.
Proof.
  intros Hs Hm. unfold match_at, sp_billion, seq, spaces.
  change (lit "billion") with (Cat (Chr (CLit 0x62)) (lit "illion")).
  cbn [rmatch length rep_loop cls_ok]. rewrite Hs, Hm. reflexivity.
Qed.

(** ** The magnitude word *)

Lemma sre_lower_lower p : is_ascii_lower p = true -> sre_lower p = p.
Proof.
  unfold is_ascii_lower, sre_lower, is_ascii_upper. intros H.
  apply andb_prop in H as [H1 H2]. apply N.leb_le in H1, H2.
  destruct (N.leb_spec 0x41 p), (N.leb_spec p 0x5a); cbn [andb]; try lia;
    destruct (N.eqb_spec p 0x130); try lia;
    destruct (N.eqb_spec p 0x212a); try lia; reflexivity.
Qed.

Lemma sre_lower_cases c :
  (0x41 <= c <= 0x5a /\ sre_lower c = c + 32)%N \/
  (c = 0x130 /\ sre_lower c = 0x69)%N \/
  (c = 0x212a /\ sre_lower c = 0x6b)%N \/
  ((c < 0x41 \/ 0x5a < c) /\ c <> 0x130 /\ c <> 0x212a /\ sre_lower c = c)%N.
Proof.
  unfold sre_lower, is_ascii_upper.
  destruct (N.leb_spec 0x41 c), (N.leb_spec c 0x5a); cbn [andb];
    try (left; split; [lia|reflexivity]);
    destruct (N.eqb_spec c 0x130); try (subst; right; left; split; reflexivity);
    destruct (N.eqb_spec c 0x212a);
    try (subst; right; right; left; split; reflexivity);
    right; right; right; repeat split; auto; lia.
Qed.

(** What a letter of a pattern, other than k and s, matches without
    regard to case: itself, its capital and, for i, U+0130 and U+0131. *)
Lemma lit_ic_letter p c :
  is_ascii_lower p = true -> p <> 0x6b%N -> p <> 0x73%N ->
  lit_ic p c = true ->
  (c = p \/ c + 32 = p \/ c = 0x130 \/ c = 0x131)%N.
Proof.
  intros Hp Hk Hs H. unfold lit_ic in H. cbv zeta in H.
  rewrite (sre_lower_lower p Hp), Hp in H.
  unfold is_ascii_lower in Hp.
  apply andb_prop in Hp as [H1 H2]. apply N.leb_le in H1, H2.
  apply orb_prop in H as [H|H].
  - apply N.eqb_eq in H.
    destruct (sre_lower_cases c) as [[? E]|[[? E]|[[? E]|(? & ? & ? & E)]]];
      rewrite E in H; lia.
  - unfold sre_fixes in H.
    destruct (N.eqb_spec p 0x69).
    + cbn [existsb] in H. rewrite orb_false_r in H. apply N.eqb_eq in H.
      destruct (sre_lower_cases c) as [[? E]|[[? E]|[[? E]|(? & ? & ? & E)]]];
        rewrite E in H; lia.
    + destruct (N.eqb_spec p 0x73); [contradiction|discriminate H].
Qed.

Lemma letter_lower p c :
  is_ascii_lower p = true -> p <> 0x6b%N -> p <> 0x73%N ->
  lit_ic p c = true -> c <> 0x130%N -> c <> 0x131%N ->
  lower_char c = [p] /\ is_space c = false.
Proof.
  intros Hp Hk Hs H N1 N2.
  destruct (lit_ic_letter p c Hp Hk Hs H) as [E|[E|[E|E]]]; try contradiction.
  - subst c. unfold is_ascii_lower in Hp.
    apply andb_prop in Hp as [H1 H2]. apply N.leb_le in H1, H2. split.
    + unfold lower_char, is_ascii_upper.
      destruct (N.leb_spec 0x41 p), (N.leb_spec p 0x5a); cbn [andb]; try lia;
        destruct (N.eqb_spec p 0x130); try lia;
        destruct (N.eqb_spec p 0x212a); try lia; reflexivity.
    + destruct (is_space p) eqn:Esp; [|reflexivity].
      apply is_space_spec in Esp. lia.
  - unfold is_ascii_lower in Hp.
    apply andb_prop in Hp as [H1 H2]. apply N.leb_le in H1, H2. split.
    + unfold lower_char, is_ascii_upper.
      destruct (N.leb_spec 0x41 c), (N.leb_spec c 0x5a); cbn [andb]; try lia.
      rewrite E. reflexivity.
    + destruct (is_space c) eqn:Esp; [|reflexivity].
      apply is_space_spec in Esp. lia.
Qed.

Lemma lang_lit_chars ps w :
  lang (fold_right (fun c r => Cat (Chr (CLit c)) r) Eps ps) w ->
  Forall2 (fun p c => lit_ic p c = true) ps w.
Proof.
  revert w. induction ps as [|p ps IH]; intros w H; cbn [fold_right lang] in H.
  - subst. constructor.
  - destruct H as (w1 & w2 & -> & (x & -> & Hx) & H2).
    constructor; [exact Hx|]. apply IH. exact H2.
Qed.

(** A magnitude word written without U+0130 and U+0131 is lowered to the
    word of the pattern, and holds no white space. *)
Lemma lower_word ps w :
  Forall2 (fun p c => lit_ic p c = true) ps w ->
  Forall (fun p => is_ascii_lower p = true /\ p <> 0x6b%N /\ p <> 0x73%N) ps ->
  no_dotted_i w ->
  py_lower w = ps /\ Forall (fun c => is_space c = false) w.
Proof.
  unfold py_lower, no_dotted_i.
  induction 1 as [|p c ps w Hpc _ IH]; intros Hps Hw.
  - split; [reflexivity|constructor].
  - inversion Hps as [|? ? (Hp & Hk & Hs) Hps']; subst.
    inversion Hw as [|? ? (N1 & N2) Hw']; subst.
    destruct (letter_lower p c Hp Hk Hs Hpc N1 N2) as [E1 E2].
    destruct (IH Hps' Hw') as [E3 E4].
    split; [|constructor; assumption].
    cbn [flat_map]. rewrite E1, E3. reflexivity.
Qed.

Lemma magnitude_word_lower (big : bool) wd :
  lang (lit (if big then "billion" else "million")) wd ->
  no_dotted_i wd ->
  py_lower wd = u (if big then "billion" else "million") /\
  Forall (fun c => is_space c = false) wd /\
  exists b l, wd = b ++ [l].
Proof.
  intros H Hn.
  assert (H2 : Forall2 (fun p c => lit_ic p c = true)
                 (u (if big then "billion" else "million")) wd)
    by (apply lang_lit_chars; exact H).
  destruct (lower_word _ _ H2) as [E1 E2]; [|exact Hn|].
  - destruct big; repeat constructor; discriminate.
  - split; [exact E1|]. split; [exact E2|].
    assert (Hlen : length wd = 7%nat).
    { apply Forall2_length in H2. rewrite <- H2. destruct big; reflexivity. }
    destruct (rev wd) as [|l b] eqn:Er.
    + apply (f_equal (@length N)) in Er. rewrite length_rev in Er.
      simpl in Er. lia.
    + exists (rev b), l. rewrite <- (rev_involutive wd), Er. reflexivity.
Qed.

(** ** The amount of a magnitude text *)

Lemma lstrip_nospace s :
  Forall (fun c => is_space c = false) s -> lstrip s = s.
Proof. destruct 1 as [|c s Hc _]; [reflexivity|apply lstrip_keep, Hc]. Qed.

Lemma py_strip_nospace s :
  Forall (fun c => is_space c = false) s -> py_strip s = s.
Proof.
  intros H. unfold py_strip, rstrip. rewrite (lstrip_nospace s H).
  rewrite lstrip_nospace; [apply rev_involutive|].
  apply Forall_rev. exact H.
Qed.

Lemma remove_char_app c a b :
  remove_char c (a ++ b) = remove_char c a ++ remove_char c b.
Proof. unfold remove_char. apply filter_app. Qed.

Lemma remove_comma_groups gs :
  Forall all_decimal gs ->
  remove_char 0x2c (concat (map (cons 0x2c%N) gs)) = concat gs.
Proof.
  induction 1 as [|g gs Hg _ IH]; [reflexivity|].
  cbn [map concat]. change (0x2c%N :: g) with ([0x2c%N] ++ g).
  rewrite <- app_assoc, !remove_char_app, IH, (remove_comma_decimal g Hg).
  reflexivity.
Qed.

Lemma remove_comma_fraction fr :
  fraction_text fr -> remove_char 0x2c fr = fr.
Proof.
  intros [->|(fp & Hfp & _ & ->)]; [reflexivity|].
  change (0x2e%N :: fp) with ([0x2e%N] ++ fp).
  rewrite remove_char_app, (remove_comma_decimal fp Hfp). reflexivity.
Qed.

Lemma all_decimal_concat gs : Forall all_decimal gs -> all_decimal (concat gs).
Proof.
  induction 1 as [|g gs Hg _ IH]; [constructor|].
  cbn [concat]. apply Forall_app. split; assumption.
Qed.

Lemma number_chars d1 gs fr :
  all_decimal d1 -> Forall all_decimal gs -> fraction_text fr ->
  Forall (fun c => number_char c = true)
    (d1 ++ concat (map (cons 0x2c%N) gs) ++ fr).
Proof.
  intros H1 Hgs Hfr.
  assert (Hd : forall w, all_decimal w ->
                         Forall (fun c => number_char c = true) w).
  { intros w Hw. eapply Forall_impl; [exact Hw|].
    intros c Hc. unfold number_char. cbn beta in Hc. rewrite Hc. reflexivity. }
  apply Forall_app. split; [apply Hd, H1|].
  apply Forall_app. split.
  - induction Hgs as [|g gs Hg _ IH]; [constructor|].
    cbn [map concat]. constructor; [reflexivity|].
    apply Forall_app. split; [apply Hd, Hg|exact IH].
  - destruct Hfr as [->|(fp & Hfp & _ & ->)]; [constructor|].
    constructor; [reflexivity|apply Hd, Hfp].
Qed.

(** [float()] of the number, commas taken away *)
Lemma py_float_number d1 gs fr :
  all_decimal d1 -> d1 <> [] -> Forall all_decimal gs -> fraction_text fr ->
  exists f, py_float (d1 ++ concat gs ++ fr) = Some f.
Proof.
  intros H1 Hne Hgs Hfr.
  assert (Hip : all_decimal (d1 ++ concat gs))
    by (apply Forall_app; split; [exact H1|apply all_decimal_concat, Hgs]).
  assert (Hne' : d1 ++ concat gs <> [])
    by (destruct d1; [contradiction|discriminate]).
  rewrite app_assoc.
  destruct Hfr as [->|(fp & Hfp & Hnf & ->)].
  - rewrite app_nil_r. eexists. apply py_float_int; assumption.
  - eexists. apply py_float_frac; assumption.
Qed.

(** What [parse_amount] makes of a magnitude text: the multiplier of the
    word, and the number without its commas for [float()]. *)
Lemma amount_parts_magnitude (dollar big : bool) d1 gs fr ws wd :
  all_decimal d1 -> d1 <> [] -> Forall all_decimal gs -> fraction_text fr ->
  Forall (fun c => is_space c = true) ws ->
  lang (lit (if big then "billion" else "million")) wd ->
  no_dotted_i wd ->
  amount_parts (magnitude_text dollar d1 gs fr ws wd) =
  (if big then f1e9 else f1e6, d1 ++ concat gs ++ fr).
Proof.
  intros H1 Hne Hgs Hfr Hws Hwd Hni.
  destruct (magnitude_word_lower big wd Hwd Hni) as (Elow & Hnsp & b & l & Ewd).
  pose proof (number_chars d1 gs fr H1 Hgs Hfr) as Hnum.
  set (body := d1 ++ concat (map (cons 0x2c%N) gs) ++ fr) in *.
  assert (Hbody_inert : Forall (fun c => inert_char c = true) body).
  { eapply Forall_impl; [exact Hnum|]. exact number_char_inert. }
  assert (Hws_inert : Forall (fun c => inert_char c = true) ws).
  { eapply Forall_impl; [exact Hws|]. exact space_inert. }
  assert (Etext : magnitude_text dollar d1 gs fr ws wd =
                  (if dollar then [0x24%N] else []) ++ body ++ ws ++ wd).
  { unfold magnitude_text, body. rewrite <- !app_assoc. reflexivity. }
  unfold amount_parts. rewrite Etext.
  (* strip() *)
  assert (Estrip : py_strip ((if dollar then [0x24%N] else []) ++ body ++ ws ++ wd)
                   = (if dollar then [0x24%N] else []) ++ body ++ ws ++ wd).
  { assert (Hl : is_space l = false).
    { rewrite Ewd in Hnsp. apply Forall_app in Hnsp as [_ Hnsp].
      inversion Hnsp; assumption. }
    destruct d1 as [|c d1']; [contradiction|].
    assert (Hc : is_space c = false).
    { inversion H1; subst. apply decimal_not_space. assumption. }
    destruct dollar.
    - eapply (py_strip_ends _ 0x24%N _ ([0x24%N] ++ body ++ ws ++ b) l);
        [reflexivity| |reflexivity|exact Hl].
      rewrite Ewd, <- !app_assoc. reflexivity.
    - eapply (py_strip_ends _ c _ (body ++ ws ++ b) l);
        [reflexivity| |exact Hc|exact Hl].
      rewrite Ewd, <- !app_assoc. reflexivity. }
  rewrite Estrip.
  (* lower() and replace('$', '') *)
  assert (Evalue1 : remove_char 0x24
                      (py_lower ((if dollar then [0x24%N] else []) ++ body ++ ws ++ wd))
                    = body ++ ws ++ u (if big then "billion" else "million")).
  { unfold py_lower. rewrite !flat_map_app. fold (py_lower body) (py_lower ws)
      (py_lower wd).
    rewrite (py_lower_inert body Hbody_inert), (py_lower_inert ws Hws_inert), Elow.
    rewrite !remove_char_app, (remove_dollar_inert body Hbody_inert),
      (remove_dollar_inert ws Hws_inert).
    destruct dollar, big; reflexivity. }
  rewrite Evalue1.
  assert (Hbody_nosp : Forall (fun c => is_space c = false) body).
  { eapply Forall_impl; [exact Hnum|]. exact number_char_not_space. }
  assert (Enum : py_strip (remove_char 0x2c body) = d1 ++ concat gs ++ fr).
  { unfold body. rewrite !remove_char_app, (remove_comma_decimal d1 H1),
      (remove_comma_groups gs Hgs), (remove_comma_fraction fr Hfr).
    apply py_strip_nospace.
    assert (Hd : forall w, all_decimal w ->
                           Forall (fun c => is_space c = false) w).
    { intros w Hw. eapply Forall_impl; [exact Hw|]. exact decimal_not_space. }
    apply Forall_app. split; [apply Hd, H1|].
    apply Forall_app. split; [apply Hd, all_decimal_concat, Hgs|].
    destruct Hfr as [->|(fp & Hfp & _ & ->)]; [constructor|].
    constructor; [reflexivity|apply Hd, Hfp]. }
  destruct big.
  - (* billion *)
    assert (Hno : contains (u "million") (body ++ ws ++ u "billion") = false).
    { apply (contains_none 0x6d%N (u "illion")). apply Forall_app. split; [|apply Forall_app; split].
      - eapply Forall_impl; [exact Hbody_inert|]. intros c Hc. cbn beta.
        apply inert_not_m in Hc. destruct (N.eqb_spec 0x6d c); [|reflexivity].
        subst c. discriminate Hc.
      - eapply Forall_impl; [exact Hws_inert|]. intros c Hc. cbn beta.
        apply inert_not_m in Hc. destruct (N.eqb_spec 0x6d c); [|reflexivity].
        subst c. discriminate Hc.
      - repeat constructor. }
    rewrite Hno.
    assert (Hyes : contains (u "billion") (body ++ ws ++ u "billion") = true).
    { rewrite app_assoc, <- (app_nil_r (u "billion")). apply contains_suffix. }
    rewrite Hyes.
    rewrite sub_empty_prefix.
    + rewrite (sub_empty_whole _ _ _ (match_at_sp_billion ws Hws)), app_nil_r.
      rewrite Enum. reflexivity.
    + eapply Forall_impl; [exact Hnum|]. intros c Hc rest.
      apply match_at_sp_billion_none;
        [apply number_char_not_space, Hc|apply inert_not_b, number_char_inert, Hc].
  - (* million *)
    assert (Hyes : contains (u "million") (body ++ ws ++ u "million") = true).
    { rewrite app_assoc, <- (app_nil_r (u "million")). apply contains_suffix. }
    rewrite Hyes.
    rewrite sub_empty_prefix.
    + rewrite (sub_empty_whole _ _ _ (match_at_sp_million ws Hws)), app_nil_r.
      rewrite Enum. reflexivity.
    + eapply Forall_impl; [exact Hnum|]. intros c Hc rest.
      apply match_at_sp_million_none;
        [apply number_char_not_space, Hc|apply inert_not_m, number_char_inert, Hc].
Qed.

(** ** Groups are parts of the text *)

Lemma part_of_refl x : part_of x x.
Proof. exists [], []. rewrite app_nil_r. reflexivity. Qed.

Lemma part_of_app_l x w1 w2 : part_of x w1 -> part_of x (w1 ++ w2).
Proof.
  intros (a & b & ->). exists a, (b ++ w2). rewrite <- !app_assoc. reflexivity.
Qed.

Lemma part_of_app_r x w1 w2 : part_of x w2 -> part_of x (w1 ++ w2).
Proof.
  intros (a & b & ->). exists (w1 ++ a), b. rewrite <- !app_assoc. reflexivity.
Qed.

Lemma part_of_trans x y z : part_of x y -> part_of y z -> part_of x z.
Proof.
  intros (a & b & ->) (c & d & ->). exists (c ++ a), (b ++ d).
  rewrite <- !app_assoc. reflexivity.
Qed.

Lemma no_dotted_i_part x w : part_of x w -> no_dotted_i w -> no_dotted_i x.
Proof.
  intros (a & b & ->) H. unfold no_dotted_i in *.
  apply Forall_app in H as [_ H]. apply Forall_app in H as [H _]. exact H.
Qed.

Lemma mlang_group_part r :
  forall w g g' i x,
    mlang r w g g' -> g' !! i = Some x -> g !! i = Some x \/ part_of x w.
Proof.
  induction r as [|c|r1 IH1 r2 IH2|r1 IH1 r2 IH2|lo hi r1 IH1|j r1 IH1];
    simpl; intros w g g' i x H Hx.
  - destruct H as [_ ->]. auto.
  - destruct H as [_ ->]. auto.
  - destruct H as (w1 & w2 & g1 & -> & H1 & H2).
    destruct (IH2 _ _ _ _ _ H2 Hx) as [Hx1|P]; [|right; apply part_of_app_r, P].
    destruct (IH1 _ _ _ _ _ H1 Hx1) as [Hx0|P]; [left; exact Hx0|].
    right. apply part_of_app_l, P.
  - destruct H as [H|H]; eauto.
  - destruct H as (n & _ & _ & H). revert w g H.
    induction n as [|n IHn]; simpl; intros w g H.
    + destruct H as [_ ->]. auto.
    + destruct H as (w1 & w2 & g1 & -> & H1 & H2).
      destruct (IHn _ _ H2) as [Hx1|P]; [|right; apply part_of_app_r, P].
      destruct (IH1 _ _ _ _ _ H1 Hx1) as [Hx0|P]; [left; exact Hx0|].
      right. apply part_of_app_l, P.
  - destruct H as (g1 & H & ->).
    destruct (decide (j = i)) as [->|Hne].
    + rewrite lookup_insert_eq in Hx. injection Hx as <-.
      right. apply part_of_refl.
    + rewrite lookup_insert_ne in Hx by exact Hne.
      eapply IH1; eauto.
Qed.

(** Every group of a match found by [search] is a part of the text. *)
Lemma search_group_part r s g i x :
  search r s = Some g -> g !! i = Some x -> part_of x s.
Proof.
  intros Hs Hx. apply search_msound in Hs as (pre & w & post & -> & Hm).
  destruct (mlang_group_part _ _ _ _ _ _ Hm Hx) as [H|P].
  - rewrite lookup_empty in H. discriminate H.
  - apply part_of_app_r, part_of_app_l, P.
Qed.

(** ** Magnitudes *)

Lemma lang_lit_comma x : lang (lit ",") x -> x = [0x2c%N].
Proof.
  change (lit ",") with (Cat (Chr (CLit 44%N)) Eps).
  intros (d & e & -> & (c & -> & Hc) & ->).
  change (cls_ok (CLit 44) c) with (c =? 44)%N in Hc.
  apply N.eqb_eq in Hc. subst. reflexivity.
Qed.

Lemma lang_spaces w : lang spaces w -> Forall (fun c => is_space c = true) w.
Proof.
  intros (ws & -> & Hws & _). induction Hws as [|x ws Hx _ IH]; [constructor|].
  destruct Hx as (c & -> & Hc). cbn [concat app]. constructor; assumption.
Qed.

Lemma lit_chars_lang ps w :
  Forall2 (fun p c => lit_ic p c = true) ps w ->
  lang (fold_right (fun c r => Cat (Chr (CLit c)) r) Eps ps) w.
Proof.
  induction 1 as [|p c ps w Hpc _ IH]; cbn [fold_right lang]; [reflexivity|].
  exists [c], w. repeat split; [|exact IH]. exists c. auto.
Qed.

(** The texts the magnitude of the budget pattern matches. *)
Lemma lang_magnitude w :
  lang magnitude w ->
  exists d1 gs fr ws wd (big : bool),
    w = magnitude_text false d1 gs fr ws wd /\
    digits_between 1 3 d1 /\
    Forall (digits_between 3 3) gs /\
    fraction_text fr /\
    Forall (fun c => is_space c = true) ws /\
    lang (lit (if big then "billion" else "million")) wd.
Proof.
  cbv [magnitude seq alts].
  intros (d1 & w2 & -> & H1 & cg & w3 & -> & H2 & fr & w4 & -> & H3 &
          ws & wd & -> & H4 & H5).
  apply digits_between_lang in H1. apply lang_spaces in H4.
  assert (Hgs : exists gs, cg = concat (map (cons 0x2c%N) gs) /\
                           Forall (digits_between 3 3) gs).
  { destruct H2 as (xs & -> & Hxs & _).
    induction Hxs as [|x xs Hx _ (gs & E & Hgs)].
    - exists []. split; [reflexivity|constructor].
    - destruct Hx as (x1 & g & -> & Hc & Hg).
      apply lang_lit_comma in Hc as ->. apply digits_between_lang in Hg.
      exists (g :: gs). split; [|constructor; assumption].
      cbn [map concat]. rewrite E. reflexivity. }
  destruct Hgs as (gs & -> & Hgs).
  assert (Hfr : fraction_text fr).
  { destruct H3 as (xs & -> & Hxs & _ & Hlen).
    destruct xs as [|x [|y xs]]; [left; reflexivity| |simpl in Hlen; lia].
    right. inversion Hxs as [|? ? Hx _]; subst.
    destruct Hx as (x1 & fp & -> & Hdot & Hfp).
    apply lang_lit_dot in Hdot as ->.
    apply (lang_digits 1 None) in Hfp as (Hfp & Hlo & _).
    exists fp. split; [exact Hfp|]. split.
    - intros ->. simpl in Hlo. lia.
    - simpl. rewrite app_nil_r. reflexivity. }
  exists d1, gs, fr, ws, wd.
  destruct H5 as [H5|H5]; [exists false|exists true];
    (split; [reflexivity|]); repeat split; try assumption; apply H1.
Qed.

(** [parse_amount] on a magnitude text - an optional currency sign, digits
    with or without comma groups, an optional fraction, any white space and
    the word million or billion in any case (U+0130 and U+0131 apart) -
    returns [float()] of the number without its commas, times 1e6 or
    1e9. *)
Theorem parse_amount_magnitude (dollar big : bool)
    (d1 : list N) (gs : list (list N)) (fr ws wd : list N) :
  all_decimal d1 -> d1 <> [] -> Forall all_decimal gs -> fraction_text fr ->
  Forall (fun c => is_space c = true) ws ->
  lang (lit (if big then "billion" else "million")) wd ->
  no_dotted_i wd ->
  exists f,
    py_float (d1 ++ concat gs ++ fr) = Some f /\
    parse_amount (PStr (magnitude_text dollar d1 gs fr ws wd)) =
    Ok (VFloat (fmul f (if big then f1e9 else f1e6))).
Proof.
  intros H1 Hne Hgs Hfr Hws Hwd Hni.
  destruct (py_float_number d1 gs fr H1 Hne Hgs Hfr) as [f Hf].
  exists f. split; [exact Hf|].
  rewrite parse_amount_text,
    (amount_parts_magnitude dollar big d1 gs fr ws wd) by assumption.
  cbn [fst snd]. rewrite Hf. reflexivity.
Qed.

Lemma parse_amount_magnitude_witness :
  exists f,
    py_float (u "1" ++ concat [u "500"] ++ u ".5") = Some f /\
    parse_amount (PStr (magnitude_text true (u "1") [u "500"] (u ".5")
                          (u " ") (u "Million"))) =
    Ok (VFloat (fmul f f1e6)).
Proof.
  apply (parse_amount_magnitude true false (u "1") [u "500"] (u ".5")
           (u " ") (u "Million")).
  - repeat constructor.
  - discriminate.
  - repeat constructor.
  - right. exists (u "5"). repeat split; [repeat constructor|discriminate].
  - repeat constructor.
  - apply (lit_chars_lang (u "million") (u "Million")).
    repeat constructor.
  - repeat constructor; discriminate.
Defined.

(** ** Where [parse_constraints] can fail *)

(** The word-count, percentage and timeframe blocks never raise. *)
Lemma blocks_total prompt :
  (exists w, word_count prompt = Ok w) /\
  (exists p, percentage prompt = Ok p) /\
  (exists t, timeframe prompt = Ok t).
Proof.
  split; [|split].
  - destruct (word_count_cases prompt)
      as [[_ E]|[(? & ? & _ & _ & _ & E)|(? & _ & _ & E)]]; eauto.
  - destruct (percentage_cases prompt)
      as [[_ E]|[(? & ? & ? & ? & _ & _ & _ & _ & _ & E)|(? & ? & _ & _ & _ & E)]];
      eauto.
  - destruct (timeframe_cases prompt)
      as [[_ E]|[(? & ? & ? & ? & _ & _ & _ & _ & _ & E)|(? & ? & _ & _ & _ & E)]];
      eauto.
Qed.

(** [parse_constraints] raises what its budget block raises, and only
    then. *)
Lemma parse_constraints_fault prompt e :
  parse_constraints prompt = Raise e <-> budget prompt = Raise e.
Proof.
  destruct (blocks_total prompt) as ([w Hw] & [p Hp] & [t Ht]).
  unfold parse_constraints. rewrite Hw, Hp, Ht. cbn [mbind result_bind].
  destruct (budget prompt) as [b|e']; cbn [mbind result_bind mret result_ret].
  - split; intros H; discriminate H.
  - split; intros H; injection H as ->; reflexivity.
Qed.

(** A fault of the budget block is the ValueError of [float()] on the
    magnitude text. *)
Lemma budget_fault prompt e :
  budget prompt = Raise e ->
  e = ValueError /\
  exists i wm,
    search pattern_budget prompt = Some (<[i := wm]> ∅) /\
    lang magnitude wm /\
    py_float (snd (amount_parts wm)) = None.
Proof.
  intros H.
  destruct (budget_cases prompt) as [[_ E]|(i & wm & _ & Hs & Hm & E)];
    rewrite E in H; [discriminate H|].
  rewrite parse_amount_text in H.
  destruct (py_float (snd (amount_parts wm))) eqn:F; [discriminate H|].
  injection H as <-. split; [reflexivity|].
  exists i, wm. auto.
Qed.

(** ** Prompts on which [parse_constraints] cannot fail *)

Lemma magnitude_amount_ok wm :
  lang magnitude wm -> no_dotted_i wm ->
  exists f, py_float (snd (amount_parts wm)) = Some f.
Proof.
  intros Hm Hn.
  apply lang_magnitude in Hm
    as (d1 & gs & fr & ws & wd & big & -> & [D1 L1] & Hgs & Hfr & Hws & Hwd).
  assert (Hne : d1 <> []) by (intros ->; simpl in L1; lia).
  assert (Hgs' : Forall all_decimal gs).
  { eapply Forall_impl; [exact Hgs|]. intros g [Hg _]. exact Hg. }
  assert (Hwn : no_dotted_i wd).
  { unfold magnitude_text, no_dotted_i in *.
    repeat (apply Forall_app in Hn as [_ Hn]). exact Hn. }
  rewrite (amount_parts_magnitude false big d1 gs fr ws wd) by assumption.
  cbn [snd]. apply py_float_number; assumption.
Qed.

(** A prompt that holds neither U+0130 nor U+0131 - any ASCII prompt, for
    one - never makes [parse_constraints] fail. *)
Theorem no_fault_without_dotted_i (prompt : list N) :
  no_dotted_i prompt -> exists cs, parse_constraints prompt = Ok cs.
Proof.
  intros Hn. destruct (parse_constraints prompt) as [cs|e] eqn:E; [eauto|].
  exfalso.
  apply parse_constraints_fault, budget_fault in E
    as (_ & i & wm & Hs & Hm & Hf).
  assert (Hp : part_of wm prompt)
    by (apply (search_group_part _ _ _ i wm Hs), lookup_insert_eq).
  destruct (magnitude_amount_ok wm Hm (no_dotted_i_part _ _ Hp Hn)) as [f Hf'].
  rewrite Hf in Hf'. discriminate Hf'.
Qed.

Lemma no_fault_witness :
  no_dotted_i (u "Spend up to $1,250.75 Million.") /\
  exists cs, parse_constraints (u "Spend up to $1,250.75 Million.") = Ok cs.
Proof.
  assert (H : no_dotted_i (u "Spend up to $1,250.75 Million.")).
  { unfold no_dotted_i.
    repeat (constructor; [split; discriminate|]). constructor. }
  split; [exact H|]. exact (no_fault_without_dotted_i _ H).
Defined.

(** ** Budget records *)

(** A budget record in a result: its raw_value is the magnitude text as
    it stands in the prompt, its target is the amount [parse_amount] makes
    of that text, its type is "max", "min" or "fixed" by the cue in front
    of it, and it has its target as upper_bound only for "max" and as
    lower_bound only for "min"; the other bounds are None. *)
Theorem budget_record_shape (prompt : list N)
    (cs : gmap string (gmap string value)) (r : gmap string value) :
  parse_constraints prompt = Ok cs ->
  cs !! "budget" = Some r ->
  exists i raw f,
    (i = 1 \/ i = 2 \/ i = 3)%nat /\
    search pattern_budget prompt = Some (<[i := raw]> ∅) /\
    part_of raw prompt /\ lang magnitude raw /\
    parse_amount (PStr raw) = Ok (VFloat f) /\
    r = budget_record i (VFloat f) raw /\
    r !! "type" =
      Some (VStr (u (match i with 1 => "max" | 2 => "min" | _ => "fixed" end%nat))) /\
    r !! "target" = Some (VFloat f) /\
    r !! "upper_bound" = Some (match i with 1%nat => VFloat f | _ => VNone end) /\
    r !! "lower_bound" = Some (match i with 2%nat => VFloat f | _ => VNone end) /\
    r !! "raw_value" = Some (VStr raw).
Proof.
  intros Hcs Hr.
  apply parse_constraints_blocks in Hcs as (_ & b & _ & _ & _ & Hb & _ & _ & _ & Lb & _).
  rewrite Hr in Lb. subst b.
  destruct (budget_cases prompt) as [[_ E]|(i & wm & Hi & Hs & Hm & E)];
    rewrite E in Hb; [discriminate Hb|].
  rewrite parse_amount_text in Hb.
  destruct (py_float (snd (amount_parts wm))) as [f|] eqn:F; [|discriminate Hb].
  injection Hb as <-.
  exists i, wm, (fmul f (fst (amount_parts wm))).
  split; [exact Hi|]. split; [exact Hs|].
  split; [apply (search_group_part _ _ _ i wm Hs), lookup_insert_eq|].
  split; [exact Hm|].
  split; [rewrite parse_amount_text, F; reflexivity|].
  destruct Hi as [-> | [-> | ->]]; repeat split; reflexivity.
Qed.

Lemma budget_record_witness :
  let prompt := u "Spend at least $2 billion." in
  let r := budget_record 2 (VFloat (fmul (float_of_Z 2) f1e9)) (u "2 billion") in
  let cs := {[ "budget" := r ]} in
  parse_constraints prompt = Ok cs /\ cs !! "budget" = Some r /\
  exists i raw f,
    (i = 1 \/ i = 2 \/ i = 3)%nat /\
    search pattern_budget prompt = Some (<[i := raw]> ∅) /\
    part_of raw prompt /\ lang magnitude raw /\
    parse_amount (PStr raw) = Ok (VFloat f) /\
    r = budget_record i (VFloat f) raw /\
    r !! "type" =
      Some (VStr (u (match i with 1 => "max" | 2 => "min" | _ => "fixed" end%nat))) /\
    r !! "target" = Some (VFloat f) /\
    r !! "upper_bound" = Some (match i with 1%nat => VFloat f | _ => VNone end) /\
    r !! "lower_bound" = Some (match i with 2%nat => VFloat f | _ => VNone end) /\
    r !! "raw_value" = Some (VStr raw).
Proof.
  intros prompt r cs.
  assert (H : parse_constraints prompt = Ok cs) by (vm_compute; reflexivity).
  assert (H1 : cs !! "budget" = Some r) by apply lookup_singleton_eq.
  split; [exact H|]. split; [exact H1|].
  exact (budget_record_shape prompt cs r H H1).
Defined.

(** ** Timeframe records *)

(** A timeframe record in a result.  For a range its bounds are the two
    numbers as written (one to four digits each), its target is the floor
    of their mean - between them when they are in order - and its unit is
    the first of the two unit words, as written; the second one is
    dropped.  For a single value its target is the number as written: the
    default 0 of the code is never used. *)
Theorem timeframe_record_shape (prompt : list N)
    (cs : gmap string (gmap string value)) (r : gmap string value) :
  parse_constraints prompt = Ok cs ->
  cs !! "timeframe" = Some r ->
  (exists w1 u1 w2 u2 low high,
      search pattern_time prompt =
        Some (<[4%nat := u2]> (<[3%nat := w2]> (<[2%nat := u1]>
             (<[1%nat := w1]> ∅)))) /\
      lang time_unit u1 /\ lang time_unit u2 /\
      low = decimal_value w1 /\ high = decimal_value w2 /\
      r = timeframe_range_record (VStr u1) low high /\
      r !! "unit" = Some (VStr u1) /\
      r !! "target" = Some (VInt ((low + high) / 2)) /\
      0 <= low <= 9999 /\ 0 <= high <= 9999 /\
      (low <= high -> low <= (low + high) / 2 <= high)) \/
  (exists w5 u6 v,
      search pattern_time prompt = Some (<[6%nat := u6]> (<[5%nat := w5]> ∅)) /\
      lang time_unit u6 /\ digits_between 1 4 w5 /\
      v = decimal_value w5 /\
      r = timeframe_fixed_record (VStr u6) v /\
      r !! "unit" = Some (VStr u6) /\
      r !! "target" = Some (VInt v) /\
      0 <= v <= 9999).
Proof.
  intros Hcs Hr.
  apply parse_constraints_blocks in Hcs
    as (_ & _ & _ & t & _ & _ & _ & Ht & _ & _ & _ & Lt).
  rewrite Hr in Lt. subst t.
  destruct (timeframe_cases prompt)
    as [[_ E]|[(w1 & u1 & w2 & u2 & Hs & D1 & D2 & U1 & U2 & E)
              |(w5 & u6 & Hs & D5 & U6 & E)]];
    rewrite E in Ht; try discriminate Ht; injection Ht as <-.
  - left. exists w1, u1, w2, u2, (decimal_value w1), (decimal_value w2).
    pose proof (digits_between_bound _ _ _ D1) as B1.
    pose proof (digits_between_bound _ _ _ D2) as B2.
    change (10 ^ Z.of_nat 4) with 10000 in B1, B2.
    repeat split; try assumption; try reflexivity; try lia.
    + apply Z.div_le_lower_bound; lia.
    + apply Z.div_le_upper_bound; lia.
  - right. exists w5, u6, (decimal_value w5).
    pose proof (digits_between_bound _ _ _ D5) as B5.
    change (10 ^ Z.of_nat 4) with 10000 in B5.
    repeat split; try assumption; try reflexivity; try apply D5; lia.
Qed.

Lemma timeframe_record_witness :
  let prompt := u "Pilot runs from 3 weeks to 2 months." in
  let r := timeframe_range_record (VStr (u "weeks")) 3 2 in
  let cs := {[ "timeframe" := r ]} in
  parse_constraints prompt = Ok cs /\ cs !! "timeframe" = Some r /\
  ((exists w1 u1 w2 u2 low high,
      search pattern_time prompt =
        Some (<[4%nat := u2]> (<[3%nat := w2]> (<[2%nat := u1]>
             (<[1%nat := w1]> ∅)))) /\
      lang time_unit u1 /\ lang time_unit u2 /\
      low = decimal_value w1 /\ high = decimal_value w2 /\
      r = timeframe_range_record (VStr u1) low high /\
      r !! "unit" = Some (VStr u1) /\
      r !! "target" = Some (VInt ((low + high) / 2)) /\
      0 <= low <= 9999 /\ 0 <= high <= 9999 /\
      (low <= high -> low <= (low + high) / 2 <= high)) \/
   (exists w5 u6 v,
      search pattern_time prompt = Some (<[6%nat := u6]> (<[5%nat := w5]> ∅)) /\
      lang time_unit u6 /\ digits_between 1 4 w5 /\
      v = decimal_value w5 /\
      r = timeframe_fixed_record (VStr u6) v /\
      r !! "unit" = Some (VStr u6) /\
      r !! "target" = Some (VInt v) /\
      0 <= v <= 9999)).
Proof.
  intros prompt r cs.
  assert (H : parse_constraints prompt = Ok cs) by (vm_compute; reflexivity).
  assert (H1 : cs !! "timeframe" = Some r) by apply lookup_singleton_eq.
  split; [exact H|]. split; [exact H1|].
  exact (timeframe_record_shape prompt cs r H H1).
Defined.

(** ** Binary64 rounding, over the reals *)

Lemma pow2_IZR k : 0 <= k -> IZR (2 ^ k) = powerRZ 2 k.
Proof.
  intros Hk. destruct k as [|p|p]; [reflexivity| |lia].
  change (2 ^ Z.pos p) with (Z.pow_pos 2 p).
  apply Zpower_pos_powerRZ.
Qed.

Lemma powerRZ2_pos e : (0 < powerRZ 2 e)%R.
Proof. apply powerRZ_lt. lra. Qed.

Lemma powerRZ2_add a b : powerRZ 2 (a + b) = (powerRZ 2 a * powerRZ 2 b)%R.
Proof. apply powerRZ_add. lra. Qed.

Lemma powerRZ2_ge1 k : 0 <= k -> (1 <= powerRZ 2 k)%R.
Proof.
  intros Hk. rewrite <- pow2_IZR by exact Hk. apply IZR_le.
  assert (0 < 2 ^ k) by (apply Z.pow_pos_nonneg; lia). lia.
Qed.

Lemma powerRZ2_le a b : a <= b -> (powerRZ 2 a <= powerRZ 2 b)%R.
Proof.
  intros H. replace b with (a + (b - a)) by lia. rewrite powerRZ2_add.
  pose proof (powerRZ2_pos a). pose proof (powerRZ2_ge1 (b - a) ltac:(lia)).
  nra.
Qed.

Lemma powerRZ2_lt a b : a < b -> (powerRZ 2 a < powerRZ 2 b)%R.
Proof.
  intros H. replace b with (a + 1 + (b - a - 1)) by lia.
  rewrite !powerRZ2_add. change (powerRZ 2 1) with (2 * 1)%R.
  pose proof (powerRZ2_pos a). pose proof (powerRZ2_ge1 (b - a - 1) ltac:(lia)).
  nra.
Qed.

Lemma shl_IZR x k : IZR (shl x k) = (IZR x * powerRZ 2 (Z.max 0 k))%R.
Proof. unfold shl. rewrite mult_IZR, pow2_IZR by lia. reflexivity. Qed.

Lemma shl_pos d k : 0 < d -> 0 < shl d k.
Proof.
  intros H. unfold shl.
  assert (0 < 2 ^ Z.max 0 k) by (apply Z.pow_pos_nonneg; lia). nia.
Qed.

Lemma shl_nonneg n k : 0 <= n -> 0 <= shl n k.
Proof.
  intros H. unfold shl.
  assert (0 < 2 ^ Z.max 0 k) by (apply Z.pow_pos_nonneg; lia). nia.
Qed.

(** [shl n (- e) / shl d e] is [n / d] scaled by [2^(-e)]. *)
Lemma ratio_shl n d e :
  0 < d ->
  (IZR (shl n (- e)) / IZR (shl d e) = IZR n / IZR d * powerRZ 2 (- e))%R.
Proof.
  intros Hd. rewrite !shl_IZR.
  assert (Hd' : (0 < IZR d)%R) by (apply IZR_lt; exact Hd).
  pose proof (powerRZ2_pos (Z.max 0 e)) as P1.
  replace (Z.max 0 (- e)) with (- e + Z.max 0 e) by lia.
  rewrite powerRZ2_add. field. split; lra.
Qed.

Lemma F2R_shl m e k : 0 <= k -> F2R (shl m k) e = F2R m (e + k).
Proof.
  intros Hk. unfold F2R. rewrite shl_IZR, Z.max_r, powerRZ2_add by lia. ring.
Qed.

(** The value a finite float hands to [rnd] *)
Lemma ratio_F2R m e :
  (IZR (shl m e) / IZR (shl 1 (- e)) = F2R m e)%R.
Proof.
  pose proof (ratio_shl m 1 (- e) ltac:(lia)) as H.
  rewrite Z.opp_involutive in H. rewrite H. unfold F2R. field.
Qed.

Lemma div_le_IZR (k n d : Z) :
  0 < d -> (IZR k <= IZR n / IZR d)%R -> k * d <= n.
Proof.
  intros Hd H. assert (Hd' : (0 < IZR d)%R) by (apply IZR_lt; exact Hd).
  apply le_IZR. rewrite mult_IZR.
  apply (Rmult_le_compat_r (IZR d)) in H; [|lra].
  unfold Rdiv in H. rewrite Rmult_assoc, Rinv_l, Rmult_1_r in H by lra.
  exact H.
Qed.

Lemma div_ge_IZR (k n d : Z) :
  0 < d -> (IZR n / IZR d <= IZR k)%R -> n <= k * d.
Proof.
  intros Hd H. assert (Hd' : (0 < IZR d)%R) by (apply IZR_lt; exact Hd).
  apply le_IZR. rewrite mult_IZR.
  apply (Rmult_le_compat_r (IZR d)) in H; [|lra].
  unfold Rdiv in H. rewrite Rmult_assoc, Rinv_l, Rmult_1_r in H by lra.
  exact H.
Qed.

Lemma round_half_even_ge k n d : 0 < d -> k * d <= n -> k <= round_half_even n d.
Proof.
  intros Hd H. unfold round_half_even.
  assert (k <= n / d) by (apply Z.div_le_lower_bound; lia).
  destruct (2 * (n mod d) <? d); [lia|].
  destruct (d <? 2 * (n mod d)); [lia|].
  destruct (Z.even (n / d)); lia.
Qed.

Lemma round_half_even_le k n d : 0 < d -> n <= k * d -> round_half_even n d <= k.
Proof.
  intros Hd H. unfold round_half_even.
  pose proof (Z.div_mod n d ltac:(lia)) as Hdm.
  pose proof (Z.mod_pos_bound n d Hd) as Hm.
  assert (Hq : n / d <= k) by (apply Z.div_le_upper_bound; lia).
  assert (Hq' : 0 < n mod d -> n / d + 1 <= k) by nia.
  destruct (Z.ltb_spec (2 * (n mod d)) d); [lia|].
  destruct (Z.ltb_spec d (2 * (n mod d))); [lia|].
  destruct (Z.even (n / d)); lia.
Qed.

(** [ilog2 n d] is the binary exponent of [n / d]. *)
Lemma ilog2_spec n d :
  0 < n -> 0 < d ->
  (powerRZ 2 (ilog2 n d) <= IZR n / IZR d < powerRZ 2 (ilog2 n d + 1))%R.
Proof.
  intros Hn Hd. unfold ilog2.
  set (k := Z.log2 n - Z.log2 d).
  assert (Hn' : (0 < IZR n)%R) by (apply IZR_lt; exact Hn).
  assert (Hd' : (0 < IZR d)%R) by (apply IZR_lt; exact Hd).
  pose proof (Z.log2_spec n Hn) as [Ln1 Ln2].
  pose proof (Z.log2_spec d Hd) as [Ld1 Ld2].
  pose proof (Z.log2_nonneg n) as Nn. pose proof (Z.log2_nonneg d) as Nd.
  apply IZR_le in Ln1, Ld1. apply IZR_lt in Ln2, Ld2.
  rewrite pow2_IZR in Ln1, Ln2, Ld1, Ld2 by lia.
  replace (Z.succ (Z.log2 n)) with (Z.log2 n + 1) in Ln2 by lia.
  replace (Z.succ (Z.log2 d)) with (Z.log2 d + 1) in Ld2 by lia.
  rewrite powerRZ2_add in Ln2, Ld2. change (powerRZ 2 1) with (2 * 1)%R in *.
  pose proof (powerRZ2_pos (Z.log2 n)) as Pn.
  pose proof (powerRZ2_pos (Z.log2 d)) as Pd.
  pose proof (powerRZ2_pos k) as Pk.
  assert (Ek : (powerRZ 2 (Z.log2 n) = powerRZ 2 k * powerRZ 2 (Z.log2 d))%R).
  { rewrite <- powerRZ2_add. f_equal. unfold k. lia. }
  (* the test compares n / d with 2^k *)
  assert (Htest : shl n (- k) < shl d k <->
                  (IZR n / IZR d < powerRZ 2 k)%R).
  { pose proof (ratio_shl n d k Hd) as Hr.
    pose proof (shl_pos d k Hd) as Sd. apply IZR_lt in Sd.
    pose proof (powerRZ2_pos (- k)) as Pmk.
    assert (Hone : (powerRZ 2 k * powerRZ 2 (- k) = 1)%R).
    { rewrite <- powerRZ2_add. replace (k + - k) with 0 by lia. reflexivity. }
    split; intros H.
    - apply IZR_lt in H.
      assert (IZR (shl n (- k)) / IZR (shl d k) < 1)%R.
      { apply (Rmult_lt_reg_r (IZR (shl d k))); [lra|].
        unfold Rdiv. rewrite Rmult_assoc, Rinv_l, Rmult_1_r by lra. lra. }
      rewrite Hr in H0. nra.
    - apply lt_IZR.
      assert (IZR (shl n (- k)) / IZR (shl d k) < 1)%R by (rewrite Hr; nra).
      apply (Rmult_lt_compat_r (IZR (shl d k))) in H0; [|lra].
      unfold Rdiv in H0. rewrite Rmult_assoc, Rinv_l, Rmult_1_r in H0 by lra.
      lra. }
  assert (Hq : (IZR n / IZR d * IZR d = IZR n)%R) by (field; lra).
  destruct (Z.ltb_spec (shl n (- k)) (shl d k)) as [Hlt|Hge].
  - apply Htest in Hlt. replace (k - 1 + 1) with k by lia.
    split; [|exact Hlt].
    replace k with (k - 1 + 1) in Ek by lia. rewrite powerRZ2_add in Ek.
    change (powerRZ 2 1) with (2 * 1)%R in Ek.
    pose proof (powerRZ2_pos (k - 1)). nra.
  - assert (~ (IZR n / IZR d < powerRZ 2 k)%R) by (rewrite <- Htest; lia).
    split; [lra|]. rewrite powerRZ2_add. change (powerRZ 2 1) with (2 * 1)%R.
    nra.
Qed.

Lemma powerRZ2_inv e : (powerRZ 2 e * powerRZ 2 (- e) = 1)%R.
Proof.
  rewrite <- powerRZ2_add. replace (e + - e) with 0 by lia. reflexivity.
Qed.

Lemma F2R_le m1 m2 e : m1 <= m2 -> (F2R m1 e <= F2R m2 e)%R.
Proof.
  intros H. unfold F2R. apply Rmult_le_compat_r.
  - left. apply powerRZ2_pos.
  - apply IZR_le. exact H.
Qed.

Lemma F2R_nonneg m e : 0 <= m -> (0 <= F2R m e)%R.
Proof.
  intros H. unfold F2R. apply Rmult_le_pos.
  - apply IZR_le. exact H.
  - left. apply powerRZ2_pos.
Qed.

Lemma F2R_pow k e : 0 <= k -> F2R (2 ^ k) e = powerRZ 2 (k + e).
Proof.
  intros H. unfold F2R. rewrite pow2_IZR, powerRZ2_add by exact H. reflexivity.
Qed.

Lemma scaled_le x k e :
  (x <= F2R k e)%R -> (x * powerRZ 2 (- e) <= IZR k)%R.
Proof.
  intros H. unfold F2R in H.
  pose proof (powerRZ2_pos (- e)) as P. pose proof (powerRZ2_inv e) as I.
  apply (Rmult_le_compat_r (powerRZ 2 (- e))) in H; [|lra].
  rewrite Rmult_assoc, I in H. lra.
Qed.

Lemma scaled_ge x k e :
  (F2R k e <= x)%R -> (IZR k <= x * powerRZ 2 (- e))%R.
Proof.
  intros H. unfold F2R in H.
  pose proof (powerRZ2_pos (- e)) as P. pose proof (powerRZ2_inv e) as I.
  apply (Rmult_le_compat_r (powerRZ 2 (- e))) in H; [|lra].
  rewrite Rmult_assoc, I in H. lra.
Qed.

Lemma scaled_lt x a e :
  (x < powerRZ 2 a)%R -> (x * powerRZ 2 (- e) < powerRZ 2 (a - e))%R.
Proof.
  intros H. replace (a - e) with (a + - e) by lia. rewrite powerRZ2_add.
  apply Rmult_lt_compat_r; [apply powerRZ2_pos|exact H].
Qed.

Lemma scaled_pow a x e :
  (powerRZ 2 a <= x)%R -> (powerRZ 2 (a - e) <= x * powerRZ 2 (- e))%R.
Proof.
  intros H. replace (a - e) with (a + - e) by lia. rewrite powerRZ2_add.
  apply Rmult_le_compat_r; [left; apply powerRZ2_pos|exact H].
Qed.

(** Rounding is monotone against the points of the grid: a fraction that
    lies between two representable values rounds to a finite float
    between them. *)
Lemma rnd_between n d ml el mu eu :
  0 <= n -> 0 < d ->
  0 <= ml < 2 ^ 53 -> -1074 <= el ->
  0 <= mu < 2 ^ 53 -> -1074 <= eu ->
  (F2R mu eu < powerRZ 2 1024)%R ->
  (F2R ml el <= IZR n / IZR d <= F2R mu eu)%R ->
  exists m e, rnd false n d = FFin false m e /\
              0 <= m < 2 ^ 53 /\ -1074 <= e /\
              (F2R ml el <= F2R m e <= F2R mu eu)%R.
Proof.
  intros Hn Hd Hml Hel Hmu Heu Hfin [Hlo Hhi].
  unfold rnd. destruct (Z.eqb_spec n 0) as [->|Hn0].
  { exists 0, (-1074). split; [reflexivity|]. split; [lia|]. split; [lia|].
    replace (IZR 0 / IZR d)%R with 0%R in * by (unfold Rdiv; ring).
    replace (F2R 0 (-1074)) with 0%R by (unfold F2R; ring).
    split; assumption. }
  assert (Hn' : 0 < n) by lia.
  pose proof (ilog2_spec n d Hn' Hd) as [HL1 HL2].
  set (L := ilog2 n d) in *.
  set (e := Z.max (L - 52) (-1074)).
  set (x := (IZR n / IZR d)%R) in *.
  set (q := (x * powerRZ 2 (- e))%R).
  set (m := round_half_even (shl n (- e)) (shl d e)).
  assert (Hr : (IZR (shl n (- e)) / IZR (shl d e) = q)%R)
    by (apply ratio_shl; exact Hd).
  pose proof (shl_pos d e Hd) as Sd.
  assert (Hge : forall k, (IZR k <= q)%R -> k <= m).
  { intros k Hk. apply round_half_even_ge; [exact Sd|].
    apply div_le_IZR; [exact Sd|]. rewrite Hr. exact Hk. }
  assert (Hle : forall k, (q <= IZR k)%R -> m <= k).
  { intros k Hk. apply round_half_even_le; [exact Sd|].
    apply div_ge_IZR; [exact Sd|]. rewrite Hr. exact Hk. }
  assert (He : -1074 <= e) by (unfold e; lia).
  assert (He' : L - 52 <= e) by (unfold e; lia).
  assert (Hm0 : 0 <= m).
  { apply Hge. unfold q. apply Rmult_le_pos.
    - pose proof (powerRZ2_pos L). lra.
    - left. apply powerRZ2_pos. }
  assert (Hm53 : m <= 2 ^ 53).
  { apply Hle. rewrite (pow2_IZR 53) by lia. left.
    apply Rlt_le_trans with (powerRZ 2 (L + 1 - e)).
    - apply scaled_lt. exact HL2.
    - apply powerRZ2_le. lia. }
  assert (Hm52 : -1074 < e -> 2 ^ 52 <= m).
  { intros Hn1. apply Hge. rewrite (pow2_IZR 52) by lia.
    replace 52 with (L - e) by (unfold e in *; lia).
    apply scaled_pow. exact HL1. }
  assert (Hup : (F2R m e <= F2R mu eu)%R).
  { destruct (Z.le_gt_cases e eu) as [Hc|Hc].
    - replace eu with (e + (eu - e)) by lia.
      rewrite <- F2R_shl by lia. apply F2R_le. apply Hle.
      apply scaled_le. rewrite F2R_shl by lia.
      replace (e + (eu - e)) with eu by lia. exact Hhi.
    - exfalso.
      assert (F2R mu eu < powerRZ 2 L)%R; [|lra].
      apply Rlt_le_trans with (F2R (2 ^ 53) eu).
      + unfold F2R. apply Rmult_lt_compat_r; [apply powerRZ2_pos|].
        apply IZR_lt. lia.
      + rewrite F2R_pow by lia. apply powerRZ2_le. unfold e in *. lia. }
  assert (Hdn : (F2R ml el <= F2R m e)%R).
  { destruct (Z.le_gt_cases e el) as [Hc|Hc].
    - replace el with (e + (el - e)) by lia.
      rewrite <- F2R_shl by lia. apply F2R_le. apply Hge.
      apply scaled_ge. rewrite F2R_shl by lia.
      replace (e + (el - e)) with el by lia. exact Hlo.
    - apply Rle_trans with (F2R (2 ^ 52) e).
      + apply Rle_trans with (F2R (2 ^ 53) el).
        * apply F2R_le. lia.
        * rewrite !F2R_pow by lia. apply powerRZ2_le. lia.
      + apply F2R_le. apply Hm52. lia. }
  destruct (Z.eqb_spec m (2 ^ 53)) as [E53|N53].
  - assert (E : F2R (2 ^ 52) (e + 1) = F2R m e).
    { rewrite E53, !F2R_pow by lia. f_equal. lia. }
    destruct (Z.ltb_spec 971 (e + 1)) as [Hov|Hov].
    + exfalso. rewrite <- E in Hup. rewrite F2R_pow in Hup by lia.
      pose proof (powerRZ2_le 1024 (52 + (e + 1)) ltac:(lia)). lra.
    + exists (2 ^ 52), (e + 1). split; [reflexivity|]. split; [lia|].
      split; [lia|]. rewrite E. split; assumption.
  - destruct (Z.ltb_spec 971 e) as [Hov|Hov].
    + exfalso.
      assert (powerRZ 2 1024 <= F2R m e)%R; [|lra].
      apply Rle_trans with (F2R (2 ^ 52) e).
      * rewrite F2R_pow by lia. apply powerRZ2_le. lia.
      * apply F2R_le. apply Hm52. lia.
    + exists m, e. split; [reflexivity|]. split; [lia|].
      split; [lia|]. split; assumption.
Qed.

Lemma F2R_signed s m e :
  F2R (signed s m) e = if s then (- F2R m e)%R else F2R m e.
Proof. destruct s; unfold F2R; simpl; [rewrite opp_IZR; ring|reflexivity]. Qed.

Lemma fraction_signed s n d :
  fraction s n d = if s then (- (IZR n / IZR d))%R else (IZR n / IZR d)%R.
Proof.
  destruct s; unfold fraction; simpl; [|reflexivity].
  rewrite opp_IZR. unfold Rdiv. ring.
Qed.

Lemma signed_shl s m k : signed s (shl m k) = shl (signed s m) k.
Proof. destruct s; unfold shl; simpl; [ring|reflexivity]. Qed.

Lemma fval_fneg x : fval (fneg x) = (- fval x)%R.
Proof.
  destruct x as [|s|s m e]; simpl; try ring.
  rewrite !F2R_signed. destruct s; simpl; ring.
Qed.

Lemma representable_fneg x : representable x -> representable (fneg x).
Proof. destruct x; simpl; auto. Qed.

(** The sign is carried along by [rnd]. *)
Lemma rnd_sign s n d :
  rnd s n d = match rnd false n d with
              | FFin _ m e => FFin s m e
              | FInf _ => FInf s
              | FNan => FNan
              end.
Proof.
  unfold rnd. destruct (n =? 0); [reflexivity|].
  destruct (_ =? 2 ^ 53); destruct (971 <? _); reflexivity.
Qed.

Lemma ratio_nonneg n d : 0 <= n -> 0 < d -> (0 <= IZR n / IZR d)%R.
Proof.
  intros Hn Hd. apply IZR_le in Hn. apply IZR_lt in Hd.
  unfold Rdiv. apply Rmult_le_pos; [exact Hn|].
  left. apply Rinv_0_lt_compat. exact Hd.
Qed.

Lemma rnd_pos_between n d lo hi :
  0 <= n -> 0 < d ->
  representable lo -> representable hi ->
  (fval hi < powerRZ 2 1024)%R ->
  (fval lo <= IZR n / IZR d <= fval hi)%R ->
  exists m e, rnd false n d = FFin false m e /\
              representable (FFin false m e) /\
              (fval lo <= F2R m e <= fval hi)%R.
Proof.
  intros Hn Hd Rlo Rhi Hfin [Hlo Hhi].
  pose proof (ratio_nonneg n d Hn Hd) as Hx.
  destruct lo as [| |sl ml el]; try contradiction.
  destruct hi as [| |sh mh eh]; try contradiction.
  cbn [fval representable] in *. rewrite !F2R_signed in *.
  destruct Rlo as [Rl1 Rl2], Rhi as [Rh1 Rh2].
  pose proof (F2R_nonneg ml el ltac:(lia)) as Pl.
  pose proof (F2R_nonneg mh eh ltac:(lia)) as Ph.
  assert (Z0 : F2R 0 (-1074) = 0%R) by (unfold F2R; ring).
  destruct sl, sh; cbv iota in *.
  - destruct (rnd_between n d 0 (-1074) 0 (-1074)) as (m & e & E & B & Be & B1 & B2);
      try lia; try (rewrite Z0; pose proof (powerRZ2_pos 1024); lra).
    rewrite ?Z0 in B1, B2.
    exists m, e. split; [exact E|]. split; [split; assumption|]. lra.
  - destruct (rnd_between n d 0 (-1074) mh eh) as (m & e & E & B & Be & B1 & B2);
      try lia; try assumption; try (rewrite Z0; lra).
    rewrite ?Z0 in B1, B2.
    exists m, e. split; [exact E|]. split; [split; assumption|]. lra.
  - destruct (rnd_between n d ml el 0 (-1074)) as (m & e & E & B & Be & B1 & B2);
      try lia; try (rewrite Z0; pose proof (powerRZ2_pos 1024); lra).
    rewrite ?Z0 in B1, B2.
    exists m, e. split; [exact E|]. split; [split; assumption|]. lra.
  - destruct (rnd_between n d ml el mh eh) as (m & e & E & B & Be & B1 & B2);
      try lia; try assumption; try lra.
    rewrite ?Z0 in B1, B2.
    exists m, e. split; [exact E|]. split; [split; assumption|]. lra.
Qed.

(** Rounding a signed fraction that lies between two representable values
    gives a representable value between them. *)
Lemma rnd_signed_between s n d lo hi :
  0 <= n -> 0 < d ->
  representable lo -> representable hi ->
  (- powerRZ 2 1024 < fval lo)%R -> (fval hi < powerRZ 2 1024)%R ->
  (fval lo <= fraction s n d <= fval hi)%R ->
  representable (rnd s n d) /\
  (fval lo <= fval (rnd s n d) <= fval hi)%R.
Proof.
  intros Hn Hd Rlo Rhi Flo Fhi Hx. rewrite fraction_signed in Hx.
  rewrite rnd_sign. destruct s.
  - destruct (rnd_pos_between n d (fneg hi) (fneg lo)) as (m & e & E & B & B1);
      try assumption; try (apply representable_fneg; assumption);
      rewrite ?fval_fneg; try lra.
    rewrite E. split; [exact B|]. cbn [fval]. rewrite F2R_signed.
    rewrite !fval_fneg in B1. lra.
  - destruct (rnd_pos_between n d lo hi) as (m & e & E & B & B1);
      try assumption.
    rewrite E. split; [exact B|]. exact B1.
Qed.

(** ** Comparison and arithmetic of finite floats, over the reals *)

Lemma F2R_le_iff a b e : a <= b <-> (F2R a e <= F2R b e)%R.
Proof.
  pose proof (powerRZ2_pos e) as P. unfold F2R. split; intros H.
  - apply IZR_le in H. nra.
  - apply le_IZR. nra.
Qed.

Lemma F2R_lt_iff a b e : a < b <-> (F2R a e < F2R b e)%R.
Proof.
  pose proof (powerRZ2_pos e) as P. unfold F2R. split; intros H.
  - apply IZR_lt in H. nra.
  - apply lt_IZR. nra.
Qed.

Lemma F2R_align s m e1 e :
  e <= e1 -> F2R (signed s (shl m (e1 - e))) e = F2R (signed s m) e1.
Proof.
  intros H. rewrite signed_shl, F2R_shl by lia. f_equal. lia.
Qed.

Lemma fle_fval s m1 e1 t m2 e2 :
  fle (FFin s m1 e1) (FFin t m2 e2) = true <->
  (fval (FFin s m1 e1) <= fval (FFin t m2 e2))%R.
Proof.
  simpl. rewrite Z.leb_le, (F2R_le_iff _ _ (Z.min e1 e2)).
  rewrite !F2R_align by lia. reflexivity.
Qed.

Lemma flt_fval s m1 e1 t m2 e2 :
  flt (FFin s m1 e1) (FFin t m2 e2) = true <->
  (fval (FFin s m1 e1) < fval (FFin t m2 e2))%R.
Proof.
  simpl. rewrite Z.ltb_lt, (F2R_lt_iff _ _ (Z.min e1 e2)).
  rewrite !F2R_align by lia. reflexivity.
Qed.

Lemma fle_representable x y :
  representable x -> representable y ->
  (fle x y = true <-> (fval x <= fval y)%R).
Proof.
  destruct x, y; try contradiction. intros _ _. apply fle_fval.
Qed.

Lemma flt_representable x y :
  representable x -> representable y ->
  (flt x y = true <-> (fval x < fval y)%R).
Proof.
  destruct x, y; try contradiction. intros _ _. apply flt_fval.
Qed.

(** The sum of two finite floats is their exact sum, rounded. *)
Lemma fadd_exact x y :
  representable x -> representable y ->
  exists s n d, 0 <= n /\ 0 < d /\ fadd x y = rnd s n d /\
                fraction s n d = (fval x + fval y)%R.
Proof.
  destruct x as [| |s m1 e1], y as [| |t m2 e2]; try contradiction.
  intros _ _. simpl.
  set (e := Z.min e1 e2).
  set (v := signed s (shl m1 (e1 - e)) + signed t (shl m2 (e2 - e))).
  assert (Hv : F2R v e = (F2R (signed s m1) e1 + F2R (signed t m2) e2)%R).
  { rewrite <- (F2R_align s m1 e1 e), <- (F2R_align t m2 e2 e) by (unfold e; lia).
    unfold v, F2R. rewrite plus_IZR. ring. }
  destruct (Z.eqb_spec v 0) as [E0|N0].
  - exists (s && t), 0, 1. split; [lia|]. split; [lia|]. split; [reflexivity|].
    rewrite <- Hv, E0. unfold fraction, F2R, signed.
    destruct (s && t); change (- 0) with 0; lra.
  - exists (v <? 0), (shl (Z.abs v) e), (shl 1 (- e)).
    split; [apply shl_nonneg; lia|]. split; [apply shl_pos; lia|].
    split; [reflexivity|].
    rewrite <- Hv. unfold fraction. rewrite signed_shl.
    replace (signed (v <? 0) (Z.abs v)) with v
      by (unfold signed; destruct (Z.ltb_spec v 0); lia).
    apply ratio_F2R.
Qed.

(** The product of two finite floats is their exact product, rounded. *)
Lemma fmul_exact x y :
  representable x -> representable y ->
  exists s n d, 0 <= n /\ 0 < d /\ fmul x y = rnd s n d /\
                fraction s n d = (fval x * fval y)%R.
Proof.
  destruct x as [| |s m1 e1], y as [| |t m2 e2]; try contradiction.
  intros [H1 _] [H2 _]. simpl.
  exists (xorb s t), (shl (m1 * m2) (e1 + e2)), (shl 1 (- (e1 + e2))).
  split; [apply shl_nonneg; nia|]. split; [apply shl_pos; lia|].
  split; [reflexivity|].
  unfold fraction. rewrite signed_shl, ratio_F2R.
  unfold F2R. rewrite powerRZ2_add.
  destruct s, t; simpl; rewrite ?opp_IZR, ?mult_IZR; ring.
Qed.

(** Halving a finite float is exact halving, rounded. *)
Lemma fdiv_two x :
  representable x ->
  exists s n d, 0 <= n /\ 0 < d /\ fdiv x f2_0 = rnd s n d /\
                fraction s n d = (fval x / 2)%R.
Proof.
  destruct x as [| |s m e]; try contradiction. intros [H1 _].
  change f2_0 with (FFin false (2 ^ 52) (-51)).
  exists s, (shl m (e - -51)), (shl (2 ^ 52) (-51 - e)).
  split; [apply shl_nonneg; lia|]. split; [apply shl_pos; lia|].
  split.
  - unfold fdiv. change (2 ^ 52 =? 0) with false. cbv iota.
    rewrite xorb_false_r. reflexivity.
  - unfold fraction. rewrite signed_shl.
    replace (e - -51) with (- (-51 - e)) by lia.
    rewrite ratio_shl by lia. simpl fval. unfold F2R.
    replace (- (-51 - e)) with (e + 51) by lia.
    rewrite powerRZ2_add, (pow2_IZR 52) by lia.
    assert (P : (powerRZ 2 52 = 2 * powerRZ 2 51)%R).
    { change 52 with (1 + 51). rewrite powerRZ2_add. simpl. ring. }
    rewrite P. pose proof (powerRZ2_pos 51). field. lra.
Qed.

Lemma fval_twice x : fval (twice x) = (2 * fval x)%R.
Proof.
  destruct x as [| |s m e]; cbn [twice fval]; try ring.
  unfold F2R. rewrite powerRZ2_add. change (powerRZ 2 1) with (2 * 1)%R. ring.
Qed.

Lemma representable_twice x : representable x -> representable (twice x).
Proof. destruct x; cbn [twice representable]; lia. Qed.

Lemma fval_int s m :
  fval (FFin s m 0) = if s then (- IZR m)%R else IZR m.
Proof.
  cbn [fval]. rewrite F2R_signed. unfold F2R. change (powerRZ 2 0) with 1%R.
  destruct s; ring.
Qed.

Lemma fval_zero s e : fval (FFin s 0 e) = 0%R.
Proof. cbn [fval]. unfold F2R. destruct s; cbn [signed]; change (- 0) with 0; ring. Qed.

Lemma fval_f1_0 : fval f1_0 = 1%R.
Proof.
  change f1_0 with (FFin false (2 ^ 52) (-52)). cbn [fval signed].
  rewrite F2R_pow by lia. reflexivity.
Qed.

Lemma in_range x :
  (-2048 <= x <= 2048)%R -> (- powerRZ 2 1024 < x < powerRZ 2 1024)%R.
Proof.
  intros H. pose proof (powerRZ2_lt 11 1024 ltac:(lia)) as P.
  assert (E : powerRZ 2 11 = 2048%R) by (simpl; lra).
  rewrite E in P. lra.
Qed.

(** Rounding a fraction known to lie between two small representable
    values. *)
Lemma rnd_in s n d lo hi :
  0 <= n -> 0 < d ->
  representable lo -> representable hi ->
  (-2048 <= fval lo)%R -> (fval hi <= 2048)%R ->
  (fval lo <= fraction s n d <= fval hi)%R ->
  representable (rnd s n d) /\
  (fval lo <= fval (rnd s n d) <= fval hi)%R.
Proof.
  intros Hn Hd Rlo Rhi Blo Bhi Hx.
  apply rnd_signed_between; try assumption.
  - apply in_range. lra.
  - apply in_range. lra.
Qed.

(** The value [float()] gives for the number of a percentage *)
Lemma pct_float_range n d :
  0 <= n -> 0 < d -> n < 1000 * d ->
  representable (rnd false n d) /\
  (0 <= fval (rnd false n d) <= 1000)%R.
Proof.
  intros Hn Hd Hb.
  destruct (rnd_in false n d (FFin false 0 (-1074)) (FFin false 1000 0))
    as [R B]; try assumption; try (cbn [representable]; lia);
    rewrite ?fval_zero, ?fval_int; try lra.
  - rewrite fraction_signed. split; [apply ratio_nonneg; assumption|].
    assert (Hd' : (0 < IZR d)%R) by (apply IZR_lt; exact Hd).
    apply (Rmult_le_reg_r (IZR d)); [exact Hd'|].
    unfold Rdiv. rewrite Rmult_assoc, Rinv_l, Rmult_1_r by lra.
    rewrite <- mult_IZR. apply IZR_le. lia.
  - split; [exact R|]. rewrite fval_zero, fval_int in B. exact B.
Qed.

(** The mean and the half distance of two percentages in order *)
Lemma pct_range_order low high :
  representable low -> representable high ->
  (0 <= fval low <= 1000)%R -> (0 <= fval high <= 1000)%R ->
  (fval low <= fval high)%R ->
  (representable (fdiv (fadd low high) f2_0) /\
   (fval low <= fval (fdiv (fadd low high) f2_0) <= fval high)%R) /\
  (representable (fdiv (fsub high low) f2_0) /\
   (0 <= fval (fdiv (fsub high low) f2_0) <= fval high)%R).
Proof.
  intros Rl Rh Bl Bh Hord. split.
  - destruct (fadd_exact low high Rl Rh) as (s & n & d & Hn & Hd & E & X).
    destruct (rnd_in s n d (twice low) (twice high)) as [R B];
      try assumption; try (apply representable_twice; assumption);
      rewrite ?fval_twice; try lra.
    rewrite <- E, !fval_twice in *.
    destruct (fdiv_two _ R) as (s' & n' & d' & Hn' & Hd' & E' & X').
    rewrite E'. apply rnd_in; try assumption; lra.
  - unfold fsub.
    pose proof (representable_fneg _ Rl) as Rn.
    destruct (fadd_exact high (fneg low) Rh Rn) as (s & n & d & Hn & Hd & E & X).
    rewrite fval_fneg in X.
    destruct (rnd_in s n d (FFin false 0 (-1074)) high) as [R B];
      try assumption; try (cbn [representable]; lia);
      rewrite ?fval_zero; try lra.
    rewrite <- E, fval_zero in *.
    destruct (fdiv_two _ R) as (s' & n' & d' & Hn' & Hd' & E' & X').
    rewrite E'.
    destruct (rnd_in s' n' d' (FFin false 0 (-1074)) high) as [R' B'];
      try assumption; try (cbn [representable]; lia);
      rewrite ?fval_zero; try lra.
    rewrite fval_zero in B'. split; assumption.
Qed.

(** [round(x, 2)] of a value of magnitude at most 1000 *)
Lemma py_round2_bound x :
  representable x -> (-1000 <= fval x <= 1000)%R ->
  representable (py_round2 x) /\ (-1000 <= fval (py_round2 x) <= 1000)%R.
Proof.
  destruct x as [| |s m e]; try contradiction. intros [Hm He] B.
  cbn [py_round2 fval] in *. rewrite F2R_signed in B.
  pose proof (F2R_nonneg m e ltac:(lia)) as P.
  assert (B' : (F2R m e <= 1000)%R) by (destruct s; lra).
  set (k := round_half_even (shl (100 * m) e) (shl 1 (- e))).
  pose proof (shl_pos 1 (- e) ltac:(lia)) as Sd.
  assert (K0 : 0 <= k).
  { apply round_half_even_ge; [exact Sd|]. apply shl_nonneg. lia. }
  assert (K1 : k <= 100000).
  { apply round_half_even_le; [exact Sd|]. apply div_ge_IZR; [exact Sd|].
    rewrite ratio_F2R. unfold F2R in *. rewrite mult_IZR. lra. }
  destruct (rnd_in s k 100 (FFin true 1000 0) (FFin false 1000 0)) as [R B2];
    try lia; try (cbn [representable]; lia);
    rewrite ?fval_int; try lra.
  - apply IZR_le in K0, K1. rewrite fraction_signed. destruct s; lra.
  - rewrite !fval_int in B2. split; [exact R|]. lra.
Qed.

Lemma fval_f0_1 : representable f0_1 /\ (0 <= fval f0_1 <= 1)%R.
Proof.
  unfold f0_1.
  destruct (rnd_in false 1 10 (FFin false 0 (-1074)) (FFin false 1 0)) as [R B];
    try lia; try (cbn [representable]; lia);
    rewrite ?fval_zero, ?fval_int; try lra.
  - rewrite fraction_signed. lra.
  - rewrite fval_zero, fval_int in B. split; assumption.
Qed.

Lemma representable_f1_0 : representable f1_0.
Proof. change f1_0 with (FFin false (2 ^ 52) (-52)). cbn [representable]. lia. Qed.

(** An integer just below and one just above a real number *)
Lemma int_below x : exists k, (x - 1 <= IZR k < x)%R.
Proof.
  destruct (archimed (- x)) as [A1 A2]. exists (- up (- x)).
  rewrite opp_IZR. lra.
Qed.

Lemma int_above x : exists k, (x < IZR k <= x + 1)%R.
Proof. destruct (archimed x) as [A1 A2]. exists (up x). lra. Qed.

Lemma fval_small_int k :
  -2048 <= k <= 2048 ->
  representable (FFin (k <? 0) (Z.abs k) 0) /\
  fval (FFin (k <? 0) (Z.abs k) 0) = IZR k.
Proof.
  intros H. split; [cbn [representable]; lia|].
  rewrite fval_int. destruct (Z.ltb_spec k 0).
  - rewrite <- opp_IZR. f_equal. lia.
  - f_equal. lia.
Qed.

(** The tolerance and the bounds of a single percentage *)
Lemma pct_fixed_order v :
  representable v -> (0 <= fval v <= 1000)%R ->
  let tolerance := fmax f1_0 (py_round2 (fmul f0_1 v)) in
  (representable tolerance /\ (1 <= fval tolerance <= 1000)%R) /\
  (representable (fsub v tolerance) /\
   (fval (fsub v tolerance) < fval v)%R) /\
  (representable (fadd v tolerance) /\
   (fval v < fval (fadd v tolerance))%R).
Proof.
  intros Rv Bv tolerance.
  destruct fval_f0_1 as [R01 B01].
  assert (T : representable tolerance /\ (1 <= fval tolerance <= 1000)%R).
  { destruct (fmul_exact f0_1 v R01 Rv) as (s & n & d & Hn & Hd & E & X).
    destruct (rnd_in s n d (FFin false 0 (-1074)) (FFin false 1000 0))
      as [R B]; try assumption; try (cbn [representable]; lia);
      rewrite ?fval_zero, ?fval_int; try lra; [nra|].
    rewrite <- E, fval_zero, fval_int in *.
    destruct (py_round2_bound _ R) as [R2 B2]; [lra|].
    unfold tolerance, fmax.
    destruct (flt f1_0 (py_round2 (fmul f0_1 v))) eqn:F.
    - apply flt_representable in F; [|exact representable_f1_0|exact R2].
      rewrite fval_f1_0 in F. split; [exact R2|]. lra.
    - split; [exact representable_f1_0|]. rewrite fval_f1_0. lra. }
  destruct T as [Rt Bt]. split; [split; assumption|].
  split.
  - unfold fsub. pose proof (representable_fneg _ Rt) as Rn.
    destruct (fadd_exact v (fneg tolerance) Rv Rn) as (s & n & d & Hn & Hd & E & X).
    rewrite fval_fneg in X. rewrite E.
    destruct (int_below (fval v)) as (k & K1 & K2).
    assert (Hk : -2048 <= k <= 2048).
    { split; [apply le_IZR|apply le_IZR]; lra. }
    destruct (fval_small_int k Hk) as [Rk Vk].
    destruct (rnd_in s n d (FFin true 1000 0) (FFin (k <? 0) (Z.abs k) 0))
      as [R B]; try assumption; try (cbn [representable]; lia);
      rewrite ?Vk, ?fval_int; try lra.
    rewrite Vk in B. split; [exact R|]. lra.
  - destruct (fadd_exact v tolerance Rv Rt) as (s & n & d & Hn & Hd & E & X).
    rewrite E.
    destruct (int_above (fval v)) as (k & K1 & K2).
    assert (Hk : -2048 <= k <= 2048).
    { split; [apply le_IZR|apply le_IZR]; lra. }
    destruct (fval_small_int k Hk) as [Rk Vk].
    destruct (rnd_in s n d (FFin (k <? 0) (Z.abs k) 0) (FFin false 2000 0))
      as [R B]; try assumption; try (cbn [representable]; lia);
      rewrite ?Vk, ?fval_int; try lra.
    rewrite Vk in B. split; [exact R|]. lra.
Qed.

(** ** Percentage records *)

Lemma fval_0 : representable (float_of_Z 0) /\ fval (float_of_Z 0) = 0%R.
Proof.
  change (float_of_Z 0) with (FFin false 0 (-1074)).
  split; [cbn [representable]; lia|apply fval_zero].
Qed.

Lemma fval_1000 :
  representable (float_of_Z 1000) /\ fval (float_of_Z 1000) = 1000%R.
Proof.
  change (float_of_Z 1000) with (FFin false (shl 1000 43) (-43)).
  split; [cbn [representable]; change (shl 1000 43) with 8796093022208000; lia|].
  cbn [fval signed]. rewrite F2R_shl by lia.
  change (-43 + 43) with 0. unfold F2R. change (powerRZ 2 0) with 1%R. ring.
Qed.

(** What [float()] makes of the number of a percentage *)
Lemma pct_float w x :
  lang pct_number w -> py_float w = Some x ->
  representable x /\ (0 <= fval x <= 1000)%R.
Proof.
  intros H E. destruct (py_float_pct w H) as (n & d & Hn & Hd & Hb & F).
  rewrite F in E. injection E as <-. apply pct_float_range; assumption.
Qed.

(** A percentage record of type "range": the bounds are the two numbers as
    written, each a float between 0 and 1000; the target is the float
    mean of the bounds and the tolerance half their float distance.  When
    the bounds are in order, the target lies between them and the
    tolerance is not negative. *)
Theorem percentage_range (prompt : list N)
    (cs : gmap string (gmap string value)) (r : gmap string value) :
  parse_constraints prompt = Ok cs ->
  cs !! "percentage" = Some r ->
  r !! "type" = Some (VStr (u "range")) ->
  exists w1 w2 low high target tolerance,
    search pattern_percent prompt =
      Some (<[2%nat := w2]> (<[1%nat := w1]> ∅)) /\
    py_float w1 = Some low /\ py_float w2 = Some high /\
    target = fdiv (fadd low high) f2_0 /\
    tolerance = fdiv (fsub high low) f2_0 /\
    r = pct_range_record low high /\
    r !! "lower_bound" = Some (VFloat low) /\
    r !! "upper_bound" = Some (VFloat high) /\
    r !! "target" = Some (VFloat target) /\
    r !! "tolerance" = Some (VFloat tolerance) /\
    fle (float_of_Z 0) low = true /\ fle low (float_of_Z 1000) = true /\
    fle (float_of_Z 0) high = true /\ fle high (float_of_Z 1000) = true /\
    (fle low high = true ->
     fle low target = true /\ fle target high = true /\
     fle (float_of_Z 0) tolerance = true).
Proof.
  intros Hcs Hr Hty.
  apply parse_constraints_blocks in Hcs
    as (_ & _ & p & _ & _ & _ & Hp & _ & _ & _ & Lp & _).
  rewrite Hr in Lp. subst p.
  destruct (percentage_cases prompt)
    as [[_ E]|[(w1 & w2 & low & high & Hs & L1 & L2 & F1 & F2 & E)
              |(w3 & v & _ & _ & _ & E)]];
    rewrite E in Hp; try discriminate Hp; injection Hp as <-.
  - destruct (pct_float _ _ L1 F1) as [Rl Bl].
    destruct (pct_float _ _ L2 F2) as [Rh Bh].
    destruct fval_0 as [R0 V0]. destruct fval_1000 as [Rk Vk].
    exists w1, w2, low, high, (fdiv (fadd low high) f2_0),
      (fdiv (fsub high low) f2_0).
    split; [exact Hs|]. split; [exact F1|]. split; [exact F2|].
    split; [reflexivity|]. split; [reflexivity|]. split; [reflexivity|].
    split; [reflexivity|]. split; [reflexivity|]. split; [reflexivity|].
    split; [reflexivity|].
    split; [apply fle_representable; try assumption; lra|].
    split; [apply fle_representable; try assumption; lra|].
    split; [apply fle_representable; try assumption; lra|].
    split; [apply fle_representable; try assumption; lra|].
    intros Hord. apply fle_representable in Hord; try assumption.
    destruct (pct_range_order low high Rl Rh Bl Bh Hord)
      as [[Rt Bt] [Ro Bo]].
    split; [apply fle_representable; try assumption; lra|].
    split; [apply fle_representable; try assumption; lra|].
    apply fle_representable; try assumption; lra.
  - exfalso. change (Some (VStr (u "fixed")) = Some (VStr (u "range"))) in Hty.
    discriminate Hty.
Qed.

Lemma percentage_range_witness :
  let prompt := u "Target EV share between 45% and 55% by 2030." in
  let r := pct_range_record (float_of_Z 45) (float_of_Z 55) in
  let cs := {[ "percentage" := r ]} in
  parse_constraints prompt = Ok cs /\
  cs !! "percentage" = Some r /\
  r !! "type" = Some (VStr (u "range")) /\
  exists w1 w2 low high target tolerance,
    search pattern_percent prompt =
      Some (<[2%nat := w2]> (<[1%nat := w1]> ∅)) /\
    py_float w1 = Some low /\ py_float w2 = Some high /\
    target = fdiv (fadd low high) f2_0 /\
    tolerance = fdiv (fsub high low) f2_0 /\
    r = pct_range_record low high /\
    r !! "lower_bound" = Some (VFloat low) /\
    r !! "upper_bound" = Some (VFloat high) /\
    r !! "target" = Some (VFloat target) /\
    r !! "tolerance" = Some (VFloat tolerance) /\
    fle (float_of_Z 0) low = true /\ fle low (float_of_Z 1000) = true /\
    fle (float_of_Z 0) high = true /\ fle high (float_of_Z 1000) = true /\
    (fle low high = true ->
     fle low target = true /\ fle target high = true /\
     fle (float_of_Z 0) tolerance = true).
Proof.
  intros prompt r cs.
  assert (H : parse_constraints prompt = Ok cs) by (vm_compute; reflexivity).
  assert (H1 : cs !! "percentage" = Some r) by apply lookup_singleton_eq.
  assert (H2 : r !! "type" = Some (VStr (u "range"))) by reflexivity.
  split; [exact H|]. split; [exact H1|]. split; [exact H2|].
  exact (percentage_range prompt cs r H H1 H2).
Defined.

(** A percentage record of type "fixed": the target is the number as
    written, a float between 0 and 1000; the tolerance is a tenth of it
    rounded to two places, but at least 1.0 (and at most 1000); the bounds
    are the target minus and plus the tolerance, and they lie strictly
    below and above the target. *)
Theorem percentage_fixed (prompt : list N)
    (cs : gmap string (gmap string value)) (r : gmap string value) :
  parse_constraints prompt = Ok cs ->
  cs !! "percentage" = Some r ->
  r !! "type" = Some (VStr (u "fixed")) ->
  exists w3 v tolerance,
    search pattern_percent prompt = Some (<[3%nat := w3]> ∅) /\
    py_float w3 = Some v /\
    tolerance = fmax f1_0 (py_round2 (fmul f0_1 v)) /\
    r = pct_fixed_record v /\
    r !! "target" = Some (VFloat v) /\
    r !! "tolerance" = Some (VFloat tolerance) /\
    r !! "lower_bound" = Some (VFloat (fsub v tolerance)) /\
    r !! "upper_bound" = Some (VFloat (fadd v tolerance)) /\
    fle (float_of_Z 0) v = true /\ fle v (float_of_Z 1000) = true /\
    fle f1_0 tolerance = true /\ fle tolerance (float_of_Z 1000) = true /\
    flt (fsub v tolerance) v = true /\ flt v (fadd v tolerance) = true.
Proof.
  intros Hcs Hr Hty.
  apply parse_constraints_blocks in Hcs
    as (_ & _ & p & _ & _ & _ & Hp & _ & _ & _ & Lp & _).
  rewrite Hr in Lp. subst p.
  destruct (percentage_cases prompt)
    as [[_ E]|[(w1 & w2 & low & high & _ & _ & _ & _ & _ & E)
              |(w3 & v & Hs & L3 & F3 & E)]];
    rewrite E in Hp; try discriminate Hp; injection Hp as <-.
  - exfalso. change (Some (VStr (u "range")) = Some (VStr (u "fixed"))) in Hty.
    discriminate Hty.
  - destruct (pct_float _ _ L3 F3) as [Rv Bv].
    destruct fval_0 as [R0 V0]. destruct fval_1000 as [Rk Vk].
    destruct (pct_fixed_order v Rv Bv) as [[Rt Bt] [[Rl Bl] [Ru Bu]]].
    exists w3, v, (fmax f1_0 (py_round2 (fmul f0_1 v))).
    split; [exact Hs|]. split; [exact F3|].
    split; [reflexivity|]. split; [reflexivity|]. split; [reflexivity|].
    split; [reflexivity|]. split; [reflexivity|]. split; [reflexivity|].
    split; [apply fle_representable; try assumption; lra|].
    split; [apply fle_representable; try assumption; lra|].
    split; [apply fle_representable; rewrite ?fval_f1_0; try assumption;
            try exact representable_f1_0; lra|].
    split; [apply fle_representable; try assumption; lra|].
    split; apply flt_representable; assumption.
Qed.

Lemma percentage_fixed_witness :
  let prompt := u "Raise the share by 12.5 percent." in
  let r := pct_fixed_record (rnd false 25 2) in
  let cs := {[ "percentage" := r ]} in
  parse_constraints prompt = Ok cs /\
  cs !! "percentage" = Some r /\
  r !! "type" = Some (VStr (u "fixed")) /\
  exists w3 v tolerance,
    search pattern_percent prompt = Some (<[3%nat := w3]> ∅) /\
    py_float w3 = Some v /\
    tolerance = fmax f1_0 (py_round2 (fmul f0_1 v)) /\
    r = pct_fixed_record v /\
    r !! "target" = Some (VFloat v) /\
    r !! "tolerance" = Some (VFloat tolerance) /\
    r !! "lower_bound" = Some (VFloat (fsub v tolerance)) /\
    r !! "upper_bound" = Some (VFloat (fadd v tolerance)) /\
    fle (float_of_Z 0) v = true /\ fle v (float_of_Z 1000) = true /\
    fle f1_0 tolerance = true /\ fle tolerance (float_of_Z 1000) = true /\
    flt (fsub v tolerance) v = true /\ flt v (fadd v tolerance) = true.
Proof.
  intros prompt r cs.
  assert (H : parse_constraints prompt = Ok cs) by (vm_compute; reflexivity).
  assert (H1 : cs !! "percentage" = Some r) by apply lookup_singleton_eq.
  assert (H2 : r !! "type" = Some (VStr (u "fixed"))) by reflexivity.
  split; [exact H|]. split; [exact H1|]. split; [exact H2|].
  exact (percentage_fixed prompt cs r H H1 H2).
Defined.


(** ** Results of rounding are in normal form *)

Lemma rnd_core n d :
  0 < n -> 0 < d ->
  let e := Z.max (ilog2 n d - 52) (-1074) in
  let m := round_half_even (shl n (- e)) (shl d e) in
  0 <= m <= 2 ^ 53 /\ (-1074 < e -> 2 ^ 52 <= m) /\
  (forall k, (IZR k <= IZR n / IZR d * powerRZ 2 (- e))%R -> k <= m) /\
  (forall k, (IZR n / IZR d * powerRZ 2 (- e) <= IZR k)%R -> m <= k).
Proof.
  intros Hn Hd e m.
  pose proof (ilog2_spec n d Hn Hd) as [HL1 HL2].
  set (L := ilog2 n d) in *.
  set (x := (IZR n / IZR d)%R) in *.
  set (q := (x * powerRZ 2 (- e))%R).
  assert (Hr : (IZR (shl n (- e)) / IZR (shl d e) = q)%R)
    by (apply ratio_shl; exact Hd).
  pose proof (shl_pos d e Hd) as Sd.
  assert (Hge : forall k, (IZR k <= q)%R -> k <= m).
  { intros k Hk. apply round_half_even_ge; [exact Sd|].
    apply div_le_IZR; [exact Sd|]. rewrite Hr. exact Hk. }
  assert (Hle : forall k, (q <= IZR k)%R -> m <= k).
  { intros k Hk. apply round_half_even_le; [exact Sd|].
    apply div_ge_IZR; [exact Sd|]. rewrite Hr. exact Hk. }
  assert (He' : L - 52 <= e) by (unfold e; lia).
  split; [split|split; [|split; assumption]].
  - apply Hge. unfold q. apply Rmult_le_pos.
    + pose proof (powerRZ2_pos L). lra.
    + left. apply powerRZ2_pos.
  - apply Hle. rewrite (pow2_IZR 53) by lia. left.
    apply Rlt_le_trans with (powerRZ 2 (L + 1 - e)).
    + apply scaled_lt. exact HL2.
    + apply powerRZ2_le. lia.
  - intros Hn1. apply Hge. rewrite (pow2_IZR 52) by lia.
    replace 52 with (L - e) by (unfold e in *; lia).
    apply scaled_pow. exact HL1.
Qed.

(** [rnd] gives an infinity or a finite float in normal form. *)
Lemma rnd_normal s n d : 0 <= n -> 0 < d -> normal (rnd s n d).
Proof.
  intros Hn Hd. unfold rnd. destruct (Z.eqb_spec n 0) as [->|Hn0].
  { cbn [normal]. lia. }
  destruct (rnd_core n d ltac:(lia) Hd) as ([Hm0 Hm53] & Hm52 & _).
  set (e := Z.max (ilog2 n d - 52) (-1074)) in *.
  set (m := round_half_even (shl n (- e)) (shl d e)) in *.
  assert (He : -1074 <= e) by (unfold e; lia).
  destruct (Z.eqb_spec m (2 ^ 53)) as [E53|N53].
  - destruct (Z.ltb_spec 971 (e + 1)); cbn [normal]; [exact I|lia].
  - destruct (Z.ltb_spec 971 e); cbn [normal]; [exact I|].
    split; [lia|]. split; [lia|].
    destruct (Z.eq_dec e (-1074)); [right; assumption|left; apply Hm52; lia].
Qed.

(** A fraction whose value is a float in normal form rounds to it. *)
Lemma rnd_id s n d m e :
  0 <= n -> 0 < d -> normal (FFin s m e) ->
  (IZR n / IZR d = F2R m e)%R ->
  rnd s n d = FFin s m e.
Proof.
  intros Hn Hd (Hm & He & Hc) Hx.
  assert (Hd' : (0 < IZR d)%R) by (apply IZR_lt; exact Hd).
  pose proof (powerRZ2_pos e) as Pe.
  rewrite rnd_sign.
  enough (E : rnd false n d = FFin false m e) by (rewrite E; reflexivity).
  unfold rnd. destruct (Z.eqb_spec n 0) as [->|Hn0].
  { assert (m = 0).
    { apply eq_IZR. unfold F2R, Rdiv in Hx. rewrite Rmult_0_l in Hx. nra. }
    subst m. destruct Hc as [Hc | ->]; [lia|reflexivity]. }
  assert (Hn' : 0 < n) by lia.
  assert (Hx0 : (0 < IZR n / IZR d)%R).
  { apply Rdiv_lt_0_compat; [apply IZR_lt; exact Hn'|exact Hd']. }
  assert (Hm0 : 0 < m).
  { apply lt_IZR. unfold F2R in Hx. nra. }
  pose proof (ilog2_spec n d Hn' Hd) as [HL1 HL2].
  destruct (rnd_core n d Hn' Hd) as (_ & _ & Hge & Hle).
  set (L := ilog2 n d) in *.
  assert (Ee : Z.max (L - 52) (-1074) = e).
  { rewrite Hx in HL1, HL2.
    destruct (Z.le_gt_cases (2 ^ 52) m) as [Hbig|Hsmall].
    - assert (B1 : (powerRZ 2 (52 + e) <= F2R m e)%R).
      { rewrite <- F2R_pow by lia. apply F2R_le. exact Hbig. }
      assert (B2 : (F2R m e < powerRZ 2 (53 + e))%R).
      { rewrite <- F2R_pow by lia. apply F2R_lt_iff. lia. }
      assert (L = 52 + e); [|lia].
      destruct (Z.lt_trichotomy L (52 + e)) as [H|[H|H]]; [|exact H|].
      + pose proof (powerRZ2_le (L + 1) (52 + e) ltac:(lia)). lra.
      + pose proof (powerRZ2_le (53 + e) L ltac:(lia)). lra.
    - destruct Hc as [Hc | ->]; [lia|].
      assert (B2 : (F2R m (-1074) < powerRZ 2 (52 + -1074))%R).
      { rewrite <- F2R_pow by lia. apply F2R_lt_iff. lia. }
      assert (L < 52 + -1074); [|lia].
      destruct (Z.lt_ge_cases L (52 + -1074)) as [H|H]; [exact H|].
      pose proof (powerRZ2_le (52 + -1074) L ltac:(lia)). lra. }
  rewrite Ee in *.
  set (r := round_half_even (shl n (- e)) (shl d e)) in *.
  assert (Eq : (IZR n / IZR d * powerRZ 2 (- e) = IZR m)%R).
  { rewrite Hx. unfold F2R. rewrite Rmult_assoc, powerRZ2_inv. ring. }
  assert (Er : r = m).
  { apply Z.le_antisymm; [apply Hle|apply Hge]; rewrite Eq; lra. }
  rewrite Er.
  destruct (Z.eqb_spec m (2 ^ 53)) as [E53|N53]; [lia|].
  destruct (Z.ltb_spec 971 e); [lia|reflexivity].
Qed.

(** Multiplying by 1.0 changes nothing. *)
Lemma fmul_one x : normal x -> fmul x f1_0 = x.
Proof.
  change f1_0 with (FFin false (2 ^ 52) (-52)).
  destruct x as [|s|s m e]; [contradiction| |]; intros Hx.
  - cbn [fmul]. change (2 ^ 52 =? 0) with false. cbv iota.
    rewrite xorb_false_r. reflexivity.
  - cbn [fmul]. rewrite xorb_false_r.
    pose proof Hx as (Hm & He & _).
    apply rnd_id.
    + apply shl_nonneg. lia.
    + apply shl_pos. lia.
    + exact Hx.
    + rewrite ratio_F2R. unfold F2R.
      rewrite mult_IZR, (pow2_IZR 52), powerRZ2_add by lia.
      pose proof (powerRZ2_inv 52). change (- (52)) with (-52) in H.
      rewrite Rmult_assoc, (Rmult_comm (powerRZ 2 e)), <- (Rmult_assoc (powerRZ 2 52)), H.
      ring.
Qed.

(** ** Plain amounts *)

Lemma lstrip_spaces ws s :
  Forall (fun c => is_space c = true) ws -> lstrip (ws ++ s) = lstrip s.
Proof.
  induction 1 as [|c ws Hc _ IH]; [reflexivity|].
  cbn [app lstrip]. rewrite Hc. exact IH.
Qed.

(** [strip()] takes the white space around a text without white space
    away. *)
Lemma py_strip_around ws1 s ws2 :
  Forall (fun c => is_space c = true) ws1 ->
  Forall (fun c => is_space c = true) ws2 ->
  Forall (fun c => is_space c = false) s ->
  py_strip (ws1 ++ s ++ ws2) = s.
Proof.
  intros H1 H2 Hs. unfold py_strip, rstrip.
  rewrite (lstrip_spaces ws1 _ H1).
  destruct Hs as [|c s Hc Hs].
  - cbn [app]. rewrite <- (app_nil_r ws2), (lstrip_spaces ws2 [] H2).
    reflexivity.
  - cbn [app]. rewrite (lstrip_keep c _ Hc).
    change (c :: s ++ ws2) with ((c :: s) ++ ws2).
    rewrite rev_app_distr, lstrip_spaces by (apply Forall_rev; exact H2).
    rewrite lstrip_nospace; [apply rev_involutive|].
    apply Forall_rev. constructor; assumption.
Qed.

(** What [parse_amount] makes of a plain amount: the multiplier 1, and
    the number without its commas for [float()]. *)
Lemma amount_parts_plain ws1 (dollar : bool) d1 gs fr ws2 :
  Forall (fun c => is_space c = true) ws1 ->
  Forall (fun c => is_space c = true) ws2 ->
  all_decimal d1 -> d1 <> [] -> Forall all_decimal gs -> fraction_text fr ->
  amount_parts (amount_text ws1 dollar d1 gs fr ws2) =
  (f1_0, d1 ++ concat gs ++ fr).
Proof.
  intros Hw1 Hw2 H1 Hne Hgs Hfr.
  pose proof (number_chars d1 gs fr H1 Hgs Hfr) as Hnum.
  set (body := d1 ++ concat (map (cons 0x2c%N) gs) ++ fr) in *.
  assert (Hbody_inert : Forall (fun c => inert_char c = true) body).
  { eapply Forall_impl; [exact Hnum|]. exact number_char_inert. }
  assert (Hbody_nosp : Forall (fun c => is_space c = false) body).
  { eapply Forall_impl; [exact Hnum|]. exact number_char_not_space. }
  assert (Etext : amount_text ws1 dollar d1 gs fr ws2 =
                  ws1 ++ ((if dollar then [0x24%N] else []) ++ body) ++ ws2).
  { unfold amount_text, body. rewrite <- !app_assoc. reflexivity. }
  unfold amount_parts. rewrite Etext.
  rewrite (py_strip_around ws1 _ ws2 Hw1 Hw2);
    [|apply Forall_app; split; [destruct dollar; repeat constructor|exact Hbody_nosp]].
  assert (Evalue1 : remove_char 0x24
                      (py_lower ((if dollar then [0x24%N] else []) ++ body))
                    = body).
  { unfold py_lower. rewrite !flat_map_app. fold (py_lower body).
    rewrite (py_lower_inert body Hbody_inert).
    rewrite !remove_char_app, (remove_dollar_inert body Hbody_inert).
    destruct dollar; reflexivity. }
  rewrite Evalue1.
  assert (Hnom : contains (u "million") body = false).
  { apply (contains_none 0x6d%N (u "illion")).
    eapply Forall_impl; [exact Hbody_inert|]. intros c Hc. cbn beta.
    apply inert_not_m in Hc. destruct (N.eqb_spec 0x6d c); [|reflexivity].
    subst c. discriminate Hc. }
  assert (Hnob : contains (u "billion") body = false).
  { apply (contains_none 0x62%N (u "illion")).
    eapply Forall_impl; [exact Hbody_inert|]. intros c Hc. cbn beta.
    apply inert_not_b in Hc. destruct (N.eqb_spec 0x62 c); [|reflexivity].
    subst c. discriminate Hc. }
  rewrite Hnom, Hnob. f_equal.
  unfold body. rewrite !remove_char_app, (remove_comma_decimal d1 H1),
    (remove_comma_groups gs Hgs), (remove_comma_fraction fr Hfr).
  apply py_strip_nospace.
  assert (Hd : forall w, all_decimal w ->
                         Forall (fun c => is_space c = false) w).
  { intros w Hw. eapply Forall_impl; [exact Hw|]. exact decimal_not_space. }
  apply Forall_app. split; [apply Hd, H1|].
  apply Forall_app. split; [apply Hd, all_decimal_concat, Hgs|].
  destruct Hfr as [->|(fp & Hfp & _ & ->)]; [constructor|].
  constructor; [reflexivity|apply Hd, Hfp].
Qed.

(** [float()] of a number is an infinity or a finite float in normal
    form. *)
Lemma py_float_number_normal d1 gs fr f :
  all_decimal d1 -> d1 <> [] -> Forall all_decimal gs -> fraction_text fr ->
  py_float (d1 ++ concat gs ++ fr) = Some f -> normal f.
Proof.
  intros H1 Hne Hgs Hfr.
  assert (Hip : all_decimal (d1 ++ concat gs))
    by (apply Forall_app; split; [exact H1|apply all_decimal_concat, Hgs]).
  assert (Hne' : d1 ++ concat gs <> [])
    by (destruct d1; [contradiction|discriminate]).
  rewrite app_assoc.
  destruct Hfr as [->|(fp & Hfp & Hnf & ->)].
  - rewrite app_nil_r, py_float_int by assumption.
    intros [= <-]. apply rnd_normal; [|lia].
    apply decimal_value_bound. exact Hip.
  - rewrite py_float_frac by assumption.
    intros [= <-]. apply rnd_normal.
    + apply decimal_value_bound. apply Forall_app. split; assumption.
    + apply Z.pow_pos_nonneg; lia.
Qed.

(** [parse_amount] on a plain amount - white space, an optional currency
    sign, digits with or without comma groups, an optional fraction, white
    space - returns [float()] of the number without its commas: the
    multiplication by 1 changes nothing. *)
Theorem parse_amount_plain (ws1 : list N) (dollar : bool)
    (d1 : list N) (gs : list (list N)) (fr ws2 : list N) :
  Forall (fun c => is_space c = true) ws1 ->
  Forall (fun c => is_space c = true) ws2 ->
  all_decimal d1 -> d1 <> [] -> Forall all_decimal gs -> fraction_text fr ->
  exists f,
    py_float (d1 ++ concat gs ++ fr) = Some f /\
    parse_amount (PStr (amount_text ws1 dollar d1 gs fr ws2)) =
    Ok (VFloat f).
Proof.
  intros Hw1 Hw2 H1 Hne Hgs Hfr.
  destruct (py_float_number d1 gs fr H1 Hne Hgs Hfr) as [f Hf].
  exists f. split; [exact Hf|].
  rewrite parse_amount_text,
    (amount_parts_plain ws1 dollar d1 gs fr ws2) by assumption.
  cbn [fst snd]. rewrite Hf.
  rewrite (fmul_one f); [reflexivity|].
  exact (py_float_number_normal d1 gs fr f H1 Hne Hgs Hfr Hf).
Qed.

Lemma parse_amount_plain_witness :
  exists f,
    py_float (u "2" ++ concat [u "000"] ++ []) = Some f /\
    parse_amount (PStr (amount_text (u " ") true (u "2") [u "000"] []
                          (u " "))) =
    Ok (VFloat f).
Proof.
  apply (parse_amount_plain (u " ") true (u "2") [u "000"] [] (u " ")).
  - repeat constructor.
  - repeat constructor.
  - repeat constructor.
  - discriminate.
  - repeat constructor.
  - left. reflexivity.
Defined.


(** ** [float()] on a text with a character it cannot read *)

Lemma drop_underscores_mark prev s a :
  drop_underscores prev s = Some a ->
  Exists (eq 0x3f) s -> Exists (eq 0x3f) a.
Proof.
  revert prev a. induction s as [|c s IH]; intros prev a H E.
  - inversion E.
  - cbn [drop_underscores] in H.
    destruct (Z.eqb_spec c 0x5f) as [->|Hc].
    + destruct (is_ascii_digit prev); [|discriminate H].
      inversion E as [? ? E0|? ? E0]; subst; [discriminate E0|].
      exact (IH _ _ H E0).
    + destruct ((prev =? 0x5f) && negb (is_ascii_digit c)); [discriminate H|].
      destruct (drop_underscores c s) as [a'|] eqn:D; [|discriminate H].
      injection H as <-.
      inversion E as [? ? E0|? ? E0]; subst.
      * apply Exists_cons_hd. reflexivity.
      * apply Exists_cons_tl. exact (IH _ _ D E0).
Qed.

Lemma lstrip_ascii_mark s :
  Exists (eq 0x3f) s -> Exists (eq 0x3f) (lstrip_ascii s).
Proof.
  induction 1 as [c s <-|c s Hs IH].
  - cbn. apply Exists_cons_hd. reflexivity.
  - cbn [lstrip_ascii]. destruct (is_py_space c); [exact IH|].
    apply Exists_cons_tl. exact Hs.
Qed.

Lemma strip_ascii_mark s :
  Exists (eq 0x3f) s -> Exists (eq 0x3f) (strip_ascii s).
Proof.
  intros H. unfold strip_ascii.
  apply Exists_rev, lstrip_ascii_mark, Exists_rev, lstrip_ascii_mark, H.
Qed.

Lemma take_sign_mark s :
  Exists (eq 0x3f) s -> Exists (eq 0x3f) (snd (take_sign s)).
Proof.
  intros H. unfold take_sign.
  destruct s as [|c t]; [exact H|].
  destruct (Z.eq_dec c 0x2d) as [->|N1].
  { inversion H as [? ? E0|? ? E0]; subst; [discriminate E0|exact E0]. }
  destruct (Z.eq_dec c 0x2b) as [->|N2].
  { inversion H as [? ? E0|? ? E0]; subst; [discriminate E0|exact E0]. }
  destruct c as [|p|p]; try exact H.
  do 6 (destruct p as [p|p|]; try exact H); contradiction.
Qed.

Lemma take_digits_mark s :
  Exists (eq 0x3f) s -> Exists (eq 0x3f) (snd (take_digits s)).
Proof.
  induction s as [|c s IH]; intros H; [inversion H|].
  cbn [take_digits]. destruct (is_ascii_digit c) eqn:D.
  - destruct (take_digits s) as [ds r]. cbn [snd] in *.
    inversion H as [? ? E0|? ? E0]; subst; [discriminate D|exact (IH E0)].
  - exact H.
Qed.

Lemma list_Z_eqb_eq a b : list_Z_eqb a b = true -> a = b.
Proof.
  revert b. induction a as [|x a IH]; intros [|y b] H; try discriminate H.
  - reflexivity.
  - cbn [list_Z_eqb] in H. apply andb_prop in H as [H1 H2].
    apply Z.eqb_eq in H1. subst. f_equal. exact (IH _ H2).
Qed.

Lemma lower_mark s :
  Exists (eq 0x3f) s -> Exists (eq 0x3f) (map ascii_lower s).
Proof.
  induction 1 as [c s <-|c s _ IH]; cbn [map].
  - apply Exists_cons_hd. reflexivity.
  - apply Exists_cons_tl. exact IH.
Qed.

Lemma word_no_mark w s :
  Forall (fun c => c <> 0x3f) w ->
  Exists (eq 0x3f) s -> list_Z_eqb (map ascii_lower s) w = false.
Proof.
  intros Hw Hs. destruct (list_Z_eqb (map ascii_lower s) w) eqn:E; [|reflexivity].
  apply list_Z_eqb_eq in E. apply lower_mark in Hs. rewrite E in Hs.
  apply Exists_exists in Hs as (x & Hx & <-).
  rewrite Forall_forall in Hw. exfalso. exact (Hw _ Hx eq_refl).
Qed.

Lemma parse_exponent_mark s :
  Exists (eq 0x3f) s -> parse_exponent s = None.
Proof.
  intros H. destruct s as [|c t]; [inversion H|].
  cbn [parse_exponent]. destruct (Z.eqb_spec (ascii_lower c) 0x65) as [E|_];
    [|reflexivity].
  assert (Ht : Exists (eq 0x3f) t).
  { inversion H as [? ? E0|? ? E0]; subst; [discriminate E|exact E0]. }
  apply take_sign_mark in Ht. destruct (take_sign t) as [neg t1].
  cbn [snd] in Ht. apply take_digits_mark in Ht.
  destruct (take_digits t1) as [ds r]. cbn [snd] in Ht.
  destruct ds; [reflexivity|]. destruct r; [inversion Ht|reflexivity].
Qed.

Lemma parse_float_ascii_mark s :
  Exists (eq 0x3f) s -> parse_float_ascii s = None.
Proof.
  intros H. unfold parse_float_ascii.
  apply take_sign_mark in H. destruct (take_sign s) as [neg s1].
  cbn [snd] in H.
  rewrite !(word_no_mark _ s1) by
    (try exact H; repeat constructor; discriminate).
  cbn [orb].
  pose proof (take_digits_mark _ H) as H2.
  destruct (take_digits s1) as [ip s2]. cbn [snd] in H2.
  assert (H3 : exists fp s3,
             match s2 with
             | 0x2e :: t => take_digits t
             | _ => ([], s2)
             end = (fp, s3) /\ Exists (eq 0x3f) s3).
  { destruct s2 as [|c t]; [inversion H2|].
    destruct (Z.eq_dec c 0x2e) as [->|Nc].
    - assert (Ht : Exists (eq 0x3f) t).
      { inversion H2 as [? ? E0|? ? E0]; subst; [discriminate E0|exact E0]. }
      apply take_digits_mark in Ht. destruct (take_digits t) as [fp s3].
      exists fp, s3. split; [reflexivity|exact Ht].
    - exists [], (c :: t). split; [|exact H2].
      destruct c as [|p|p]; try reflexivity.
      do 6 (destruct p as [p|p|]; try reflexivity). contradiction. }
  destruct H3 as (fp & s3 & -> & H3).
  rewrite (parse_exponent_mark s3 H3).
  destruct (ip ++ fp); reflexivity.
Qed.

(** [float()] raises on a text that holds a character it cannot read. *)
Lemma py_float_refused s : Exists refused s -> py_float s = None.
Proof.
  intros H. unfold py_float.
  assert (H0 : Exists (eq 0x3f) (map to_ascii s)).
  { induction H as [c s Hc|c s _ IH]; cbn [map].
    - apply Exists_cons_hd. symmetry. exact Hc.
    - apply Exists_cons_tl. exact IH. }
  destruct (drop_underscores 0 (map to_ascii s)) as [a|] eqn:D; [|reflexivity].
  pose proof (strip_ascii_mark a (drop_underscores_mark _ _ _ D H0)) as Hb.
  destruct (strip_ascii a) as [|c b] eqn:Eb; [reflexivity|].
  apply parse_float_ascii_mark. exact Hb.
Qed.

(** ** Magnitude words written with U+0130 or U+0131 *)

(** What a letter of a magnitude word matches: a character that is not
    white space and is lowered to the letter, or, for i, one of U+0130 and
    U+0131. *)
Lemma letter_cases p c :
  is_ascii_lower p = true -> p <> 0x6b%N -> p <> 0x73%N ->
  lit_ic p c = true ->
  is_space c = false /\
  ((lower_char c = [p] /\ c <> 0x130%N /\ c <> 0x131%N) \/
   (p = 0x69%N /\ c = 0x130%N) \/ (p = 0x69%N /\ c = 0x131%N)).
Proof.
  intros Hp Hk Hs H.
  assert (Hi : c = 0x130%N \/ c = 0x131%N -> p = 0x69%N).
  { intros Hc. unfold lit_ic in H. cbv zeta in H.
    rewrite (sre_lower_lower p Hp), Hp in H. unfold sre_fixes in H.
    destruct (N.eqb_spec p 0x69) as [E|N69]; [exact E|].
    destruct (N.eqb_spec p 0x73) as [E|_]; [contradiction|].
    cbn [existsb] in H. rewrite orb_false_r in H. apply N.eqb_eq in H.
    unfold is_ascii_lower in Hp. apply andb_prop in Hp as [_ H2].
    apply N.leb_le in H2.
    destruct Hc as [-> | ->].
    - change (sre_lower 0x130) with 0x69%N in H. congruence.
    - change (sre_lower 0x131) with 0x131%N in H. lia. }
  destruct (N.eq_dec c 0x130%N) as [E1|N1].
  { split; [subst c; reflexivity|]. right. left. split; [auto|exact E1]. }
  destruct (N.eq_dec c 0x131%N) as [E2|N2].
  { split; [subst c; reflexivity|]. right. right. split; [auto|exact E2]. }
  destruct (letter_lower p c Hp Hk Hs H N1 N2) as [E1 E2].
  split; [exact E2|]. left. auto.
Qed.

Lemma unreadable_spec w :
  unreadable w = true ->
  contains (u "million") w = false /\ contains (u "billion") w = false /\
  remove_char 0x24 w = w /\ Exists refused w.
Proof.
  unfold unreadable. rewrite !andb_true_iff, !negb_true_iff.
  intros [[[H1 H2] H3] H4]. split; [exact H1|]. split; [exact H2|]. split.
  - clear -H3. unfold remove_char.
    induction w as [|c w IH]; [reflexivity|].
    cbn [forallb] in H3. apply andb_prop in H3 as [Hc Hw].
    cbn [filter list_filter]. rewrite decide_True by (rewrite Hc; exact I).
    f_equal. exact (IH Hw).
  - apply existsb_exists in H4 as (x & Hx & E). apply Z.eqb_eq in E.
    apply Exists_exists. exists x. split; [apply list_elem_of_In, Hx|exact E].
Qed.

(** A magnitude word written with U+0130 or U+0131 holds no white space
    and is lowered to a word that is neither million nor billion and
    that [float()] cannot read. *)
Lemma dotted_word_lower (big : bool) wd :
  lang (lit (if big then "billion" else "million")) wd ->
  ~ no_dotted_i wd ->
  Forall (fun c => is_space c = false) wd /\ wd <> [] /\
  unreadable (py_lower wd) = true.
Proof.
  intros H Hn.
  assert (H2 : Forall2 (fun p c => lit_ic p c = true)
                 (u (if big then "billion" else "million")) wd)
    by (apply lang_lit_chars; exact H).
  assert (Hps : exists p1,
             (p1 = 0x62 \/ p1 = 0x6d)%N /\
             u (if big then "billion" else "million") =
             [p1; 0x69; 0x6c; 0x6c; 0x69; 0x6f; 0x6e]%N).
  { destruct big; eexists; (split; [|reflexivity]); auto. }
  destruct Hps as (p1 & Hp1 & Eps). rewrite Eps in H2. clear Eps H.
  repeat match goal with
         | H : Forall2 _ (_ :: _) _ |- _ => inversion H; subst; clear H
         end.
  match goal with H : Forall2 _ [] _ |- _ => inversion H; subst; clear H end.
  repeat match goal with
         | H : lit_ic ?p ?c = true |- _ =>
             let S := fresh "S" in
             let C := fresh "C" in
             apply letter_cases in H as [S C];
             [|first [reflexivity
                     |discriminate
                     |destruct Hp1 as [-> | ->]; first [reflexivity|discriminate]]..]
         end.
  split; [repeat constructor; assumption|]. split; [discriminate|].
  unfold py_lower. cbn [flat_map]. rewrite app_nil_r.
  repeat match goal with
         | C : (lower_char _ = [?p] /\ _ /\ _) \/ (?p = _ /\ _) \/ (?p = _ /\ _)
           |- _ =>
             let E := fresh "E" in
             destruct C as [(-> & ? & ?)|[[E ->]|[E ->]]];
             try discriminate E;
             try (exfalso; destruct Hp1 as [-> | ->]; discriminate E);
             try clear E
         end;
    try (destruct Hp1 as [-> | ->]; vm_compute; reflexivity).
  exfalso. apply Hn. repeat constructor; assumption.
Qed.

Lemma contains_skip p0 p a s :
  Forall (fun c => (p0 =? c)%N = false) a ->
  contains (p0 :: p) (a ++ s) = contains (p0 :: p) s.
Proof.
  induction 1 as [|c a Hc _ IH]; [reflexivity|].
  cbn [app]. rewrite contains_unfold. cbn [starts_with].
  rewrite Hc, IH. reflexivity.
Qed.

Lemma refused_not_space c : refused c -> is_space c = false.
Proof.
  unfold refused, to_ascii. intros H.
  destruct (N.ltb_spec c 128) as [Hc|Hc].
  - assert (c = 0x3f%N) by lia. subst c. reflexivity.
  - destruct (is_space c); [discriminate H|reflexivity].
Qed.

Lemma refused_not_comma c : refused c -> (c =? 0x2c)%N = false.
Proof.
  intros H. destruct (N.eqb_spec c 0x2c) as [->|]; [discriminate H|reflexivity].
Qed.

Lemma lstrip_exists (P : N -> Prop) s :
  (forall c, P c -> is_space c = false) ->
  Exists P s -> Exists P (lstrip s).
Proof.
  intros HP. induction 1 as [c s Hc|c s Hs IH]; cbn [lstrip].
  - rewrite (HP c Hc). apply Exists_cons_hd. exact Hc.
  - destruct (is_space c); [exact IH|]. apply Exists_cons_tl. exact Hs.
Qed.

Lemma py_strip_exists (P : N -> Prop) s :
  (forall c, P c -> is_space c = false) ->
  Exists P s -> Exists P (py_strip s).
Proof.
  intros HP H. unfold py_strip, rstrip.
  apply Exists_rev, lstrip_exists, Exists_rev, lstrip_exists; assumption.
Qed.

Lemma remove_char_exists (P : N -> Prop) x s :
  (forall c, P c -> (c =? x)%N = false) ->
  Exists P s -> Exists P (remove_char x s).
Proof.
  intros HP. unfold remove_char.
  induction 1 as [c s Hc|c s Hs IH]; cbn [filter list_filter].
  - rewrite decide_True by (rewrite (HP c Hc); exact I).
    apply Exists_cons_hd. exact Hc.
  - destruct (decide _); [apply Exists_cons_tl|]; exact IH.
Qed.

(** [float()] refuses what [parse_amount] makes of a magnitude text whose
    word is written with U+0130 or U+0131. *)
Lemma amount_parts_refused (big : bool) d1 gs fr ws wd :
  all_decimal d1 -> d1 <> [] -> Forall all_decimal gs -> fraction_text fr ->
  Forall (fun c => is_space c = true) ws ->
  lang (lit (if big then "billion" else "million")) wd ->
  ~ no_dotted_i wd ->
  py_float (snd (amount_parts (magnitude_text false d1 gs fr ws wd))) = None.
Proof.
  intros H1 Hne Hgs Hfr Hws Hwd Hni.
  destruct (dotted_word_lower big wd Hwd Hni) as (Hnsp & Hwne & Hun).
  apply unreadable_spec in Hun as (Hm & Hb & Hd & Hx).
  pose proof (number_chars d1 gs fr H1 Hgs Hfr) as Hnum.
  set (body := d1 ++ concat (map (cons 0x2c%N) gs) ++ fr) in *.
  assert (Hbody_inert : Forall (fun c => inert_char c = true) body).
  { eapply Forall_impl; [exact Hnum|]. exact number_char_inert. }
  assert (Hws_inert : Forall (fun c => inert_char c = true) ws).
  { eapply Forall_impl; [exact Hws|]. exact space_inert. }
  assert (Hpre : Forall (fun c => inert_char c = true) (body ++ ws))
    by (apply Forall_app; split; assumption).
  assert (Etext : magnitude_text false d1 gs fr ws wd = (body ++ ws) ++ wd).
  { unfold magnitude_text, body. cbn [app]. rewrite <- !app_assoc. reflexivity. }
  unfold amount_parts. rewrite Etext.
  (* strip() *)
  assert (Estrip : py_strip ((body ++ ws) ++ wd) = (body ++ ws) ++ wd).
  { destruct (exists_last Hwne) as (b & l & Ewd).
    assert (Hl : is_space l = false).
    { rewrite Ewd in Hnsp. apply Forall_app in Hnsp as [_ Hnsp].
      inversion Hnsp; assumption. }
    destruct d1 as [|c d1']; [contradiction|].
    assert (Hc : is_space c = false).
    { inversion H1; subst. apply decimal_not_space. assumption. }
    eapply (py_strip_ends _ c _ ((body ++ ws) ++ b) l);
      [reflexivity| |exact Hc|exact Hl].
    rewrite Ewd, <- !app_assoc. reflexivity. }
  rewrite Estrip.
  (* lower() and replace('$', '') *)
  assert (Evalue1 : remove_char 0x24 (py_lower ((body ++ ws) ++ wd))
                    = (body ++ ws) ++ py_lower wd).
  { unfold py_lower at 1. rewrite flat_map_app.
    fold (py_lower (body ++ ws)) (py_lower wd).
    rewrite (py_lower_inert _ Hpre), remove_char_app,
      (remove_dollar_inert _ Hpre), Hd. reflexivity. }
  rewrite Evalue1.
  assert (Hnom : contains (u "million") ((body ++ ws) ++ py_lower wd) = false).
  { change (u "million") with (0x6d%N :: u "illion").
    rewrite contains_skip; [exact Hm|].
    eapply Forall_impl; [exact Hpre|]. intros c Hc. cbn beta.
    apply inert_not_m in Hc. destruct (N.eqb_spec 0x6d c); [|reflexivity].
    subst c. discriminate Hc. }
  assert (Hnob : contains (u "billion") ((body ++ ws) ++ py_lower wd) = false).
  { change (u "billion") with (0x62%N :: u "illion").
    rewrite contains_skip; [exact Hb|].
    eapply Forall_impl; [exact Hpre|]. intros c Hc. cbn beta.
    apply inert_not_b in Hc. destruct (N.eqb_spec 0x62 c); [|reflexivity].
    subst c. discriminate Hc. }
  rewrite Hnom, Hnob. cbn [snd].
  apply py_float_refused, py_strip_exists; [exact refused_not_space|].
  apply remove_char_exists; [exact refused_not_comma|].
  apply Exists_app. right. exact Hx.
Qed.

(** ** The faults of [parse_constraints], exactly *)

Lemma decimal_not_dotted c :
  is_decimal c = true -> c <> 0x130%N /\ c <> 0x131%N.
Proof. intros H. split; intros ->; vm_compute in H; discriminate H. Qed.

Lemma space_not_dotted c :
  is_space c = true -> c <> 0x130%N /\ c <> 0x131%N.
Proof. intros H. split; intros ->; vm_compute in H; discriminate H. Qed.

(** The U+0130 and U+0131 of a magnitude text are in its word. *)
Lemma magnitude_text_dotted d1 gs fr ws wd :
  all_decimal d1 -> Forall all_decimal gs -> fraction_text fr ->
  Forall (fun c => is_space c = true) ws ->
  no_dotted_i wd -> no_dotted_i (magnitude_text false d1 gs fr ws wd).
Proof.
  intros H1 Hgs Hfr Hws Hwd.
  pose proof (number_chars d1 gs fr H1 Hgs Hfr) as Hnum.
  unfold magnitude_text, no_dotted_i in *. cbn [app].
  rewrite !app_assoc, <- (app_assoc d1).
  apply Forall_app. split; [apply Forall_app; split|exact Hwd].
  - eapply Forall_impl; [exact Hnum|]. intros c Hc. cbn beta.
    unfold number_char in Hc. rewrite !orb_true_iff, !N.eqb_eq in Hc.
    destruct Hc as [[Hc| ->]| ->];
      [apply decimal_not_dotted, Hc|split; discriminate|split; discriminate].
  - eapply Forall_impl; [exact Hws|]. exact space_not_dotted.
Qed.

(** [parse_amount] on the magnitude text found by the budget pattern
    raises when the text holds U+0130 or U+0131. *)
Lemma magnitude_amount_fault wm :
  lang magnitude wm -> ~ no_dotted_i wm ->
  py_float (snd (amount_parts wm)) = None.
Proof.
  intros Hm Hn.
  apply lang_magnitude in Hm
    as (d1 & gs & fr & ws & wd & big & -> & [D1 L1] & Hgs & Hfr & Hws & Hwd).
  assert (Hne : d1 <> []) by (intros ->; simpl in L1; lia).
  assert (Hgs' : Forall all_decimal gs).
  { eapply Forall_impl; [exact Hgs|]. intros g [Hg _]. exact Hg. }
  apply (amount_parts_refused big); try assumption.
  intros Hwn. apply Hn. apply magnitude_text_dotted; assumption.
Qed.

(** [parse_constraints] raises exactly when the magnitude text that the
    budget pattern finds in the prompt holds U+0130 (capital I with dot)
    or U+0131 (dotless i). *)
Theorem fault_iff_dotted_i (prompt : list N) :
  (exists e, parse_constraints prompt = Raise e) <->
  (exists i wm,
      search pattern_budget prompt = Some (<[i := wm]> ∅) /\
      ~ no_dotted_i wm).
Proof.
  split.
  - intros [e H].
    apply parse_constraints_fault, budget_fault in H
      as (_ & i & wm & Hs & Hm & Hf).
    exists i, wm. split; [exact Hs|].
    intros Hn. destruct (magnitude_amount_ok wm Hm Hn) as [f Hf'].
    rewrite Hf in Hf'. discriminate Hf'.
  - intros (i & wm & Hs & Hn). exists ValueError.
    apply parse_constraints_fault.
    destruct (budget_cases prompt) as [[E _]|(i' & wm' & _ & Hs' & Hm & E)].
    { rewrite Hs in E. discriminate E. }
    assert (wm' = wm) as ->.
    { assert (Em : (<[i := wm]> ∅ : gmap nat (list N)) = <[i' := wm']> ∅)
        by congruence.
      assert (L : (<[i' := wm']> (∅ : gmap nat (list N))) !! i = Some wm)
        by (rewrite <- Em; apply lookup_insert_eq).
      destruct (decide (i' = i)) as [->|Hi].
      - rewrite lookup_insert_eq in L. congruence.
      - rewrite lookup_insert_ne, lookup_empty in L by exact Hi.
        discriminate L. }
    rewrite E, parse_amount_text, (magnitude_amount_fault wm Hm Hn).
    reflexivity.
Qed.

Lemma fault_iff_witness :
  exists e, parse_constraints prompt_dotted_I = Raise e.
Proof.
  apply (proj2 (fault_iff_dotted_i prompt_dotted_I)).
  exists 3%nat, (u "30 M" ++ [0x130%N] ++ u "LL" ++ [0x130%N] ++ u "ON").
  split; [vm_compute; reflexivity|].
  intros H. unfold no_dotted_i in H.
  apply Forall_app in H as [_ H]. inversion H as [|? ? [H1 _] _].
  apply H1. reflexivity.
Defined.

(** ** The value of a budget *)

(** [float()] of a number is the rounding of a fraction that is not
    negative. *)
Lemma py_float_number_rnd d1 gs fr :
  all_decimal d1 -> d1 <> [] -> Forall all_decimal gs -> fraction_text fr ->
  exists n d, 0 <= n /\ 0 < d /\
              py_float (d1 ++ concat gs ++ fr) = Some (rnd false n d).
Proof.
  intros H1 Hne Hgs Hfr.
  assert (Hip : all_decimal (d1 ++ concat gs))
    by (apply Forall_app; split; [exact H1|apply all_decimal_concat, Hgs]).
  assert (Hne' : d1 ++ concat gs <> [])
    by (destruct d1; [contradiction|discriminate]).
  rewrite app_assoc.
  destruct Hfr as [->|(fp & Hfp & Hnf & ->)].
  - rewrite app_nil_r, py_float_int by assumption.
    eexists _, 1. split; [|split; [lia|reflexivity]].
    apply decimal_value_bound. exact Hip.
  - rewrite py_float_frac by assumption.
    eexists _, _. split; [|split; [|reflexivity]].
    + apply decimal_value_bound. apply Forall_app. split; assumption.
    + apply Z.pow_pos_nonneg; lia.
Qed.

(** What [rnd] gives without a sign: plus infinity, or a finite float in
    normal form that is not negative. *)
Lemma rnd_false_cases n d :
  0 <= n -> 0 < d ->
  rnd false n d = FInf false \/
  exists m e, rnd false n d = FFin false m e /\ normal (FFin false m e).
Proof.
  intros Hn Hd. pose proof (rnd_normal false n d Hn Hd) as Hr.
  pose proof (rnd_sign false n d) as Hs.
  destruct (rnd false n d) as [|s|s m e]; [contradiction| |].
  - left. exact Hs.
  - right. exists m, e. rewrite Hs in Hr. split; [exact Hs|exact Hr].
Qed.

Lemma fle_zero_rnd n d :
  0 <= n -> 0 < d -> fle (float_of_Z 0) (rnd false n d) = true.
Proof.
  intros Hn Hd. change (float_of_Z 0) with (FFin false 0 (-1074)).
  destruct (rnd_false_cases n d Hn Hd) as [-> |(m & e & -> & Hm & _)];
    [reflexivity|].
  cbn [fle signed]. apply Z.leb_le.
  unfold shl at 1. rewrite Z.mul_0_l. apply shl_nonneg. lia.
Qed.

(** The product of such a float and a positive finite one is again plus
    infinity or a finite float in normal form, and not negative. *)
Lemma fmul_rnd_positive n d m e :
  0 <= n -> 0 < d -> 0 < m ->
  normal (fmul (rnd false n d) (FFin false m e)) /\
  fle (float_of_Z 0) (fmul (rnd false n d) (FFin false m e)) = true.
Proof.
  intros Hn Hd Hm.
  destruct (rnd_false_cases n d Hn Hd) as [-> |(m1 & e1 & -> & Hm1 & _)].
  - cbn [fmul]. destruct (Z.eqb_spec m 0) as [E|_]; [lia|].
    split; [exact I|reflexivity].
  - cbn [fmul xorb].
    assert (H1 : 0 <= shl (m1 * m) (e1 + e)) by (apply shl_nonneg; nia).
    assert (H2 : 0 < shl 1 (- (e1 + e))) by (apply shl_pos; lia).
    split; [apply rnd_normal; assumption|apply fle_zero_rnd; assumption].
Qed.

(** Every budget record in a result stands for a magnitude text written
    without U+0130 and U+0131; its target is [float()] of the number
    without its commas times 1e6 for million and 1e9 for billion: plus
    infinity or a finite float in normal form, never a NaN and never
    negative. *)
Theorem budget_target_value (prompt : list N)
    (cs : gmap string (gmap string value)) (r : gmap string value) :
  parse_constraints prompt = Ok cs ->
  cs !! "budget" = Some r ->
  exists d1 gs fr ws wd (big : bool) f target,
    r !! "raw_value" = Some (VStr (magnitude_text false d1 gs fr ws wd)) /\
    digits_between 1 3 d1 /\ Forall (digits_between 3 3) gs /\
    fraction_text fr /\ Forall (fun c => is_space c = true) ws /\
    lang (lit (if big then "billion" else "million")) wd /\
    no_dotted_i wd /\
    py_float (d1 ++ concat gs ++ fr) = Some f /\
    target = fmul f (if big then f1e9 else f1e6) /\
    r !! "target" = Some (VFloat target) /\
    normal target /\ fle (float_of_Z 0) target = true.
Proof.
  intros Hcs Hr.
  apply parse_constraints_blocks in Hcs
    as (_ & b & _ & _ & _ & Hb & _ & _ & _ & Lb & _).
  rewrite Hr in Lb. subst b.
  destruct (budget_cases prompt) as [[_ E]|(i & wm & Hi & Hs & Hm & E)];
    rewrite E in Hb; [discriminate Hb|].
  rewrite parse_amount_text in Hb.
  destruct (py_float (snd (amount_parts wm))) as [f|] eqn:F; [|discriminate Hb].
  injection Hb as <-.
  assert (Hn : no_dotted_i wm).
  { destruct (decide (no_dotted_i wm)) as [Hn|Hn]; [exact Hn|].
    rewrite (magnitude_amount_fault wm Hm Hn) in F. discriminate F. }
  apply lang_magnitude in Hm
    as (d1 & gs & fr & ws & wd & big & -> & D1 & Hgs & Hfr & Hws & Hwd).
  pose proof D1 as [D1' L1].
  assert (Hne : d1 <> []) by (intros ->; simpl in L1; lia).
  assert (Hgs' : Forall all_decimal gs).
  { eapply Forall_impl; [exact Hgs|]. intros g [Hg _]. exact Hg. }
  assert (Hwn : no_dotted_i wd).
  { unfold magnitude_text, no_dotted_i in *.
    repeat (apply Forall_app in Hn as [_ Hn]). exact Hn. }
  rewrite (amount_parts_magnitude false big d1 gs fr ws wd) in * by assumption.
  cbn [fst snd] in *.
  destruct (py_float_number_rnd d1 gs fr D1' Hne Hgs' Hfr)
    as (n & d & Hn0 & Hd0 & Fn).
  rewrite Fn in F. injection F as <-.
  exists d1, gs, fr, ws, wd, big, (rnd false n d),
    (fmul (rnd false n d) (if big then f1e9 else f1e6)).
  split; [destruct Hi as [-> | [-> | ->]]; reflexivity|].
  split; [exact D1|]. split; [exact Hgs|]. split; [exact Hfr|].
  split; [exact Hws|]. split; [exact Hwd|]. split; [exact Hwn|].
  split; [exact Fn|]. split; [reflexivity|].
  split; [destruct Hi as [-> | [-> | ->]]; reflexivity|].
  assert (Hmult : exists m e,
             (if big then f1e9 else f1e6) = FFin false m e /\ 0 < m).
  { destruct big; eexists _, _;
      (split; [vm_compute; reflexivity|reflexivity]). }
  destruct Hmult as (m & e & -> & Hm0).
  apply fmul_rnd_positive; assumption.
Qed.

Lemma budget_target_witness :
  let prompt := u "Spend up to $1,250.75 Million." in
  let r := budget_record 1 (VFloat (fmul (rnd false 125075 100) f1e6))
             (u "1,250.75 Million") in
  let cs := {[ "budget" := r ]} in
  parse_constraints prompt = Ok cs /\ cs !! "budget" = Some r /\
  exists d1 gs fr ws wd (big : bool) f target,
    r !! "raw_value" = Some (VStr (magnitude_text false d1 gs fr ws wd)) /\
    digits_between 1 3 d1 /\ Forall (digits_between 3 3) gs /\
    fraction_text fr /\ Forall (fun c => is_space c = true) ws /\
    lang (lit (if big then "billion" else "million")) wd /\
    no_dotted_i wd /\
    py_float (d1 ++ concat gs ++ fr) = Some f /\
    target = fmul f (if big then f1e9 else f1e6) /\
    r !! "target" = Some (VFloat target) /\
    normal target /\ fle (float_of_Z 0) target = true.
Proof.
  intros prompt r cs.
  assert (H : parse_constraints prompt = Ok cs) by (vm_compute; reflexivity).
  assert (H1 : cs !! "budget" = Some r) by apply lookup_singleton_eq.
  split; [exact H|]. split; [exact H1|].
  exact (budget_target_value prompt cs r H H1).
Defined.
